(** * RCON client of the Minecraft server manager: a shallow embedding

    This development embeds [bot/src/core/rcon_client.py] — the packet
    codec ([RCONPacket.encode], [RCONPacket.decode]), the request
    correlator ([_next_request_id]), the connection manager
    ([_connect_internal], [_authenticate], [_disconnect_internal],
    [_reconnect]) and the command executor ([_execute_internal]) — and
    proves properties of them.

    Conventions.
    - A Python [int] is a [Z]; a byte is a [Z] in [[0, 256)]; [bytes] is a
      list of bytes.
    - A Python [str] is the list of its Unicode code points.
    - A Python exception is a constructor of [exn]; a function that may
      raise returns a [result].
    - The client object is the record [RCONClient]; a method is a function
      from the client (and the environment) to an outcome, the new client
      and the new environment. *)

From Stdlib Require Import String Ascii ZArith List Bool Lia.
Import ListNotations.

Local Open Scope Z_scope.

(** ** Exceptions *)

(** The exception classes of the module, and the two library exceptions
    that [RCONPacket.encode] can let escape ([struct.error] for a field
    outside the signed 32-bit range, [UnicodeEncodeError] for a lone
    surrogate). *)
Inductive exn : Type :=
| RCONError
| RCONConnectionError
| RCONAuthenticationError
| RCONTimeoutError
| RCONCommandError
| StructError
| UnicodeEncodeError.

(** [isinstance(e, RCONError)]: the four subclasses and the base class. *)
Definition is_RCONError (e : exn) : bool :=
  match e with
  | RCONError | RCONConnectionError | RCONAuthenticationError
  | RCONTimeoutError | RCONCommandError => true
  | StructError | UnicodeEncodeError => false
  end.

Inductive result (A : Type) : Type :=
| Ok (a : A)
| Raise (e : exn).
Arguments Ok {A} a.
Arguments Raise {A} e.

(** ** Bytes, [struct] and UTF-8 *)

Definition byte := Z.
Definition bytes := list byte.
Definition str := list Z.

Definition is_byte (b : Z) : Prop := 0 <= b < 256.

Definition int32_min : Z := -2147483648.
Definition int32_max : Z := 2147483647.

Definition in_int32 (v : Z) : bool := (int32_min <=? v) && (v <=? int32_max).

(** The four little-endian bytes of [v] in two's complement. *)
Definition le_bytes4 (v : Z) : bytes :=
  [v mod 256; (v / 256) mod 256; (v / 65536) mod 256; (v / 16777216) mod 256].

(** [struct.pack('<i', v)] *)
Definition struct_pack_i (v : Z) : result bytes :=
  if in_int32 v then Ok (le_bytes4 v) else Raise StructError.

(** [struct.pack('<ii', a, b)] *)
Definition struct_pack_ii (a b : Z) : result bytes :=
  if in_int32 a && in_int32 b then Ok (le_bytes4 a ++ le_bytes4 b)
  else Raise StructError.

Definition le_signed4 (b0 b1 b2 b3 : byte) : Z :=
  let u := b0 + 256 * b1 + 65536 * b2 + 16777216 * b3 in
  if 2147483648 <=? u then u - 4294967296 else u.

(** [struct.unpack('<i', data)[0]] *)
Definition struct_unpack_i (data : bytes) : result Z :=
  match data with
  | [b0; b1; b2; b3] => Ok (le_signed4 b0 b1 b2 b3)
  | _ => Raise StructError
  end.

(** [struct.unpack('<ii', data)] *)
Definition struct_unpack_ii (data : bytes) : result (Z * Z) :=
  match data with
  | [a0; a1; a2; a3; b0; b1; b2; b3] =>
      Ok (le_signed4 a0 a1 a2 a3, le_signed4 b0 b1 b2 b3)
  | _ => Raise StructError
  end.

(** A code point that UTF-8 can carry: a Unicode scalar value. *)
Definition is_scalar (c : Z) : bool :=
  (0 <=? c) && (c <? 1114112) && negb ((55296 <=? c) && (c <=? 57343)).

(** The UTF-8 bytes of one code point; [None] for a surrogate (and for a
    value that is not a code point). *)
Definition utf8_encode_cp (c : Z) : option bytes :=
  if negb (is_scalar c) then None
  else if c <? 128 then Some [c]
  else if c <? 2048 then Some [192 + c / 64; 128 + c mod 64]
  else if c <? 65536 then
    Some [224 + c / 4096; 128 + (c / 64) mod 64; 128 + c mod 64]
  else
    Some [240 + c / 262144; 128 + (c / 4096) mod 64;
          128 + (c / 64) mod 64; 128 + c mod 64].

(** [s.encode('utf-8')] *)
Fixpoint str_encode_utf8 (s : str) : result bytes :=
  match s with
  | [] => Ok []
  | c :: s' =>
      match utf8_encode_cp c with
      | None => Raise UnicodeEncodeError
      | Some bs =>
          match str_encode_utf8 s' with
          | Ok rest => Ok (bs ++ rest)
          | Raise e => Raise e
          end
      end
  end.

Definition replacement_char : Z := 65533.

Definition is_continuation (b : byte) : bool := (128 <=? b) && (b <? 192).

(** [data.decode('utf-8', errors='replace')]: a well-formed sequence gives
    its code point; an ill-formed one gives U+FFFD for its longest prefix
    that starts a well-formed sequence (one byte at least), and decoding
    resumes at the next byte. *)
Fixpoint bytes_decode_utf8_replace (data : bytes) : str :=
  match data with
  | [] => []
  | b0 :: r0 =>
      if b0 <? 128 then b0 :: bytes_decode_utf8_replace r0
      else if b0 <? 194 then replacement_char :: bytes_decode_utf8_replace r0
      else if b0 <? 224 then
        match r0 with
        | [] => [replacement_char]
        | b1 :: r1 =>
            if is_continuation b1
            then ((b0 - 192) * 64 + (b1 - 128)) :: bytes_decode_utf8_replace r1
            else replacement_char :: bytes_decode_utf8_replace r0
        end
      else if b0 <? 240 then
        match r0 with
        | [] => [replacement_char]
        | b1 :: r1 =>
            if negb (is_continuation b1)
               || (if b1 <? 160 then b0 =? 224 else b0 =? 237)
            then replacement_char :: bytes_decode_utf8_replace r0
            else
              match r1 with
              | [] => [replacement_char]
              | b2 :: r2 =>
                  if is_continuation b2
                  then ((b0 - 224) * 4096 + (b1 - 128) * 64 + (b2 - 128))
                         :: bytes_decode_utf8_replace r2
                  else replacement_char :: bytes_decode_utf8_replace r1
              end
        end
      else if b0 <? 245 then
        match r0 with
        | [] => [replacement_char]
        | b1 :: r1 =>
            if negb (is_continuation b1)
               || (if b1 <? 144 then b0 =? 240 else b0 =? 244)
            then replacement_char :: bytes_decode_utf8_replace r0
            else
              match r1 with
              | [] => [replacement_char]
              | b2 :: r2 =>
                  if negb (is_continuation b2)
                  then replacement_char :: bytes_decode_utf8_replace r1
                  else
                    match r2 with
                    | [] => [replacement_char]
                    | b3 :: r3 =>
                        if is_continuation b3
                        then ((b0 - 240) * 262144 + (b1 - 128) * 4096
                              + (b2 - 128) * 64 + (b3 - 128))
                               :: bytes_decode_utf8_replace r3
                        else replacement_char :: bytes_decode_utf8_replace r2
                    end
              end
        end
      else replacement_char :: bytes_decode_utf8_replace r0
  end.

(** ** The packet codec *)

Definition SERVERDATA_RESPONSE_VALUE : Z := 0.
Definition SERVERDATA_EXECCOMMAND : Z := 2.
Definition SERVERDATA_AUTH_RESPONSE : Z := 2.
Definition SERVERDATA_AUTH : Z := 3.

Record RCONPacket : Type := mkPacket {
  request_id : Z;
  packet_type : Z;
  payload : str
}.

(** [RCONPacket.encode] *)
Definition encode (self : RCONPacket) : result bytes :=
  match str_encode_utf8 (payload self) with
  | Raise e => Raise e
  | Ok utf8 =>
      let payload_bytes := utf8 ++ [0; 0] in
      match struct_pack_ii (request_id self) (packet_type self) with
      | Raise e => Raise e
      | Ok header =>
          let packet_body := header ++ payload_bytes in
          let packet_size := Z.of_nat (length packet_body) in
          match struct_pack_i packet_size with
          | Raise e => Raise e
          | Ok prefix => Ok (prefix ++ packet_body)
          end
      end
  end.

(** [RCONPacket.decode]; [data[:8]] is [firstn 8 data] and [data[8:-2]]
    is what lies between the first eight bytes and the last two. *)
Definition decode (data : bytes) : result RCONPacket :=
  if Z.of_nat (length data) <? 10 then Raise RCONError
  else
    match struct_unpack_ii (firstn 8 data) with
    | Raise e => Raise e
    | Ok (rid, ptype) =>
        let payload :=
          bytes_decode_utf8_replace (firstn (length data - 10) (skipn 8 data)) in
        Ok (mkPacket rid ptype payload)
    end.

(** ** The environment: transport and observable events *)

(** What the stream reader will see, in order: a byte that arrives in time,
    a silence longer than the timeout, the end of the stream, or a
    transport error.  An exhausted list is a peer that stays silent. *)
Inductive rx_item : Type :=
| RxByte (b : byte)
| RxStall
| RxEof
| RxFail.

(** Outcome of [asyncio.wait_for(reader.readexactly(n), timeout)]. *)
Inductive read_outcome : Type :=
| RdOk (data : bytes)
| RdTimeout       (* asyncio.TimeoutError *)
| RdIncomplete    (* asyncio.IncompleteReadError *)
| RdOSError.      (* OSError *)

(** [readexactly(n)] under [wait_for]: the [n] bytes when they all arrive;
    on a timeout the bytes already buffered stay in the stream. *)
Fixpoint readexactly (n : nat) (rx : list rx_item)
  : read_outcome * list rx_item :=
  match n with
  | O => (RdOk [], rx)
  | S n' =>
      match rx with
      | [] => (RdTimeout, [])
      | RxByte b :: rx' =>
          match readexactly n' rx' with
          | (RdOk data, rest) => (RdOk (b :: data), rest)
          | (RdTimeout, rest) => (RdTimeout, RxByte b :: rest)
          | (RdIncomplete, rest) => (RdIncomplete, rest)
          | (RdOSError, rest) => (RdOSError, rest)
          end
      | RxStall :: rx' => (RdTimeout, rx')
      | RxEof :: _ => (RdIncomplete, rx)
      | RxFail :: _ => (RdOSError, rx)
      end
  end.

(** [reader.at_eof()] *)
Definition at_eof (rx : list rx_item) : bool :=
  match rx with
  | RxEof :: _ => true
  | _ => false
  end.

(** Outcome of [asyncio.wait_for(writer.drain(), timeout)], one per write;
    an exhausted list is a transport that keeps accepting data. *)
Inductive drain_outcome : Type :=
| DrainOk
| DrainTimeout    (* asyncio.TimeoutError *)
| DrainOSError.   (* OSError *)

(** Outcome of [asyncio.wait_for(asyncio.open_connection(host, port))]:
    a transport with what its reader and writer will do, a timeout, or a
    refusal. *)
Inductive conn_script : Type :=
| ConnOk (rx : list rx_item) (tx : list drain_outcome)
| ConnTimeout     (* asyncio.TimeoutError *)
| ConnRefused.    (* OSError *)

(** Events a run leaves behind, oldest first. *)
Inductive event : Type :=
| EvOpen                  (* a call of asyncio.open_connection *)
| EvWrite (data : bytes)  (* writer.write(data) *)
| EvRecv (p : RCONPacket) (* a packet returned by _receive_packet *)
| EvClose                 (* writer.close() *)
| EvReconnectSleep.       (* asyncio.sleep(self.reconnect_delay) *)

(** The environment: the outcomes of the connection attempts to come (none
    left: nobody listens, the attempt is refused) and the events so far. *)
Record World : Type := mkWorld {
  pending : list conn_script;
  trace : list event
}.

Definition emit (ev : event) (w : World) : World :=
  mkWorld (pending w) (trace w ++ [ev]).

(** ** The client object *)

(** The fields of [RCONClient] that the methods below read or write.
    [host], [port], [timeout] and [reconnect_delay] only parameterise the
    environment; the two locks serialise callers and hold no data.  A live
    reader or writer is represented by what it will do. *)
Record RCONClient : Type := mkClient {
  password : str;
  auto_reconnect : bool;
  max_reconnect_attempts : Z;
  _reader : option (list rx_item);
  _writer : option (list drain_outcome);
  _request_id : Z;
  _connected : bool;
  _authenticated : bool
}.

(** [RCONClient.__init__] *)
Definition init (password : str) (auto_reconnect : bool)
    (max_reconnect_attempts : Z) : RCONClient :=
  mkClient password auto_reconnect max_reconnect_attempts
           None None 0 false false.

Definition set_reader (c : RCONClient) (r : option (list rx_item)) :=
  mkClient (password c) (auto_reconnect c) (max_reconnect_attempts c)
           r (_writer c) (_request_id c) (_connected c) (_authenticated c).

Definition set_writer (c : RCONClient) (t : option (list drain_outcome)) :=
  mkClient (password c) (auto_reconnect c) (max_reconnect_attempts c)
           (_reader c) t (_request_id c) (_connected c) (_authenticated c).

Definition set_request_id (c : RCONClient) (i : Z) :=
  mkClient (password c) (auto_reconnect c) (max_reconnect_attempts c)
           (_reader c) (_writer c) i (_connected c) (_authenticated c).

Definition set_connected (c : RCONClient) (b : bool) :=
  mkClient (password c) (auto_reconnect c) (max_reconnect_attempts c)
           (_reader c) (_writer c) (_request_id c) b (_authenticated c).

Definition set_authenticated (c : RCONClient) (b : bool) :=
  mkClient (password c) (auto_reconnect c) (max_reconnect_attempts c)
           (_reader c) (_writer c) (_request_id c) (_connected c) b.

(** [self._connected = False; self._authenticated = False] *)
Definition mark_down (c : RCONClient) : RCONClient :=
  set_authenticated (set_connected c false) false.

(** The property [is_connected]. *)
Definition is_connected (c : RCONClient) : bool :=
  _connected c && _authenticated c.

(** ** A state and exception monad for the methods *)

Definition M (A : Type) : Type :=
  RCONClient -> World -> result A * RCONClient * World.

Definition ret {A} (a : A) : M A := fun c w => (Ok a, c, w).

Definition raise {A} (e : exn) : M A := fun c w => (Raise e, c, w).

Definition bind {A B} (m : M A) (k : A -> M B) : M B :=
  fun c w =>
    match m c w with
    | (Ok a, c', w') => k a c' w'
    | (Raise e, c', w') => (Raise e, c', w')
    end.

(** [try: m except ...: h e] where [h] re-raises what it does not catch. *)
Definition try_except {A} (m : M A) (h : exn -> M A) : M A :=
  fun c w =>
    match m c w with
    | (Ok a, c', w') => (Ok a, c', w')
    | (Raise e, c', w') => h e c' w'
    end.

Definition update (f : RCONClient -> RCONClient) : M unit :=
  fun c w => (Ok tt, f c, w).

Definition log_event (ev : event) : M unit :=
  fun c w => (Ok tt, c, emit ev w).

Declare Scope rcon_scope.
Delimit Scope rcon_scope with rcon.
Notation "x <- m ;; k" := (bind m (fun x => k))
  (at level 61, m at next level, right associativity) : rcon_scope.
Notation "m ;;; k" := (bind m (fun _ => k))
  (at level 61, right associativity) : rcon_scope.
Local Open Scope rcon_scope.

(** ** The request correlator *)

(** [RCONClient._next_request_id] *)
Definition _next_request_id : M Z :=
  fun c w =>
    let i := (_request_id c + 1) mod 2147483647 in
    (Ok i, set_request_id c i, w).

(** ** Sending and receiving packets *)

(** [RCONClient._send_packet] *)
Definition _send_packet (packet : RCONPacket) : M unit :=
  fun c w =>
    match _writer c with
    | None => (Raise RCONConnectionError, c, w)
    | Some tx =>
        match encode packet with
        | Raise e => (Raise e, c, w)
        | Ok data =>
            let w1 := emit (EvWrite data) w in
            match tx with
            | [] => (Ok tt, c, w1)
            | DrainOk :: tx' => (Ok tt, set_writer c (Some tx'), w1)
            | DrainTimeout :: tx' =>
                (Raise RCONTimeoutError, set_writer c (Some tx'), w1)
            | DrainOSError :: tx' =>
                (Raise RCONConnectionError,
                 mark_down (set_writer c (Some tx')), w1)
            end
        end
    end.

(** [RCONClient._receive_packet] *)
Definition _receive_packet : M RCONPacket :=
  fun c w =>
    match _reader c with
    | None => (Raise RCONConnectionError, c, w)
    | Some rx =>
        match readexactly 4 rx with
        | (RdTimeout, rx1) =>
            (Raise RCONTimeoutError, set_reader c (Some rx1), w)
        | (RdIncomplete, rx1) =>
            (Raise RCONConnectionError,
             mark_down (set_reader c (Some rx1)), w)
        | (RdOSError, rx1) =>
            (Raise RCONConnectionError,
             mark_down (set_reader c (Some rx1)), w)
        | (RdOk size_data, rx1) =>
            let c1 := set_reader c (Some rx1) in
            match struct_unpack_i size_data with
            | Raise e => (Raise e, c1, w)
            | Ok packet_size =>
                if (packet_size <? 10) || (4096 <? packet_size)
                then (Raise RCONError, c1, w)
                else
                  match readexactly (Z.to_nat packet_size) rx1 with
                  | (RdTimeout, rx2) =>
                      (Raise RCONTimeoutError, set_reader c (Some rx2), w)
                  | (RdIncomplete, rx2) =>
                      (Raise RCONConnectionError,
                       mark_down (set_reader c (Some rx2)), w)
                  | (RdOSError, rx2) =>
                      (Raise RCONConnectionError,
                       mark_down (set_reader c (Some rx2)), w)
                  | (RdOk packet_data, rx2) =>
                      let c2 := set_reader c (Some rx2) in
                      match decode packet_data with
                      | Raise e => (Raise e, c2, w)
                      | Ok packet => (Ok packet, c2, emit (EvRecv packet) w)
                      end
                  end
            end
        end
    end.

(** ** The connection manager *)

(** [RCONClient._disconnect_internal]; whether [close] / [wait_closed]
    raises or not, the [finally] clause resets the four fields. *)
Definition _disconnect_internal : M unit :=
  fun c w =>
    match _writer c with
    | Some _ =>
        (Ok tt, mark_down (set_reader (set_writer c None) None),
         emit EvClose w)
    | None => (Ok tt, c, w)
    end.

(** The exchange at the head of the [try] block of [_authenticate]: send
    the [Auth] packet, read a response, and read a second one when the
    first is of type [SERVERDATA_RESPONSE_VALUE].  Its value is the
    response that the two checks on [request_id] then examine. *)
Definition _authenticate_exchange (packet : RCONPacket) : M RCONPacket :=
  _send_packet packet ;;;
  response <- _receive_packet ;;
  if packet_type response =? SERVERDATA_RESPONSE_VALUE
  then _receive_packet
  else ret response.

(** [RCONClient._authenticate] *)
Definition _authenticate : M unit :=
  auth_id <- _next_request_id ;;
  (fun c w =>
     let packet := mkPacket auth_id SERVERDATA_AUTH (password c) in
     try_except
       (response <- _authenticate_exchange packet ;;
        if request_id response =? -1 then
          update (fun c => set_connected c false) ;;;
          raise RCONAuthenticationError
        else if negb (request_id response =? auth_id) then
          update (fun c => set_connected c false) ;;;
          raise RCONAuthenticationError
        else
          update (fun c => set_authenticated c true))
       (fun e =>
          if is_RCONError e then update mark_down ;;; raise e
          else raise e)
       c w).

(** [RCONClient._connect_internal] *)
Definition _connect_internal : M unit :=
  fun c w =>
    if _connected c then (Ok tt, c, w)
    else
      let w1 := emit EvOpen w in
      match pending w1 with
      | ConnOk rx tx :: rest =>
          let c1 :=
            set_connected (set_writer (set_reader c (Some rx)) (Some tx)) true in
          _authenticate c1 (mkWorld rest (trace w1))
      | ConnTimeout :: rest =>
          (Raise RCONConnectionError, c, mkWorld rest (trace w1))
      | ConnRefused :: rest =>
          (Raise RCONConnectionError, c, mkWorld rest (trace w1))
      | [] => (Raise RCONConnectionError, c, w1)
      end.

(** [RCONClient.connect] (the lock only serialises callers) *)
Definition connect : M unit := _connect_internal.

(** [RCONClient.disconnect] *)
Definition disconnect : M unit := _disconnect_internal.

(** The [try] block of one iteration of the loop of [_reconnect], up to
    the call of [_connect_internal]. *)
Definition _reconnect_attempt : M unit :=
  _disconnect_internal ;;;
  log_event EvReconnectSleep ;;;
  _connect_internal.

(** The [for] loop of [_reconnect], by the number of attempts left: an
    attempt that raises an [RCONError] of any class is logged and the loop
    goes on; the first attempt that raises nothing returns [True]. *)
Fixpoint _reconnect_loop (attempts : nat) : M bool :=
  match attempts with
  | O => ret false
  | S attempts' =>
      try_except
        (_reconnect_attempt ;;; ret true)
        (fun e =>
           if is_RCONError e then _reconnect_loop attempts'
           else raise e)
  end.

(** [RCONClient._reconnect]: [range(1, max_reconnect_attempts + 1)] has
    [max_reconnect_attempts] elements, none when that is not positive. *)
Definition _reconnect : M bool :=
  fun c w => _reconnect_loop (Z.to_nat (max_reconnect_attempts c)) c w.

(** ** The command executor *)

Definition reader_at_eof (c : RCONClient) : bool :=
  match _reader c with
  | Some rx => at_eof rx
  | None => false
  end.

Definition has_reader (c : RCONClient) : bool :=
  match _reader c with
  | Some _ => true
  | None => false
  end.

(** The [while True] loop of [_execute_internal], with a bound on the
    number of iterations; [None] when the bound is reached.  A packet of
    another request is skipped ([continue]); after the first packet of
    this request each of the three exits is a [break].  The pause
    [asyncio.sleep(0.1)] changes nothing here. *)
Fixpoint _collect_fuel (fuel : nat) (rid : Z) (responses : list str)
    (c : RCONClient) (w : World)
  : option (result (list str) * RCONClient * World) :=
  match fuel with
  | O => None
  | S fuel' =>
      match _receive_packet c w with
      | (Raise e, c', w') => Some (Raise e, c', w')
      | (Ok response, c', w') =>
          if negb (request_id response =? rid)
          then _collect_fuel fuel' rid responses c' w'
          else
            let responses := responses ++ [payload response] in
            if has_reader c' && reader_at_eof c'
            then Some (Ok responses, c', w')
            else if negb (has_reader c') || reader_at_eof c'
            then Some (Ok responses, c', w')
            else Some (Ok responses, c', w')
      end
  end.

(** What the reader still holds. *)
Definition rx_pending (c : RCONClient) : nat :=
  match _reader c with
  | Some rx => length rx
  | None => O
  end.

(** The loop itself: every iteration but the last consumes a packet of the
    reader, so [S (rx_pending c)] iterations are enough and the default
    is never used ([_collect_fuel_enough] below). *)
Definition _collect (rid : Z) (responses : list str) : M (list str) :=
  fun c w =>
    match _collect_fuel (S (rx_pending c)) rid responses c w with
    | Some r => r
    | None => (Raise RCONTimeoutError, c, w)
    end.

(** [''.join(responses)] *)
Definition join (parts : list str) : str := concat parts.

(** The head of [_execute_internal]: the check of [is_connected], with
    the reconnection it may start. *)
Definition _execute_precheck (retry : bool) : M unit :=
  fun c w =>
    if negb (is_connected c) then
      if auto_reconnect c && retry then
        (ok <- _reconnect ;;
         if negb ok then raise RCONConnectionError else ret tt) c w
      else (Raise RCONConnectionError, c, w)
    else (Ok tt, c, w).

(** The [try] block of [_execute_internal] for the request [rid]. *)
Definition _execute_try (command : str) (rid : Z) : M str :=
  _send_packet (mkPacket rid SERVERDATA_EXECCOMMAND command) ;;;
  responses <- _collect rid [] ;;
  ret (join responses).

(** The two [except] clauses of [_execute_internal]; [self_call] is the
    recursive call, always made with [retry=False].  An exception of
    another class passes through. *)
Definition _execute_except (self_call : str -> M str) (command : str)
    (retry : bool) (e : exn) : M str :=
  fun c w =>
    match e with
    | RCONConnectionError =>
        let c1 := mark_down c in
        if auto_reconnect c1 && retry then
          (ok <- _reconnect ;;
           if ok then self_call command else raise e) c1 w
        else (Raise e, c1, w)
    | RCONTimeoutError =>
        if auto_reconnect c && retry then
          (ok <- _reconnect ;;
           if ok then self_call command else raise e) (mark_down c) w
        else (Raise e, c, w)
    | _ => (Raise e, c, w)
    end.

(** The body of [_execute_internal]. *)
Definition _execute_internal_body (self_call : str -> M str)
    (command : str) (retry : bool) : M str :=
  _execute_precheck retry ;;;
  rid <- _next_request_id ;;
  try_except (_execute_try command rid)
             (_execute_except self_call command retry).

(** [_execute_internal(command, retry=False)]: with [retry] false the body
    never reaches its recursive call. *)
Definition _execute_internal_once (command : str) : M str :=
  _execute_internal_body (fun _ => raise RCONConnectionError) command false.

(** [RCONClient._execute_internal] *)
Definition _execute_internal (command : str) (retry : bool) : M str :=
  _execute_internal_body _execute_internal_once command retry.

(** [RCONClient.execute] (the lock only serialises callers) *)
Definition execute (command : str) : M str :=
  _execute_internal command true.

(** ** Vocabulary of the statements *)

(** Decoding the very bytes that [encode] returns. *)
Definition decode_encoded (p : RCONPacket) : result RCONPacket :=
  match encode p with
  | Ok data => decode data
  | Raise e => Raise e
  end.

(** Decoding the body of the frame that [encode] returns: what follows the
    four bytes of the size field. *)
Definition decode_encoded_body (p : RCONPacket) : result RCONPacket :=
  match encode p with
  | Ok data => decode (skipn 4 data)
  | Raise e => Raise e
  end.

(** The IDs issued by [n] calls of [_next_request_id] in a row. *)
Fixpoint request_ids (n : nat) (c : RCONClient) (w : World) : list Z :=
  match n with
  | O => []
  | S n' =>
      match _next_request_id c w with
      | (Ok i, c', w') => i :: request_ids n' c' w'
      | (Raise _, _, _) => []
      end
  end.

(** Two IDs issued one after the other: the successor, or the restart at
    the bottom of the range. *)
Definition id_follows (a b : Z) : Prop :=
  b = a + 1 \/ (a = int32_max - 1 /\ b = 0).

Definition count (f : event -> bool) (tr : list event) : nat :=
  length (filter f tr).

Definition is_open (ev : event) : bool :=
  match ev with EvOpen => true | _ => false end.

Definition is_reconnect_sleep (ev : event) : bool :=
  match ev with EvReconnectSleep => true | _ => false end.

Definition is_recv (ev : event) : bool :=
  match ev with EvRecv _ => true | _ => false end.

Definition is_write (ev : event) : bool :=
  match ev with EvWrite _ => true | _ => false end.

Fixpoint bytes_eqb (a b : bytes) : bool :=
  match a, b with
  | [], [] => true
  | x :: a', y :: b' => (x =? y) && bytes_eqb a' b'
  | _, _ => false
  end.

(** The type field of a frame: bytes 8 to 11. *)
Definition frame_type (data : bytes) : bytes := firstn 4 (skipn 8 data).

(** A write of a frame whose type field is [SERVERDATA_EXECCOMMAND]. *)
Definition is_exec_write (ev : event) : bool :=
  match ev with
  | EvWrite data =>
      bytes_eqb (frame_type data) (le_bytes4 SERVERDATA_EXECCOMMAND)
  | _ => false
  end.

(** Everything an event can be but the write of a command frame. *)
Definition not_exec_write (ev : event) : Prop := is_exec_write ev = false.

(** The response that [_authenticate] examines in a run of [connect], when
    the run gets that far. *)
Definition authoritative_response (c : RCONClient) (w : World)
  : option RCONPacket :=
  if _connected c then None
  else
    match pending w with
    | ConnOk rx tx :: rest =>
        let c1 :=
          set_connected (set_writer (set_reader c (Some rx)) (Some tx)) true in
        let w1 := mkWorld rest (trace (emit EvOpen w)) in
        match
          (auth_id <- _next_request_id ;;
           (fun c w =>
              _authenticate_exchange
                (mkPacket auth_id SERVERDATA_AUTH (password c)) c w)) c1 w1
        with
        | (Ok response, _, _) => Some response
        | (Raise _, _, _) => None
        end
    | _ => None
    end.

(** One attempt of a command on a connection that is up: a fresh ID and
    the [try] block, the handlers left out. *)
Definition _execute_attempt (command : str) : M str :=
  rid <- _next_request_id ;;
  _execute_try command rid.

(** The exception an outcome carries, if any. *)
Definition raised {A} (r : result A) : option exn :=
  match r with
  | Ok _ => None
  | Raise e => Some e
  end.

(** The configuration of the client is not touched. *)
Definition keeps_config (c c' : RCONClient) : Prop :=
  password c' = password c
  /\ auto_reconnect c' = auto_reconnect c
  /\ max_reconnect_attempts c' = max_reconnect_attempts c.

(** The connection flags are not touched. *)
Definition keeps_flags (c c' : RCONClient) : Prop :=
  _connected c' = _connected c /\ _authenticated c' = _authenticated c.

(** [w'] continues [w]: its trace is that of [w] followed by events that
    all satisfy [P]. *)
Definition grows (P : event -> Prop) (w w' : World) : Prop :=
  exists delta, trace w' = trace w ++ delta /\ Forall P delta.

(** Events of the transport that carry no command: a received packet, or
    a written frame of another type than [SERVERDATA_EXECCOMMAND]. *)
Definition is_handshake_io (ev : event) : Prop :=
  is_recv ev = true \/ (is_write ev = true /\ is_exec_write ev = false).

(** What one attempt of [command] under the request ID [rid] leaves in the
    trace: nothing, when the frame could not be written; otherwise the one
    write of the command frame, the packets of other requests that were
    skipped and, on success, the packet whose payload is the result. *)
Definition attempt_trace (command : str) (rid : Z) (r : result str)
    (w w' : World) : Prop :=
  (w' = w /\ raised r <> None)
  \/ exists data skipped,
       encode (mkPacket rid SERVERDATA_EXECCOMMAND command) = Ok data
       /\ Forall (fun q => request_id q <> rid) skipped
       /\ match r with
          | Ok s =>
              exists p, request_id p = rid /\ s = payload p
                        /\ trace w' = trace w ++ EvWrite data
                                              :: map EvRecv skipped
                                              ++ [EvRecv p]
          | Raise _ =>
              trace w' = trace w ++ EvWrite data :: map EvRecv skipped
          end.

(** [w'] continues [w] with at most [k] writes of a command frame. *)
Definition exec_bounded (k : nat) (w w' : World) : Prop :=
  exists delta,
    trace w' = trace w ++ delta /\ (count is_exec_write delta <= k)%nat.

(** A run from [w] to [w'] ends with an answered request for [command]:
    the write of its frame under some ID, then packets of other IDs, then
    a packet of that ID whose payload is [s]. *)
Definition answered (command : str) (s : str) (w w' : World) : Prop :=
  exists before rid data skipped p,
    trace w' = trace w ++ before ++ EvWrite data :: map EvRecv skipped
                                                ++ [EvRecv p]
    /\ encode (mkPacket rid SERVERDATA_EXECCOMMAND command) = Ok data
    /\ Forall (fun q => request_id q <> rid) skipped
    /\ request_id p = rid
    /\ s = payload p.

(** ** Scenarios *)

(** The Python string with the characters of an ASCII literal. *)
Definition py (s : string) : str :=
  map (fun a => Z.of_N (N_of_ascii a)) (list_ascii_of_string s).

(** The bytes of a packet as the reader will see them. *)
Definition frame_of (p : RCONPacket) : list rx_item :=
  match encode p with
  | Ok data => map RxByte data
  | Raise _ => []
  end.

Definition run_client {A} (out : result A * RCONClient * World) : RCONClient :=
  snd (fst out).

Definition run_world {A} (out : result A * RCONClient * World) : World :=
  snd out.

Definition run_result {A} (out : result A * RCONClient * World) : result A :=
  fst (fst out).

Definition players_line : str :=
  py "There are 3 of a max of 20 players online: Alice, Bob, Carol".

(** A server that accepts the password and answers [list], after a packet
    left over from another request. *)
Definition client_fresh : RCONClient := init (py "secret123") true 3.

Definition world_accepting : World :=
  mkWorld
    [ConnOk (frame_of (mkPacket 1 SERVERDATA_AUTH_RESPONSE [])
             ++ frame_of (mkPacket 7 SERVERDATA_RESPONSE_VALUE (py "stale"))
             ++ frame_of (mkPacket 2 SERVERDATA_RESPONSE_VALUE players_line))
            []]
    [].

(** A server that closes the stream while the first command waits for its
    response, and is back for the next connection. *)
Definition world_dropping : World :=
  mkWorld
    [ConnOk (frame_of (mkPacket 1 SERVERDATA_AUTH_RESPONSE []) ++ [RxEof]) [];
     ConnOk (frame_of (mkPacket 3 SERVERDATA_AUTH_RESPONSE [])
             ++ frame_of (mkPacket 4 SERVERDATA_RESPONSE_VALUE players_line))
            []]
    [].

(** A server that goes silent after the handshake, and answers on the next
    connection. *)
Definition world_stalling : World :=
  mkWorld
    [ConnOk (frame_of (mkPacket 1 SERVERDATA_AUTH_RESPONSE [])) [];
     ConnOk (frame_of (mkPacket 3 SERVERDATA_AUTH_RESPONSE [])
             ++ frame_of (mkPacket 4 SERVERDATA_RESPONSE_VALUE players_line))
            []]
    [].

(** A server that rejects the password, twice, the first time after the
    empty packet that may precede the response. *)
Definition world_rejecting : World :=
  mkWorld
    [ConnOk (frame_of (mkPacket 1 SERVERDATA_RESPONSE_VALUE [])
             ++ frame_of (mkPacket (-1) SERVERDATA_AUTH_RESPONSE [])) [];
     ConnOk (frame_of (mkPacket (-1) SERVERDATA_AUTH_RESPONSE [])) []]
    [].

(** A server whose first packet of the handshake is a [ResponseValue]
    packet that is not empty and carries the ID of the [Auth] packet, and
    whose second packet rejects the password. *)
Definition world_chatty : World :=
  mkWorld
    [ConnOk (frame_of (mkPacket 1 SERVERDATA_RESPONSE_VALUE (py "hello"))
             ++ frame_of (mkPacket (-1) SERVERDATA_AUTH_RESPONSE [])) []]
    [].

(** The same client with auto-reconnect disabled. *)
Definition client_no_reconnect : RCONClient := init (py "secret123") false 3.

(** A server that accepts the password and is never heard of again: it
    answers nothing, and refuses every later connection. *)
Definition world_vanishing : World :=
  mkWorld [ConnOk (frame_of (mkPacket 1 SERVERDATA_AUTH_RESPONSE [])) []] [].

(** A server that stays silent from the start. *)
Definition world_silent : World := mkWorld [ConnOk [] []] [].

(** A server that accepts the password and then announces a frame of 5000
    bytes. *)
Definition world_oversized : World :=
  mkWorld
    [ConnOk (frame_of (mkPacket 1 SERVERDATA_AUTH_RESPONSE [])
             ++ map RxByte (le_bytes4 5000)) []]
    [].

(** ** Strings: the [str] methods that the code uses *)

(** [ch.isspace()] for one character: the white space of Unicode. *)
Definition py_isspace (c : Z) : bool :=
  ((9 <=? c) && (c <=? 13)) || ((28 <=? c) && (c <=? 32))
  || (c =? 133) || (c =? 160) || (c =? 5760)
  || ((8192 <=? c) && (c <=? 8202))
  || (c =? 8232) || (c =? 8233) || (c =? 8239) || (c =? 8287)
  || (c =? 12288).

Fixpoint lstrip (s : str) : str :=
  match s with
  | [] => []
  | c :: s' => if py_isspace c then lstrip s' else s
  end.

Definition rstrip (s : str) : str := rev (lstrip (rev s)).

(** [s.strip()] *)
Definition strip (s : str) : str := rstrip (lstrip s).

(** [not s], for a string. *)
Definition str_is_empty (s : str) : bool :=
  match s with
  | [] => true
  | _ :: _ => false
  end.

(** [ch in s], for a one-character string [ch]. *)
Definition str_has_char (ch : Z) (s : str) : bool := existsb (Z.eqb ch) s.

Fixpoint str_startswith (p s : str) : bool :=
  match p, s with
  | [], _ => true
  | _ :: _, [] => false
  | a :: p', b :: s' => (a =? b) && str_startswith p' s'
  end.

(** [sub in s] *)
Fixpoint str_contains (sub s : str) : bool :=
  str_startswith sub s
  || match s with
     | [] => false
     | _ :: s' => str_contains sub s'
     end.

(** [s.replace(old, new)], for a one-character string [old]. *)
Definition str_replace_char (old : Z) (new : str) (s : str) : str :=
  flat_map (fun c => if c =? old then new else [c]) s.

(** [s.split(sep)], for a one-character string [sep]: one piece more than
    there are separators. *)
Fixpoint str_split_char (sep : Z) (s : str) : list str :=
  match s with
  | [] => [[]]
  | c :: s' =>
      if c =? sep then [] :: str_split_char sep s'
      else
        match str_split_char sep s' with
        | piece :: pieces => (c :: piece) :: pieces
        | [] => [[c]]
        end
  end.

(** [pieces[-1]], for a list that is not empty ([default] otherwise). *)
Definition list_last (pieces : list str) : str := last pieces [].

(** [s[:n]]: a negative [n] counts from the end. *)
Definition str_slice_to (n : Z) (s : str) : str :=
  if 0 <=? n then firstn (Z.to_nat n) s
  else firstn (length s - Z.to_nat (- n)) s.

(** ** The validators of [utils/validators.py] *)

(** A pattern of the [re] module, as far as the module uses them: a
    sequence of character classes with bounds on their repetition, and the
    anchor [$]. *)
Inductive re_item : Type :=
| ReRepeat (class : Z -> bool) (lo hi : nat)
| ReEnd.

(** [item{lo,hi}] followed by [rest]: some number of characters of the
    class between [lo] and [hi], then what [rest] accepts. *)
Fixpoint re_repeat (class : Z -> bool) (rest : str -> bool) (lo hi : nat)
    (s : str) : bool :=
  (match lo with O => rest s | S _ => false end)
  || match hi, s with
     | S hi', c :: s' => class c && re_repeat class rest (pred lo) hi' s'
     | _, _ => false
     end.

(** [$]: the end of the string, or just before a newline that ends it. *)
Definition re_at_end (s : str) : bool :=
  match s with
  | [] => true
  | [c] => c =? 10
  | _ => false
  end.

(** [pattern.match(s)]: the pattern matches at the start of [s]. *)
Fixpoint re_match (pattern : list re_item) (s : str) : bool :=
  match pattern with
  | [] => true
  | ReRepeat class lo hi :: rest => re_repeat class (re_match rest) lo hi s
  | ReEnd :: rest => re_at_end s && re_match rest s
  end.

(** The class [[a-zA-Z0-9_]]. *)
Definition username_char (c : Z) : bool :=
  ((97 <=? c) && (c <=? 122)) || ((65 <=? c) && (c <=? 90))
  || ((48 <=? c) && (c <=? 57)) || (c =? 95).

(** [re.compile(r'^[a-zA-Z0-9_]{3,16}$')]; under [match] the anchor [^]
    adds nothing. *)
Definition MINECRAFT_USERNAME_PATTERN : list re_item :=
  [ReRepeat username_char 3 16; ReEnd].

(** [validate_minecraft_username] *)
Definition validate_minecraft_username (username : str) : bool :=
  re_match MINECRAFT_USERNAME_PATTERN username.

(** [[';', '&', '|', '$', '`', '\n', '\r', '\x00']] *)
Definition FORBIDDEN_CHARS : list Z := [59; 38; 124; 36; 96; 10; 13; 0].

(** The class [[\x00-\x1f\x7f]]. *)
Definition control_char (c : Z) : bool :=
  ((0 <=? c) && (c <=? 31)) || (c =? 127).

(** [re.sub(class, '', s)], for a class of single characters. *)
Definition re_sub_class_empty (class : Z -> bool) (s : str) : str :=
  filter (fun c => negb (class c)) s.

(** [sanitize_rcon_input] *)
Definition sanitize_rcon_input (value : str) (max_length : Z) : str :=
  let value :=
    fold_left (fun v char => str_replace_char char [] v) FORBIDDEN_CHARS value in
  let value := re_sub_class_empty control_char value in
  strip (str_slice_to max_length value).

(** The three messages of [validate_rcon_command]. *)
Inductive command_error : Type :=
| EmptyCommand                 (* "La commande ne peut pas etre vide" *)
| ForbiddenCharacter (ch : Z)  (* "Caractere interdit detecte: ..." *)
| CommandTooLong.              (* "Commande trop longue (max 1000 caracteres)" *)

(** [validate_rcon_command] *)
Definition validate_rcon_command (command : str)
  : bool * option command_error :=
  if str_is_empty command || str_is_empty (strip command)
  then (false, Some EmptyCommand)
  else
    let command := strip command in
    match find (fun char => str_has_char char command) FORBIDDEN_CHARS with
    | Some char => (false, Some (ForbiddenCharacter char))
    | None =>
        if 1000 <? Z.of_nat (length command)
        then (false, Some CommandTooLong)
        else (true, None)
    end.

(** ** The convenience methods of [RCONClient] *)

(** [text.replace('"', '\\"')] *)
Definition escape_quotes (text : str) : str := str_replace_char 34 [92; 34] text.

(** [RCONClient.say] *)
Definition say (message : str) : M str :=
  let safe_message := escape_quotes message in
  execute (py "say " ++ safe_message).

(** [RCONClient.tell] *)
Definition tell (player message : str) : M str :=
  let safe_message := escape_quotes message in
  execute (py "tell " ++ player ++ py " " ++ safe_message).

(** [RCONClient.kick]; [None] is the default reason. *)
Definition kick (player : str) (reason : option str) : M str :=
  let reason :=
    match reason with
    | Some r => r
    | None => py "Kicked by administrator"
    end in
  let safe_reason := escape_quotes reason in
  execute (py "kick " ++ player ++ py " " ++ safe_reason).

(** [RCONClient.ban]; [None] is the default reason. *)
Definition ban (player : str) (reason : option str) : M str :=
  let reason :=
    match reason with
    | Some r => r
    | None => py "Banned by administrator"
    end in
  let safe_reason := escape_quotes reason in
  execute (py "ban " ++ player ++ py " " ++ safe_reason).

(** [RCONClient.ban_ip]; [None] is the default reason. *)
Definition ban_ip (ip_or_player : str) (reason : option str) : M str :=
  let reason :=
    match reason with
    | Some r => r
    | None => py "Banned by administrator"
    end in
  let safe_reason := escape_quotes reason in
  execute (py "ban-ip " ++ ip_or_player ++ py " " ++ safe_reason).

(** The part of [RCONClient.whitelist_list] that reads the response;
    [lower] is [str.lower]. *)
Definition whitelist_names (lower : str -> str) (response : str) : list str :=
  if str_contains (py "no whitelisted") (lower response) then []
  else if str_has_char 58 response then
    let player_list := strip (list_last (str_split_char 58 response)) in
    flat_map
      (fun p => if str_is_empty (strip p) then [] else [strip p])
      (str_split_char 44 player_list)
  else [].

(** [RCONClient.whitelist_list] *)
Definition whitelist_list (lower : str -> str) : M (list str) :=
  response <- execute (py "whitelist list") ;;
  ret (whitelist_names lower response).

(** [create_rcon_client], around the block [body] of the [async with]
    statement: the [finally] clause runs whether [connect] or the block
    raises or not, and the exception then goes on. *)
Definition create_rcon_client {A} (body : M A) : M A :=
  fun client w =>
    match (connect ;;; body) client w with
    | (r, c1, w1) =>
        match disconnect c1 w1 with
        | (Ok _, c2, w2) => (r, c2, w2)
        | (Raise e, c2, w2) => (Raise e, c2, w2)
        end
    end.

(** ** The bot: [core/bot.py] *)

(** [MinecraftBot._setup_rcon]: the value of [self.rcon] afterwards.  An
    empty [settings.RCON_PASSWORD] disables RCON; any exception of the
    construction or of [connect] is logged and [self.rcon] is [None]. *)
Definition _setup_rcon (RCON_PASSWORD : str) (w : World)
  : option RCONClient * World :=
  if str_is_empty RCON_PASSWORD then (None, w)
  else
    match connect (init RCON_PASSWORD true 3) w with
    | (Ok _, c, w') => (Some c, w')
    | (Raise _, _, w') => (None, w')
    end.

(** [MinecraftBot.execute_rcon]: the result, and [self.rcon] afterwards
    (the same object, in its new state). *)
Definition execute_rcon (rcon : option RCONClient) (command : str)
    (w : World) : option str * option RCONClient * World :=
  match rcon with
  | None => (None, None, w)
  | Some c =>
      match execute command c w with
      | (Ok result, c', w') => (Some result, Some c', w')
      | (Raise _, c', w') => (None, Some c', w')
      end
  end.

(** ** Vocabulary of the further statements *)

(** Invariant of the client object: a connected client has its transport,
    an authenticated client is connected, reader and writer come and go
    together, and the counter of request IDs stays in its range. *)
Definition client_inv (c : RCONClient) : Prop :=
  (_connected c = true -> _writer c <> None)
  /\ (_authenticated c = true -> _connected c = true)
  /\ (_writer c = None <-> _reader c = None)
  /\ 0 <= _request_id c < 2147483647.

(** What [execute] may write for the password [pw] and the command
    [command]: the frame of an [Auth] packet that carries the password, or
    the frame of an [ExecCommand] packet that carries the command, under a
    request ID of the counter's range. *)
Definition write_allowed (pw command : str) (ev : event) : Prop :=
  match ev with
  | EvWrite data =>
      exists rid,
        0 <= rid < 2147483647
        /\ (encode (mkPacket rid SERVERDATA_AUTH pw) = Ok data
            \/ encode (mkPacket rid SERVERDATA_EXECCOMMAND command) = Ok data)
  | _ => True
  end.

(** The inverse of the escaping: [s.replace('\\"', '"')]. *)
Fixpoint unescape_quotes (s : str) : str :=
  match s with
  | [] => []
  | c :: s' =>
      match s' with
      | d :: s'' =>
          if (c =? 92) && (d =? 34) then 34 :: unescape_quotes s''
          else c :: unescape_quotes s'
      | [] => [c]
      end
  end.

(** [', '.join(names)] *)
Fixpoint join_comma (names : list str) : str :=
  match names with
  | [] => []
  | [n] => n
  | n :: rest => n ++ py ", " ++ join_comma rest
  end.

(** A name as the server lists it: not empty, without white space at
    either end, without comma or colon. *)
Definition clean_name (n : str) : Prop :=
  n <> [] /\ strip n = n /\ str_has_char 44 n = false
  /\ str_has_char 58 n = false.

(** A string that does not start with white space. *)
Definition head_nonspace (s : str) : Prop :=
  match s with
  | [] => True
  | c :: _ => py_isspace c = false
  end.

(** A character of [FORBIDDEN_CHARS]. *)
Definition forbidden_char (c : Z) : bool := existsb (Z.eqb c) FORBIDDEN_CHARS.

(** Every double quote of [s] is preceded by a backslash. *)
Fixpoint quotes_follow_backslash (prev : Z) (s : str) : bool :=
  match s with
  | [] => true
  | c :: s' =>
      (negb (c =? 34) || (prev =? 92)) && quotes_follow_backslash c s'
  end.

(** A connection attempt that fails: a timeout or a refusal. *)
Definition refusing (script : conn_script) : bool :=
  match script with
  | ConnOk _ _ => false
  | ConnTimeout | ConnRefused => true
  end.

Definition is_close (ev : event) : bool :=
  match ev with EvClose => true | _ => false end.

(** A writer whose next [drain] does not fail. *)
Definition drain_ready (tx : list drain_outcome) : bool :=
  match tx with
  | [] | DrainOk :: _ => true
  | _ => false
  end.

(** What a method leaves behind: the invariant, a connection that is up
    when the method returns, and one that is down when it raises
    [RCONConnectionError]. *)
Definition outcome_state {A} (r : result A) (c' : RCONClient) : Prop :=
  client_inv c'
  /\ (raised r = None -> is_connected c' = true)
  /\ (raised r = Some RCONConnectionError -> is_connected c' = false).

(** [w'] continues [w] with at most [k] connection attempts, as many
    pauses before an attempt and as many closed transports. *)
Definition conn_bounded (k : nat) (w w' : World) : Prop :=
  exists delta,
    trace w' = trace w ++ delta
    /\ (count is_open delta <= k)%nat
    /\ (count is_reconnect_sleep delta <= k)%nat
    /\ (count is_close delta <= k)%nat.

(** Events of the transport: a written frame or a received packet. *)
Definition is_io (ev : event) : Prop :=
  is_open ev = false /\ is_reconnect_sleep ev = false /\ is_close ev = false.

(** * Properties *)

(** ** The codec *)

Ltac splits := repeat match goal with |- _ /\ _ => split end.

Lemma Ok_inj {A} (a b : A) : Ok a = Ok b -> a = b.
Proof. congruence. Qed.

Lemma Some_inj {A} (a b : A) : Some a = Some b -> a = b.
Proof. congruence. Qed.

Lemma in_int32_bounds (v : Z) :
  in_int32 v = true <-> -2147483648 <= v <= 2147483647.
Proof.
  unfold in_int32, int32_min, int32_max.
  rewrite andb_true_iff, !Z.leb_le. tauto.
Qed.

Lemma le_signed4_le_bytes4 (v : Z) :
  in_int32 v = true ->
  le_signed4 (v mod 256) ((v / 256) mod 256) ((v / 65536) mod 256)
             ((v / 16777216) mod 256) = v.
Proof.
  intros Hv. apply in_int32_bounds in Hv.
  assert (E : v mod 256 + 256 * ((v / 256) mod 256)
              + 65536 * ((v / 65536) mod 256)
              + 16777216 * ((v / 16777216) mod 256)
              = v mod 4294967296).
  { replace 65536 with (256 * 256) by reflexivity.
    replace 16777216 with (256 * 256 * 256) by reflexivity.
    replace 4294967296 with (256 * (256 * (256 * 256))) by reflexivity.
    rewrite <- !Z.div_div by lia.
    rewrite !Z.rem_mul_r by lia. ring. }
  unfold le_signed4. cbv zeta. rewrite E.
  destruct (Z.leb_spec 2147483648 (v mod 4294967296)) as [H | H].
  - assert (v < 0).
    { destruct (Z_lt_le_dec v 0); [assumption|].
      rewrite Z.mod_small in H by lia. lia. }
    replace v with ((v + 4294967296) + (-1) * 4294967296) at 1 by ring.
    rewrite Z.mod_add by lia. rewrite Z.mod_small by lia. ring.
  - assert (0 <= v).
    { destruct (Z_lt_le_dec v 0); [|assumption].
      replace v with ((v + 4294967296) + (-1) * 4294967296) in H by ring.
      rewrite Z.mod_add in H by lia. rewrite Z.mod_small in H by lia. lia. }
    apply Z.mod_small. lia.
Qed.

Lemma struct_unpack_pack_ii (a b : Z) (data : bytes) :
  struct_pack_ii a b = Ok data -> struct_unpack_ii data = Ok (a, b).
Proof.
  unfold struct_pack_ii.
  destruct (in_int32 a) eqn:Ha; [|discriminate].
  destruct (in_int32 b) eqn:Hb; [|discriminate].
  cbn [andb]. intros H. apply Ok_inj in H. subst data.
  cbn [le_bytes4 app struct_unpack_ii].
  now rewrite !le_signed4_le_bytes4.
Qed.

Lemma struct_pack_ii_length (a b : Z) (data : bytes) :
  struct_pack_ii a b = Ok data -> length data = 8%nat.
Proof.
  unfold struct_pack_ii.
  destruct (in_int32 a && in_int32 b); [|discriminate].
  intros H. apply Ok_inj in H. now subst data.
Qed.

(** The decoder on a well-formed sequence of one to four bytes. *)
Lemma decode_utf8_1 (b0 : byte) (r : bytes) :
  b0 < 128 ->
  bytes_decode_utf8_replace (b0 :: r) = b0 :: bytes_decode_utf8_replace r.
Proof.
  intros H. cbn [bytes_decode_utf8_replace].
  apply Z.ltb_lt in H. now rewrite H.
Qed.

Lemma ltb_ge (a b : Z) : b <= a -> (a <? b) = false.
Proof. intros H. now apply Z.ltb_ge. Qed.

Lemma is_continuation_true (b : byte) :
  128 <= b < 192 -> is_continuation b = true.
Proof.
  intros [H1 H2]. unfold is_continuation.
  apply andb_true_iff. split; [now apply Z.leb_le | now apply Z.ltb_lt].
Qed.

Lemma decode_utf8_2 (b0 b1 : byte) (r : bytes) :
  194 <= b0 < 224 -> 128 <= b1 < 192 ->
  bytes_decode_utf8_replace (b0 :: b1 :: r)
  = ((b0 - 192) * 64 + (b1 - 128)) :: bytes_decode_utf8_replace r.
Proof.
  intros H0 H1. cbn [bytes_decode_utf8_replace].
  rewrite (ltb_ge b0 128), (ltb_ge b0 194) by lia.
  rewrite (proj2 (Z.ltb_lt b0 224)) by lia.
  now rewrite is_continuation_true.
Qed.

Lemma decode_utf8_3 (b0 b1 b2 : byte) (r : bytes) :
  224 <= b0 < 240 -> 128 <= b1 < 192 -> 128 <= b2 < 192 ->
  (b0 = 224 -> 160 <= b1) -> (b0 = 237 -> b1 < 160) ->
  bytes_decode_utf8_replace (b0 :: b1 :: b2 :: r)
  = ((b0 - 224) * 4096 + (b1 - 128) * 64 + (b2 - 128))
      :: bytes_decode_utf8_replace r.
Proof.
  intros H0 H1 H2 Hlow Hsur. cbn [bytes_decode_utf8_replace].
  rewrite (ltb_ge b0 128), (ltb_ge b0 194), (ltb_ge b0 224) by lia.
  rewrite (proj2 (Z.ltb_lt b0 240)) by lia.
  rewrite !is_continuation_true by assumption. cbn [negb orb].
  assert (E : (if b1 <? 160 then b0 =? 224 else b0 =? 237) = false).
  { destruct (Z.ltb_spec b1 160).
    - apply Z.eqb_neq. lia.
    - apply Z.eqb_neq. lia. }
  now rewrite E.
Qed.

Lemma decode_utf8_4 (b0 b1 b2 b3 : byte) (r : bytes) :
  240 <= b0 < 245 -> 128 <= b1 < 192 -> 128 <= b2 < 192 -> 128 <= b3 < 192 ->
  (b0 = 240 -> 144 <= b1) -> (b0 = 244 -> b1 < 144) ->
  bytes_decode_utf8_replace (b0 :: b1 :: b2 :: b3 :: r)
  = ((b0 - 240) * 262144 + (b1 - 128) * 4096 + (b2 - 128) * 64 + (b3 - 128))
      :: bytes_decode_utf8_replace r.
Proof.
  intros H0 H1 H2 H3 Hlow Hhigh. cbn [bytes_decode_utf8_replace].
  rewrite (ltb_ge b0 128), (ltb_ge b0 194), (ltb_ge b0 224), (ltb_ge b0 240)
    by lia.
  rewrite (proj2 (Z.ltb_lt b0 245)) by lia.
  rewrite !is_continuation_true by assumption. cbn [negb orb].
  assert (E : (if b1 <? 144 then b0 =? 240 else b0 =? 244) = false).
  { destruct (Z.ltb_spec b1 144).
    - apply Z.eqb_neq. lia.
    - apply Z.eqb_neq. lia. }
  now rewrite E.
Qed.

(** One code point survives the UTF-8 codec, whatever follows it. *)
Lemma utf8_cp_roundtrip_match (c : Z) (rest : bytes) :
  match utf8_encode_cp c with
  | Some bs =>
      bytes_decode_utf8_replace (bs ++ rest)
      = c :: bytes_decode_utf8_replace rest
  | None => True
  end.
Proof.
  unfold utf8_encode_cp, is_scalar.
  destruct (Z.leb_spec 0 c) as [H0 | H0]; [|exact I].
  destruct (Z.ltb_spec c 1114112) as [Hmax | Hmax]; [|exact I].
  cbn [andb].
  destruct ((55296 <=? c) && (c <=? 57343)) eqn:Hsur; [exact I|].
  cbn [negb].
  apply andb_false_iff in Hsur.
  assert (Hs : c < 55296 \/ 57343 < c).
  { destruct Hsur as [H | H]; [left | right]; apply Z.leb_gt in H; assumption. }
  clear Hsur.
  pose proof (Z.div_mod c 64 ltac:(lia)) as Hdm.
  pose proof (Z.mod_pos_bound c 64 ltac:(lia)) as Hr.
  pose proof (Z.div_mod (c / 64) 64 ltac:(lia)) as Hdm2.
  pose proof (Z.mod_pos_bound (c / 64) 64 ltac:(lia)) as Hr2.
  pose proof (Z.div_mod (c / 64 / 64) 64 ltac:(lia)) as Hdm3.
  pose proof (Z.mod_pos_bound (c / 64 / 64) 64 ltac:(lia)) as Hr3.
  replace (c / 262144) with (c / 64 / 64 / 64)
    by (rewrite !Z.div_div by lia; reflexivity).
  replace (c / 4096) with (c / 64 / 64)
    by (rewrite Z.div_div by lia; reflexivity).
  destruct (Z.ltb_spec c 128) as [H1 | H1].
  { now apply decode_utf8_1. }
  destruct (Z.ltb_spec c 2048) as [H2 | H2].
  { cbn [app]. rewrite decode_utf8_2 by lia. f_equal. lia. }
  destruct (Z.ltb_spec c 65536) as [H3 | H3].
  { cbn [app]. rewrite decode_utf8_3 by lia. f_equal. lia. }
  cbn [app]. rewrite decode_utf8_4 by lia. f_equal. lia.
Qed.

Lemma utf8_cp_roundtrip (c : Z) (bs rest : bytes) :
  utf8_encode_cp c = Some bs ->
  bytes_decode_utf8_replace (bs ++ rest)
  = c :: bytes_decode_utf8_replace rest.
Proof.
  intros E. pose proof (utf8_cp_roundtrip_match c rest) as H.
  now rewrite E in H.
Qed.

(** Text survives the UTF-8 codec. *)
Lemma utf8_roundtrip (s : str) (bs rest : bytes) :
  str_encode_utf8 s = Ok bs ->
  bytes_decode_utf8_replace (bs ++ rest) = s ++ bytes_decode_utf8_replace rest.
Proof.
  revert bs. induction s as [| c s IH]; intros bs H; cbn [str_encode_utf8] in H.
  - apply Ok_inj in H. now subst bs.
  - destruct (utf8_encode_cp c) as [cb |] eqn:Ec; [|discriminate].
    destruct (str_encode_utf8 s) as [tl | e]; [|discriminate].
    apply Ok_inj in H. subst bs. rewrite <- app_assoc.
    rewrite (utf8_cp_roundtrip _ _ _ Ec). cbn [app]. f_equal.
    now apply IH.
Qed.

Lemma str_encode_utf8_scalar (s : str) :
  Forall (fun c => is_scalar c = true) s ->
  exists bs, str_encode_utf8 s = Ok bs.
Proof.
  induction 1 as [| c s Hc _ [bs IH]]; cbn [str_encode_utf8].
  - now exists [].
  - rewrite IH. unfold utf8_encode_cp. rewrite Hc. cbn [negb].
    destruct (c <? 128); [eexists; reflexivity|].
    destruct (c <? 2048); [eexists; reflexivity|].
    destruct (c <? 65536); eexists; reflexivity.
Qed.

(** The shape of an encoded frame. *)
Lemma encode_shape (p : RCONPacket) (data : bytes) :
  encode p = Ok data ->
  exists utf8,
    str_encode_utf8 (payload p) = Ok utf8 /\
    in_int32 (request_id p) = true /\
    in_int32 (packet_type p) = true /\
    Z.of_nat (length utf8) + 10 <= int32_max /\
    data = le_bytes4 (Z.of_nat (length utf8) + 10)
           ++ le_bytes4 (request_id p) ++ le_bytes4 (packet_type p)
           ++ utf8 ++ [0; 0].
Proof.
  unfold encode.
  destruct (str_encode_utf8 (payload p)) as [utf8 | e]; [|discriminate].
  unfold struct_pack_ii.
  destruct (in_int32 (request_id p)); [|discriminate].
  destruct (in_int32 (packet_type p)); [|discriminate].
  cbn [andb]. unfold struct_pack_i.
  assert (L : Z.of_nat
                (length ((le_bytes4 (request_id p) ++ le_bytes4 (packet_type p))
                         ++ utf8 ++ [0; 0]))
              = Z.of_nat (length utf8) + 10).
  { rewrite !length_app. cbn [length le_bytes4]. lia. }
  rewrite L.
  destruct (in_int32 (Z.of_nat (length utf8) + 10)) eqn:Hs; [|discriminate].
  intros H. apply Ok_inj in H. subst data. exists utf8.
  splits; try reflexivity.
  apply in_int32_bounds in Hs. unfold int32_max. lia.
Qed.

Lemma encode_ok (p : RCONPacket) (utf8 : bytes) :
  str_encode_utf8 (payload p) = Ok utf8 ->
  in_int32 (request_id p) = true ->
  in_int32 (packet_type p) = true ->
  Z.of_nat (length utf8) + 10 <= int32_max ->
  encode p = Ok (le_bytes4 (Z.of_nat (length utf8) + 10)
                 ++ le_bytes4 (request_id p) ++ le_bytes4 (packet_type p)
                 ++ utf8 ++ [0; 0]).
Proof.
  intros Hu Hr Ht Hs. unfold encode. rewrite Hu.
  unfold struct_pack_ii. rewrite Hr, Ht. cbn [andb].
  assert (E : Z.of_nat
                (length ((le_bytes4 (request_id p) ++ le_bytes4 (packet_type p))
                         ++ utf8 ++ [0; 0]))
              = Z.of_nat (length utf8) + 10).
  { rewrite !length_app. cbn [length le_bytes4]. lia. }
  rewrite E. unfold struct_pack_i.
  assert (Hin : in_int32 (Z.of_nat (length utf8) + 10) = true).
  { apply in_int32_bounds. unfold int32_max in Hs. lia. }
  rewrite Hin. now rewrite <- !app_assoc.
Qed.

(** Decoding the body of a frame gives back the packet. *)
Lemma decode_frame_body (rid ptype : Z) (utf8 : bytes) (text : str) :
  in_int32 rid = true -> in_int32 ptype = true ->
  str_encode_utf8 text = Ok utf8 ->
  decode (le_bytes4 rid ++ le_bytes4 ptype ++ utf8 ++ [0; 0])
  = Ok (mkPacket rid ptype text).
Proof.
  intros Hr Ht Hu. unfold decode.
  assert (L : length (le_bytes4 rid ++ le_bytes4 ptype ++ utf8 ++ [0; 0])
              = (length utf8 + 10)%nat).
  { rewrite !length_app. cbn [length le_bytes4]. lia. }
  rewrite L.
  destruct (Z.ltb_spec (Z.of_nat (length utf8 + 10)) 10) as [H | _]; [lia|].
  replace (length utf8 + 10 - 10)%nat with (length utf8) by lia.
  cbn [le_bytes4 app firstn skipn struct_unpack_ii].
  rewrite !le_signed4_le_bytes4 by assumption.
  rewrite firstn_app, firstn_all, Nat.sub_diag. cbn [firstn].
  rewrite app_nil_r.
  pose proof (utf8_roundtrip text utf8 [] Hu) as R.
  rewrite !app_nil_r in R. cbn [bytes_decode_utf8_replace] in R.
  rewrite ?app_nil_r in R. now rewrite R.
Qed.

(** What [encode] returns is made of bytes. *)
Lemma le_bytes4_bytes (v : Z) : Forall is_byte (le_bytes4 v).
Proof.
  unfold le_bytes4, is_byte.
  repeat constructor; apply Z.mod_pos_bound; lia.
Qed.

Lemma utf8_encode_cp_bytes (c : Z) (bs : bytes) :
  utf8_encode_cp c = Some bs -> Forall is_byte bs.
Proof.
  unfold utf8_encode_cp, is_scalar, is_byte.
  destruct (Z.leb_spec 0 c) as [H0 | H0]; [| discriminate].
  destruct (Z.ltb_spec c 1114112) as [Hmax | Hmax]; [| discriminate].
  cbn [andb]. destruct (negb _); [discriminate |].
  pose proof (Z.mod_pos_bound c 64 ltac:(lia)).
  pose proof (Z.mod_pos_bound (c / 64) 64 ltac:(lia)).
  pose proof (Z.mod_pos_bound (c / 4096) 64 ltac:(lia)).
  pose proof (Z.div_pos c 64 H0 ltac:(lia)).
  pose proof (Z.div_pos c 4096 H0 ltac:(lia)).
  pose proof (Z.div_pos c 262144 H0 ltac:(lia)).
  destruct (Z.ltb_spec c 128) as [R1 | R1].
  { intros E. apply Some_inj in E. subst bs. repeat constructor; lia. }
  destruct (Z.ltb_spec c 2048) as [R2 | R2].
  { intros E. apply Some_inj in E. subst bs.
    assert (c / 64 < 32) by (apply Z.div_lt_upper_bound; lia).
    repeat constructor; lia. }
  destruct (Z.ltb_spec c 65536) as [R3 | R3].
  { intros E. apply Some_inj in E. subst bs.
    assert (c / 4096 < 16) by (apply Z.div_lt_upper_bound; lia).
    repeat constructor; lia. }
  intros E. apply Some_inj in E. subst bs.
  assert (c / 262144 < 5) by (apply Z.div_lt_upper_bound; lia).
  repeat constructor; lia.
Qed.

Lemma str_encode_utf8_bytes (s : str) (bs : bytes) :
  str_encode_utf8 s = Ok bs -> Forall is_byte bs.
Proof.
  revert bs. induction s as [| ch s IH]; intros bs H; cbn [str_encode_utf8] in H.
  - apply Ok_inj in H. subst bs. constructor.
  - destruct (utf8_encode_cp ch) as [cb |] eqn:Ec; [| discriminate].
    destruct (str_encode_utf8 s) as [tl | e]; [| discriminate].
    apply Ok_inj in H. subst bs. apply Forall_app. split.
    + eapply utf8_encode_cp_bytes; eassumption.
    + now apply IH.
Qed.

Lemma encode_bytes (p : RCONPacket) (data : bytes) :
  encode p = Ok data -> Forall is_byte data.
Proof.
  intros H. destruct (encode_shape _ _ H) as (utf8 & Hu & _ & _ & _ & ->).
  repeat (apply Forall_app; split); try apply le_bytes4_bytes.
  - eapply str_encode_utf8_bytes; eassumption.
  - repeat constructor; unfold is_byte; lia.
Qed.

Lemma readexactly_bytes (bs : bytes) (rest : list rx_item) :
  readexactly (length bs) (map RxByte bs ++ rest) = (RdOk bs, rest).
Proof.
  induction bs as [| b bs IH]; cbn [length map app readexactly].
  - reflexivity.
  - now rewrite IH.
Qed.

Lemma struct_unpack_pack_i (v : Z) :
  in_int32 v = true -> struct_unpack_i (le_bytes4 v) = Ok v.
Proof.
  intros Hv. cbn [le_bytes4 struct_unpack_i].
  now rewrite le_signed4_le_bytes4.
Qed.

(** [_receive_packet] on a stream that opens with a size field outside
    [[10, 4096]]: the frame is refused before its body is read. *)
Lemma receive_rejects_declared_size (c : RCONClient) (w : World)
    (size : Z) (rest : list rx_item) :
  in_int32 size = true ->
  size < 10 \/ 4096 < size ->
  _reader c = Some (map RxByte (le_bytes4 size) ++ rest) ->
  _receive_packet c w = (Raise RCONError, set_reader c (Some rest), w).
Proof.
  intros Hin Hout Hrd. unfold _receive_packet. rewrite Hrd.
  change 4%nat with (length (le_bytes4 size)).
  rewrite readexactly_bytes, struct_unpack_pack_i by assumption.
  assert (E : (size <? 10) || (4096 <? size) = true).
  { apply orb_true_iff. destruct Hout; [left | right]; now apply Z.ltb_lt. }
  now rewrite E.
Qed.

(** [_receive_packet] on a stream that opens with a frame of a size in
    [[10, 4096]]: the packet comes back. *)
Lemma receive_encoded (c : RCONClient) (w : World) (p : RCONPacket)
    (data : bytes) (rest : list rx_item) :
  encode p = Ok data ->
  Z.of_nat (length data) <= 4100 ->
  _reader c = Some (map RxByte data ++ rest) ->
  _receive_packet c w = (Ok p, set_reader c (Some rest), emit (EvRecv p) w).
Proof.
  intros He Hlen Hrd.
  destruct (encode_shape _ _ He) as (utf8 & Hu & Hr & Ht & _ & ->).
  assert (L : length (le_bytes4 (request_id p) ++ le_bytes4 (packet_type p)
                      ++ utf8 ++ [0; 0]) = (length utf8 + 10)%nat).
  { rewrite !length_app. cbn [length le_bytes4]. lia. }
  rewrite length_app in Hlen. rewrite L in Hlen. cbn [length le_bytes4] in Hlen.
  unfold _receive_packet. rewrite Hrd, map_app, <- app_assoc.
  change 4%nat with (length (le_bytes4 (Z.of_nat (length utf8) + 10))).
  rewrite readexactly_bytes.
  rewrite struct_unpack_pack_i by (apply in_int32_bounds; lia).
  destruct (Z.ltb_spec (Z.of_nat (length utf8) + 10) 10); [lia|].
  destruct (Z.ltb_spec 4096 (Z.of_nat (length utf8) + 10)); [lia|].
  cbn [orb].
  replace (Z.to_nat (Z.of_nat (length utf8) + 10))
    with (length (le_bytes4 (request_id p) ++ le_bytes4 (packet_type p)
                  ++ utf8 ++ [0; 0])) by (rewrite L; lia).
  rewrite readexactly_bytes.
  rewrite (decode_frame_body _ _ _ (payload p)) by assumption.
  now destruct p.
Qed.

(** [RCONPacket.decode] alone puts no upper bound on the body. *)
Example decode_accepts_long_body :
  exists p, decode (repeat 0 5000) = Ok p /\ request_id p = 0.
Proof. eexists. split; vm_compute; reflexivity. Qed.

(** C3, counterexample.  [decode] applied to the bytes that [encode]
    returns reads the size field as the request ID: for the packet with
    request ID 1, type 2 and an empty payload it yields request ID 10,
    type 1 and a four-character payload. *)
Lemma decode_encoded_whole_frame_differs :
  decode_encoded (mkPacket 1 SERVERDATA_EXECCOMMAND [])
  = Ok (mkPacket 10 1 [2; 0; 0; 0])
  /\ decode_encoded (mkPacket 1 SERVERDATA_EXECCOMMAND [])
     <> Ok (mkPacket 1 SERVERDATA_EXECCOMMAND []).
Proof.
  split.
  - vm_compute. reflexivity.
  - vm_compute. discriminate.
Qed.

(** C3, as amended.  For every request ID and packet type in the signed
    32-bit range and every payload that is UTF-8 text (no lone surrogate)
    whose frame size fits the size field, [encode] succeeds and [decode]
    applied to the body of the frame — the bytes that follow the four
    bytes of the size field — yields the same request ID, type and
    payload. *)
Theorem decode_encode_body_roundtrip (rid ptype : Z) (text : str)
    (utf8 : bytes) :
  in_int32 rid = true ->
  in_int32 ptype = true ->
  str_encode_utf8 text = Ok utf8 ->
  Z.of_nat (length utf8) + 10 <= int32_max ->
  decode_encoded_body (mkPacket rid ptype text) = Ok (mkPacket rid ptype text).
Proof.
  intros Hr Ht Hu Hs. unfold decode_encoded_body.
  rewrite (encode_ok (mkPacket rid ptype text) utf8) by assumption.
  cbn [request_id packet_type payload].
  change (skipn 4 (le_bytes4 (Z.of_nat (length utf8) + 10) ++ ?l)) with l.
  now apply decode_frame_body.
Qed.

Lemma decode_encode_body_roundtrip_witness :
  decode_encoded_body (mkPacket (-1) SERVERDATA_AUTH_RESPONSE [108; 233; 8364])
  = Ok (mkPacket (-1) SERVERDATA_AUTH_RESPONSE [108; 233; 8364]).
Proof.
  apply (decode_encode_body_roundtrip (-1) SERVERDATA_AUTH_RESPONSE
           [108; 233; 8364] [108; 195; 169; 226; 130; 172]).
  - reflexivity.
  - reflexivity.
  - reflexivity.
  - vm_compute. discriminate.
Defined.

(** C4.  A buffer made of a four-byte size field and a body whose length
    lies outside [[10, 4096]] is refused by [_receive_packet] with the
    base [RCONError]: no packet is returned, no packet is recorded, and
    the body is left unread.  [decode] itself refuses a body of fewer than
    ten bytes with the same error. *)
Theorem receive_rejects_body_outside_range (c : RCONClient) (w : World)
    (body : bytes) (rest : list rx_item) :
  Z.of_nat (length body) < 10 \/ 4096 < Z.of_nat (length body) ->
  Z.of_nat (length body) <= int32_max ->
  _reader c
  = Some (map RxByte (le_bytes4 (Z.of_nat (length body)) ++ body) ++ rest) ->
  _receive_packet c w
  = (Raise RCONError, set_reader c (Some (map RxByte body ++ rest)), w)
  /\ (Z.of_nat (length body) < 10 -> decode body = Raise RCONError).
Proof.
  intros Hout Hmax Hrd. split.
  - rewrite map_app, <- app_assoc in Hrd.
    apply (receive_rejects_declared_size c w (Z.of_nat (length body)));
      [| assumption | assumption].
    apply in_int32_bounds. unfold int32_max in Hmax. lia.
  - intros Hshort. unfold decode.
    destruct (Z.ltb_spec (Z.of_nat (length body)) 10); [reflexivity | lia].
Qed.

Lemma receive_rejects_body_outside_range_witness :
  let c := set_reader (init [] true 3)
             (Some (map RxByte [3; 0; 0; 0; 7; 7; 7])) in
  _receive_packet c (mkWorld [] [])
  = (Raise RCONError, set_reader c (Some (map RxByte [7; 7; 7] ++ [])),
     mkWorld [] [])
  /\ (Z.of_nat (length [7; 7; 7]) < 10 -> decode [7; 7; 7] = Raise RCONError).
Proof.
  intros c.
  apply (receive_rejects_body_outside_range c (mkWorld [] []) [7; 7; 7] []).
  - left. vm_compute. reflexivity.
  - vm_compute. discriminate.
  - reflexivity.
Defined.

(** ** The request correlator *)

Lemma next_request_id_value (c : RCONClient) (w : World) :
  _next_request_id c w
  = (Ok ((_request_id c + 1) mod 2147483647),
     set_request_id c ((_request_id c + 1) mod 2147483647), w).
Proof. reflexivity. Qed.

Lemma next_request_id_range (c : RCONClient) :
  0 <= (_request_id c + 1) mod 2147483647 < 2147483647.
Proof. apply Z.mod_pos_bound. lia. Qed.

Lemma id_follows_mod (a : Z) :
  0 <= a < 2147483647 -> id_follows a ((a + 1) mod 2147483647).
Proof.
  intros Ha. unfold id_follows, int32_max.
  destruct (Z.eq_dec a 2147483646) as [-> | Hne].
  - right. split; reflexivity.
  - left. apply Z.mod_small. lia.
Qed.

(** C9.  The IDs issued by any number of successive calls of
    [_next_request_id], from any state of the counter: each is at least 0
    and below the signed 32-bit maximum (hence never -1), and each follows
    the one before it — its successor, or 0 after 2147483646. *)
Theorem request_ids_range_and_succession (n : nat) (c : RCONClient)
    (w : World) :
  length (request_ids n c w) = n
  /\ Forall (fun i => int32_min <= i /\ 0 <= i < int32_max /\ i <> -1)
            (request_ids n c w)
  /\ (forall k a b,
        nth_error (request_ids n c w) k = Some a ->
        nth_error (request_ids n c w) (S k) = Some b ->
        id_follows a b).
Proof.
  revert c w. induction n as [| n IH]; intros c w.
  - cbn [request_ids]. repeat split.
    + constructor.
    + intros k a b H. now destruct k.
  - cbn [request_ids]. rewrite next_request_id_value.
    pose proof (next_request_id_range c) as Hr.
    destruct (IH (set_request_id c ((_request_id c + 1) mod 2147483647)) w)
      as (Hlen & Hall & Hnext).
    repeat split.
    + cbn [length]. now rewrite Hlen.
    + constructor; [| assumption].
      unfold int32_min, int32_max. lia.
    + intros [| k] a b Ha Hb.
      * cbn [nth_error] in Ha. apply Some_inj in Ha. subst a.
        destruct n as [| n']; [discriminate Hb |].
        cbn [request_ids nth_error] in Hb.
        rewrite next_request_id_value in Hb. cbn [nth_error] in Hb.
        apply Some_inj in Hb. subst b.
        cbn [set_request_id _request_id]. now apply id_follows_mod.
      * cbn [nth_error] in Ha, Hb. now apply (Hnext k).
Qed.

(** ** Traces *)

Lemma count_app (f : event -> bool) (a b : list event) :
  count f (a ++ b) = (count f a + count f b)%nat.
Proof. unfold count. now rewrite filter_app, length_app. Qed.

Lemma count_none (f : event -> bool) (l : list event) :
  Forall (fun ev => f ev = false) l -> count f l = 0%nat.
Proof.
  unfold count. induction 1 as [| ev l H _ IH]; cbn [filter].
  - reflexivity.
  - now rewrite H.
Qed.

Lemma grows_refl (P : event -> Prop) (w : World) : grows P w w.
Proof. exists []. split; [now rewrite app_nil_r | constructor]. Qed.

Lemma grows_trans (P : event -> Prop) (w1 w2 w3 : World) :
  grows P w1 w2 -> grows P w2 w3 -> grows P w1 w3.
Proof.
  intros (d1 & E1 & F1) (d2 & E2 & F2). exists (d1 ++ d2). split.
  - now rewrite E2, E1, app_assoc.
  - apply Forall_app. now split.
Qed.

Lemma grows_weaken (P Q : event -> Prop) (w w' : World) :
  (forall ev, P ev -> Q ev) -> grows P w w' -> grows Q w w'.
Proof.
  intros HPQ (d & E & F). exists d. split; [assumption |].
  eapply Forall_impl; eassumption.
Qed.

Lemma grows_emit (P : event -> Prop) (ev : event) (w : World) :
  P ev -> grows P w (emit ev w).
Proof. intros H. exists [ev]. split; [reflexivity | now constructor]. Qed.

Lemma grows_count (f : event -> bool) (w w' : World) :
  grows (fun ev => f ev = false) w w' ->
  count f (trace w') = count f (trace w).
Proof.
  intros (d & E & F). rewrite E, count_app, (count_none f d F). lia.
Qed.

Lemma keeps_config_refl (c : RCONClient) : keeps_config c c.
Proof. repeat split. Qed.

Lemma keeps_config_trans (c1 c2 c3 : RCONClient) :
  keeps_config c1 c2 -> keeps_config c2 c3 -> keeps_config c1 c3.
Proof.
  intros (A1 & A2 & A3) (B1 & B2 & B3).
  repeat split; congruence.
Qed.

Lemma keeps_flags_refl (c : RCONClient) : keeps_flags c c.
Proof. split; reflexivity. Qed.

Create HintDb rcon discriminated.

#[local] Hint Resolve keeps_config_refl keeps_flags_refl grows_refl : rcon.

Lemma keeps_flags_trans (c1 c2 c3 : RCONClient) :
  keeps_flags c1 c2 -> keeps_flags c2 c3 -> keeps_flags c1 c3.
Proof. intros (A1 & A2) (B1 & B2). split; congruence. Qed.

Ltac inv_run H := inversion H; subst; clear H.

Ltac break_run H :=
  repeat match type of H with
         | context [match ?x with _ => _ end] => destruct x eqn:?
         end.

Lemma frame_type_encode (p : RCONPacket) (data : bytes) :
  encode p = Ok data -> frame_type data = le_bytes4 (packet_type p).
Proof.
  intros H. destruct (encode_shape _ _ H) as (utf8 & _ & _ & _ & _ & ->).
  reflexivity.
Qed.

Lemma str_encode_utf8_raises (s : str) (e : exn) :
  str_encode_utf8 s = Raise e -> e = UnicodeEncodeError.
Proof.
  induction s as [| ch s IH]; cbn [str_encode_utf8]; [discriminate |].
  destruct (utf8_encode_cp ch); [| congruence].
  destruct (str_encode_utf8 s); [discriminate |].
  intros H. apply IH. congruence.
Qed.

(** [encode] raises no exception of the module. *)
Lemma encode_raises (p : RCONPacket) (e : exn) :
  encode p = Raise e -> is_RCONError e = false.
Proof.
  unfold encode, struct_pack_ii, struct_pack_i.
  destruct (str_encode_utf8 (payload p)) eqn:Hu.
  - destruct (in_int32 (request_id p) && in_int32 (packet_type p)).
    + match goal with |- context [in_int32 ?n] => destruct (in_int32 n) end;
        [discriminate |].
      intros H. now inv_run H.
    + intros H. now inv_run H.
  - intros H. inv_run H. now rewrite (str_encode_utf8_raises _ _ Hu).
Qed.

(** ** Sending and receiving *)

Ltac solve_keeps :=
  unfold keeps_config, keeps_flags;
  repeat split;
  try discriminate; try reflexivity;
  try (intros; cbn in *; congruence);
  try (intros Hn; exfalso; apply Hn; reflexivity).

Lemma send_keeps (p : RCONPacket) (c c' : RCONClient) (w w' : World)
    (r : result unit) :
  _send_packet p c w = (r, c', w') ->
  keeps_config c c'
  /\ _request_id c' = _request_id c
  /\ _reader c' = _reader c
  /\ pending w' = pending w
  /\ raised r <> Some RCONAuthenticationError
  /\ raised r <> Some RCONError
  /\ (raised r <> Some RCONConnectionError -> keeps_flags c c')
  /\ (_connected c = false -> _connected c' = false).
Proof.
  unfold _send_packet. intros H. break_run H; inv_run H;
    splits; try solve [solve_keeps].
  all: apply encode_raises in Heqr0; cbn [raised]; intros E; inv_run E;
    discriminate.
Qed.

Lemma send_trace (p : RCONPacket) (c c' : RCONClient) (w w' : World)
    (r : result unit) :
  _send_packet p c w = (r, c', w') ->
  (w' = w /\ r <> Ok tt)
  \/ (exists data, encode p = Ok data /\ w' = emit (EvWrite data) w).
Proof.
  unfold _send_packet. intros H. break_run H; inv_run H;
    try (left; split; [reflexivity | discriminate]);
    right; eexists; split; reflexivity.
Qed.

Lemma send_writes (p : RCONPacket) (c : RCONClient) (w : World)
    (data : bytes) :
  _writer c <> None ->
  encode p = Ok data ->
  exists r c', _send_packet p c w = (r, c', emit (EvWrite data) w).
Proof.
  intros Hw He. unfold _send_packet. rewrite He.
  destruct (_writer c) as [[| [] tx] |]; [.. | contradiction];
    eexists; eexists; reflexivity.
Qed.

Lemma decode_raises (data : bytes) (e : exn) :
  decode data = Raise e -> e = RCONError \/ e = StructError.
Proof.
  unfold decode. destruct (Z.of_nat (length data) <? 10).
  - intros H. inv_run H. now left.
  - destruct (struct_unpack_ii (firstn 8 data)) as [[rid ptype] | e'] eqn:Hu.
    + discriminate.
    + intros H. inv_run H. right. unfold struct_unpack_ii in Hu.
      break_run Hu; now inv_run Hu.
Qed.

Lemma struct_unpack_i_raises (data : bytes) (e : exn) :
  struct_unpack_i data = Raise e -> e = StructError.
Proof.
  unfold struct_unpack_i. intros H. break_run H; now inv_run H.
Qed.

Lemma recv_keeps (c c' : RCONClient) (w w' : World) (r : result RCONPacket) :
  _receive_packet c w = (r, c', w') ->
  keeps_config c c'
  /\ _request_id c' = _request_id c
  /\ _writer c' = _writer c
  /\ pending w' = pending w
  /\ raised r <> Some RCONAuthenticationError
  /\ (raised r <> Some RCONConnectionError -> keeps_flags c c')
  /\ (_connected c = false -> _connected c' = false).
Proof.
  unfold _receive_packet. intros H.
  destruct (_reader c) as [rx |]; [| inv_run H; solve_keeps].
  destruct (readexactly 4 rx) as [[size_data | | |] rx1];
    try solve [inv_run H; solve_keeps].
  destruct (struct_unpack_i size_data) as [packet_size | e] eqn:Hsz.
  2:{ apply struct_unpack_i_raises in Hsz. subst e.
      inv_run H; solve_keeps. }
  destruct ((packet_size <? 10) || (4096 <? packet_size));
    [inv_run H; solve_keeps |].
  destruct (readexactly (Z.to_nat packet_size) rx1) as [[packet_data | | |] rx2];
    try solve [inv_run H; solve_keeps].
  destruct (decode packet_data) as [packet | e] eqn:Hd.
  - inv_run H; solve_keeps.
  - destruct (decode_raises _ _ Hd); subst e;
      inv_run H; solve_keeps.
Qed.

Lemma recv_trace (c c' : RCONClient) (w w' : World) (r : result RCONPacket) :
  _receive_packet c w = (r, c', w') ->
  match r with
  | Ok p => w' = emit (EvRecv p) w
  | Raise _ => w' = w
  end.
Proof.
  unfold _receive_packet. intros H. break_run H; now inv_run H.
Qed.

Lemma readexactly_length (n : nat) (rx rest : list rx_item) (data : bytes) :
  readexactly n rx = (RdOk data, rest) ->
  (length rest + n = length rx)%nat.
Proof.
  revert rx rest data. induction n as [| n IH]; intros rx rest data H;
    cbn [readexactly] in H.
  - inv_run H. lia.
  - destruct rx as [| [b | | |] rx]; try discriminate.
    destruct (readexactly n rx) as [[d | | |] rest'] eqn:E; try discriminate.
    inv_run H. specialize (IH _ _ _ E). cbn [length]. lia.
Qed.

Lemma recv_progress (c c' : RCONClient) (w w' : World) (p : RCONPacket) :
  _receive_packet c w = (Ok p, c', w') ->
  (rx_pending c' < rx_pending c)%nat.
Proof.
  unfold _receive_packet, rx_pending. intros H.
  destruct (_reader c) as [rx |]; [| discriminate].
  destruct (readexactly 4 rx) as [[size_data | | |] rx1] eqn:E1;
    try discriminate.
  apply readexactly_length in E1.
  destruct (struct_unpack_i size_data); [| discriminate].
  destruct ((a <? 10) || (4096 <? a)); [discriminate |].
  destruct (readexactly (Z.to_nat a) rx1) as [[packet_data | | |] rx2] eqn:E2;
    try discriminate.
  apply readexactly_length in E2.
  destruct (decode packet_data); [| discriminate].
  inv_run H. cbn [set_reader _reader]. lia.
Qed.

(** ** The response loop *)

Lemma collect_fuel_mono (rid : Z) (fuel : nat) :
  forall (rs : list str) (c : RCONClient) (w : World) out,
    _collect_fuel fuel rid rs c w = Some out ->
    forall fuel', (fuel <= fuel')%nat ->
                  _collect_fuel fuel' rid rs c w = Some out.
Proof.
  induction fuel as [| fuel IH]; intros rs c w out H fuel' Hle;
    cbn [_collect_fuel] in H; [discriminate |].
  destruct fuel' as [| fuel']; [lia |]. cbn [_collect_fuel].
  destruct (_receive_packet c w) as [[[response | e] c1] w1]; [| assumption].
  destruct (negb (request_id response =? rid)); [| assumption].
  apply (IH _ _ _ _ H). lia.
Qed.

Lemma collect_fuel_some (rid : Z) (fuel : nat) :
  forall (rs : list str) (c : RCONClient) (w : World),
    (rx_pending c < fuel)%nat ->
    exists out, _collect_fuel fuel rid rs c w = Some out.
Proof.
  induction fuel as [| fuel IH]; intros rs c w Hlt; [lia |].
  cbn [_collect_fuel].
  destruct (_receive_packet c w) as [[[response | e] c1] w1] eqn:Hrecv;
    [| eexists; reflexivity].
  destruct (negb (request_id response =? rid)).
  - apply IH. apply recv_progress in Hrecv. lia.
  - destruct (has_reader c1 && reader_at_eof c1); [eexists; reflexivity |].
    destruct (negb (has_reader c1) || reader_at_eof c1); eexists; reflexivity.
Qed.

(** The bound of [_collect] is never reached: a larger one changes
    nothing. *)
Lemma _collect_fuel_enough (rid : Z) (rs : list str) (c : RCONClient)
    (w : World) (fuel : nat) :
  (rx_pending c < fuel)%nat ->
  _collect_fuel fuel rid rs c w = Some (_collect rid rs c w).
Proof.
  intros Hlt. unfold _collect.
  destruct (collect_fuel_some rid (S (rx_pending c)) rs c w) as [out Hout];
    [lia |].
  rewrite Hout. apply (collect_fuel_mono _ _ _ _ _ _ Hout). lia.
Qed.

(** The loop, as the code writes it: read a packet; skip it and go round
    again when it belongs to another request; otherwise keep its payload
    and leave. *)
Lemma _collect_unfold (rid : Z) (rs : list str) (c : RCONClient) (w : World) :
  _collect rid rs c w
  = match _receive_packet c w with
    | (Raise e, c', w') => (Raise e, c', w')
    | (Ok response, c', w') =>
        if negb (request_id response =? rid)
        then _collect rid rs c' w'
        else (Ok (rs ++ [payload response]), c', w')
    end.
Proof.
  pose proof (_collect_fuel_enough rid rs c w (S (rx_pending c))
                ltac:(lia)) as H.
  cbn [_collect_fuel] in H.
  destruct (_receive_packet c w) as [[[response | e] c1] w1] eqn:Hrecv.
  - destruct (negb (request_id response =? rid)).
    + apply recv_progress in Hrecv.
      rewrite (_collect_fuel_enough rid rs c1 w1 (rx_pending c)) in H
        by assumption.
      now apply Some_inj in H.
    + destruct (has_reader c1 && reader_at_eof c1);
        [now apply Some_inj in H |].
      destruct (negb (has_reader c1) || reader_at_eof c1);
        now apply Some_inj in H.
  - now apply Some_inj in H.
Qed.

Lemma collect_fuel_spec (rid : Z) (fuel : nat) :
  forall (rs : list str) (c c' : RCONClient) (w w' : World) r,
    _collect_fuel fuel rid rs c w = Some (r, c', w') ->
    keeps_config c c'
    /\ _request_id c' = _request_id c
    /\ _writer c' = _writer c
    /\ pending w' = pending w
    /\ raised r <> Some RCONAuthenticationError
    /\ (raised r <> Some RCONConnectionError -> keeps_flags c c')
    /\ exists skipped,
        Forall (fun q => request_id q <> rid) skipped
        /\ match r with
           | Ok l =>
               exists p, request_id p = rid /\ l = rs ++ [payload p]
                         /\ trace w' = trace w ++ map EvRecv skipped
                                               ++ [EvRecv p]
           | Raise _ => trace w' = trace w ++ map EvRecv skipped
           end.
Proof.
  induction fuel as [| fuel IH]; intros rs c c' w w' r H;
    cbn [_collect_fuel] in H; [discriminate |].
  destruct (_receive_packet c w) as [[[response | e] c1] w1] eqn:Hrecv.
  - pose proof (recv_keeps _ _ _ _ _ Hrecv)
      as (Kc & Kid & Kw & Kp & _ & Kf & _).
    pose proof (recv_trace _ _ _ _ _ Hrecv) as Ht. cbn in Ht.
    specialize (Kf ltac:(discriminate)).
    destruct (request_id response =? rid) eqn:Hid; cbn [negb] in H.
    + assert (Hout : (r, c', w') = (Ok (rs ++ [payload response]), c1, w1)).
      { destruct (has_reader c1 && reader_at_eof c1);
          [now apply Some_inj in H |].
        destruct (negb (has_reader c1) || reader_at_eof c1);
          now apply Some_inj in H. }
      inv_run Hout. splits; try assumption; try discriminate.
      * intros _. assumption.
      * exists []. split; [constructor |].
        exists response. apply Z.eqb_eq in Hid.
        splits; [assumption | reflexivity | reflexivity].
    + destruct (IH _ _ _ _ _ _ H) as (Ic & Iid & Iw & Ip & Ia & If & sk & Hsk & Hr).
      splits; try congruence.
      * eapply keeps_config_trans; eassumption.
      * intros Hn. eapply keeps_flags_trans; [eassumption | now apply If].
      * exists (response :: sk). split.
        { constructor; [now apply Z.eqb_neq | assumption]. }
        rewrite Ht in Hr. cbn [emit trace] in Hr. cbn [map].
        destruct r as [l | e].
        -- destruct Hr as (p & Hp & Hl & Htr). exists p.
           splits; try assumption.
           rewrite Htr, <- !app_assoc. reflexivity.
        -- rewrite Hr, <- !app_assoc. reflexivity.
  - apply Some_inj in H. inv_run H.
    pose proof (recv_keeps _ _ _ _ _ Hrecv)
      as (Kc & Kid & Kw & Kp & Ka & Kf & _).
    pose proof (recv_trace _ _ _ _ _ Hrecv) as Ht. cbn in Ht. subst w'.
    splits; try assumption.
    exists []. split; [constructor |]. cbn [map]. now rewrite app_nil_r.
Qed.

Lemma collect_spec (rid : Z) (rs : list str) (c c' : RCONClient)
    (w w' : World) r :
  _collect rid rs c w = (r, c', w') ->
  keeps_config c c'
  /\ _request_id c' = _request_id c
  /\ _writer c' = _writer c
  /\ pending w' = pending w
  /\ raised r <> Some RCONAuthenticationError
  /\ (raised r <> Some RCONConnectionError -> keeps_flags c c')
  /\ exists skipped,
      Forall (fun q => request_id q <> rid) skipped
      /\ match r with
         | Ok l =>
             exists p, request_id p = rid /\ l = rs ++ [payload p]
                       /\ trace w' = trace w ++ map EvRecv skipped
                                             ++ [EvRecv p]
         | Raise _ => trace w' = trace w ++ map EvRecv skipped
         end.
Proof.
  intros H. apply (collect_fuel_spec rid (S (rx_pending c)) rs).
  rewrite _collect_fuel_enough by lia. now rewrite H.
Qed.

(** ** One attempt of a command *)

Lemma join_single (s : str) : join ([] ++ [s]) = s.
Proof. unfold join. cbn [app concat]. apply app_nil_r. Qed.

Lemma try_spec (command : str) (rid : Z) (c c' : RCONClient)
    (w w' : World) (r : result str) :
  _execute_try command rid c w = (r, c', w') ->
  keeps_config c c'
  /\ _request_id c' = _request_id c
  /\ pending w' = pending w
  /\ raised r <> Some RCONAuthenticationError
  /\ (raised r <> Some RCONConnectionError -> keeps_flags c c')
  /\ attempt_trace command rid r w w'.
Proof.
  unfold _execute_try, bind. intros H.
  destruct (_send_packet (mkPacket rid SERVERDATA_EXECCOMMAND command) c w)
    as [[[[] | e] c1] w1] eqn:Hsend.
  - pose proof (send_keeps _ _ _ _ _ _ Hsend)
      as (Sc & Sid & _ & Sp & _ & _ & Sf & _).
    specialize (Sf ltac:(discriminate)).
    destruct (send_trace _ _ _ _ _ _ Hsend) as [[_ Hn] | (data & He & Hw)];
      [now contradiction Hn |].
    destruct (_collect rid [] c1 w1) as [[[l | e] c2] w2] eqn:Hcol;
      pose proof (collect_spec _ _ _ _ _ _ _ Hcol)
        as (Cc & Cid & _ & Cp & Ca & Cf & sk & Hsk & Hr);
      unfold ret in H; inv_run H; splits; try congruence;
      try (eapply keeps_config_trans; eassumption);
      try (intros Hn; eapply keeps_flags_trans; [eassumption | now apply Cf]).
    + discriminate.
    + right. exists data, sk. splits; try assumption.
      destruct Hr as (p & Hp & Hl & Htr). exists p. splits; [assumption | |].
      * rewrite Hl. apply join_single.
      * rewrite Htr. cbn [emit trace]. now rewrite <- app_assoc.
    + assumption.
    + right. exists data, sk. splits; try assumption.
      rewrite Hr. cbn [emit trace]. now rewrite <- app_assoc.
  - pose proof (send_keeps _ _ _ _ _ _ Hsend)
      as (Sc & Sid & _ & Sp & Sa & _ & Sf & _).
    inv_run H. splits; try assumption.
    destruct (send_trace _ _ _ _ _ _ Hsend) as [[-> _] | (data & He & ->)].
    + left. split; [reflexivity | discriminate].
    + right. exists data, []. splits; [assumption | constructor |].
      reflexivity.
Qed.

Lemma attempt_spec (command : str) (c c' : RCONClient) (w w' : World)
    (r : result str) :
  _execute_attempt command c w = (r, c', w') ->
  keeps_config c c'
  /\ pending w' = pending w
  /\ raised r <> Some RCONAuthenticationError
  /\ (raised r <> Some RCONConnectionError -> keeps_flags c c')
  /\ attempt_trace command ((_request_id c + 1) mod 2147483647) r w w'.
Proof.
  unfold _execute_attempt, bind. rewrite next_request_id_value. intros H.
  pose proof (try_spec _ _ _ _ _ _ _ H) as (Tc & _ & Tp & Ta & Tf & Tt).
  splits; assumption.
Qed.

(** ** The connection manager *)

Lemma send_writer (p : RCONPacket) (c c' : RCONClient) (w w' : World)
    (r : result unit) :
  _send_packet p c w = (r, c', w') -> _writer c <> None -> _writer c' <> None.
Proof.
  unfold _send_packet. intros H Hw. break_run H; inv_run H;
    cbn; congruence.
Qed.

Lemma is_handshake_io_recv (p : RCONPacket) : is_handshake_io (EvRecv p).
Proof. now left. Qed.

Lemma is_handshake_io_auth_write (p : RCONPacket) (data : bytes) :
  packet_type p = SERVERDATA_AUTH ->
  encode p = Ok data ->
  is_handshake_io (EvWrite data).
Proof.
  intros Ht He. right. split; [reflexivity |].
  cbn [is_exec_write]. rewrite (frame_type_encode _ _ He), Ht. reflexivity.
Qed.

Lemma handshake_io_not_exec (ev : event) :
  is_handshake_io ev -> is_exec_write ev = false.
Proof.
  intros [H | [_ H]]; [| assumption]. now destruct ev.
Qed.

Lemma handshake_io_not_open (ev : event) :
  is_handshake_io ev -> is_open ev = false.
Proof. intros [H | [H _]]; now destruct ev. Qed.

Lemma handshake_io_not_sleep (ev : event) :
  is_handshake_io ev -> is_reconnect_sleep ev = false.
Proof. intros [H | [H _]]; now destruct ev. Qed.

Lemma send_auth_grows (p : RCONPacket) (c c' : RCONClient) (w w' : World)
    (r : result unit) :
  packet_type p = SERVERDATA_AUTH ->
  _send_packet p c w = (r, c', w') ->
  grows is_handshake_io w w'.
Proof.
  intros Ht H.
  destruct (send_trace _ _ _ _ _ _ H) as [[-> _] | (data & He & ->)].
  - apply grows_refl.
  - apply grows_emit. eapply is_handshake_io_auth_write; eassumption.
Qed.

Lemma recv_grows (c c' : RCONClient) (w w' : World) (r : result RCONPacket) :
  _receive_packet c w = (r, c', w') ->
  grows is_handshake_io w w'.
Proof.
  intros H. pose proof (recv_trace _ _ _ _ _ H) as Ht.
  destruct r; subst w'.
  - apply grows_emit, is_handshake_io_recv.
  - apply grows_refl.
Qed.

Lemma disconnect_spec (c : RCONClient) (w : World) :
  exists c' w',
    _disconnect_internal c w = (Ok tt, c', w')
    /\ keeps_config c c'
    /\ pending w' = pending w
    /\ (_connected c = false -> _connected c' = false)
    /\ grows (fun ev => ev = EvClose) w w'.
Proof.
  unfold _disconnect_internal. destruct (_writer c).
  - eexists; eexists. splits; try reflexivity; try solve [solve_keeps].
    now apply grows_emit.
  - exists c, w. splits; try reflexivity; try solve [solve_keeps].
    apply grows_refl.
Qed.

Lemma exchange_spec (packet : RCONPacket) (c c' : RCONClient) (w w' : World)
    (r : result RCONPacket) :
  packet_type packet = SERVERDATA_AUTH ->
  _authenticate_exchange packet c w = (r, c', w') ->
  keeps_config c c'
  /\ _request_id c' = _request_id c
  /\ pending w' = pending w
  /\ (_writer c <> None -> _writer c' <> None)
  /\ (raised r <> Some RCONConnectionError -> keeps_flags c c')
  /\ grows is_handshake_io w w'.
Proof.
  intros Ht. unfold _authenticate_exchange, bind. intros H.
  destruct (_send_packet packet c w) as [[[[] | e] c1] w1] eqn:Hsend.
  2:{ inv_run H.
      pose proof (send_keeps _ _ _ _ _ _ Hsend)
        as (Sc & Sid & _ & Sp & _ & _ & Sf & _).
      splits; try assumption.
      - now apply (send_writer _ _ _ _ _ _ Hsend).
      - eapply send_auth_grows; eassumption. }
  pose proof (send_keeps _ _ _ _ _ _ Hsend)
    as (Sc & Sid & _ & Sp & _ & _ & Sf & _).
  specialize (Sf ltac:(discriminate)).
  pose proof (send_writer _ _ _ _ _ _ Hsend) as Sw.
  pose proof (send_auth_grows _ _ _ _ _ _ Ht Hsend) as Sg.
  destruct (_receive_packet c1 w1) as [[[response | e] c2] w2] eqn:Hr1.
  2:{ inv_run H.
      pose proof (recv_keeps _ _ _ _ _ Hr1) as (Rc & Rid & Rw & Rp & _ & Rf & _).
      splits; try congruence.
      - eapply keeps_config_trans; eassumption.
      - intros Hw. rewrite Rw. now apply Sw.
      - intros Hn. eapply keeps_flags_trans; [eassumption | now apply Rf].
      - eapply grows_trans; [eassumption | eapply recv_grows; eassumption]. }
  pose proof (recv_keeps _ _ _ _ _ Hr1) as (Rc & Rid & Rw & Rp & _ & Rf & _).
  specialize (Rf ltac:(discriminate)).
  pose proof (recv_grows _ _ _ _ _ Hr1) as Rg.
  destruct (packet_type response =? SERVERDATA_RESPONSE_VALUE).
  - pose proof (recv_keeps _ _ _ _ _ H) as (Qc & Qid & Qw & Qp & _ & Qf & _).
    splits; try congruence.
    + eapply keeps_config_trans; [| eassumption].
      eapply keeps_config_trans; eassumption.
    + intros Hw. rewrite Qw, Rw. now apply Sw.
    + intros Hn. eapply keeps_flags_trans; [| now apply Qf].
      eapply keeps_flags_trans; eassumption.
    + eapply grows_trans; [| eapply recv_grows; eassumption].
      eapply grows_trans; eassumption.
  - unfold ret in H. inv_run H. splits; try congruence.
    + eapply keeps_config_trans; eassumption.
    + intros Hw. rewrite Rw. now apply Sw.
    + intros _. eapply keeps_flags_trans; eassumption.
    + eapply grows_trans; eassumption.
Qed.

(** The two checks of [_authenticate] on the response of the exchange, and
    its [except] clause. *)
Lemma authenticate_unfold (c : RCONClient) (w : World) :
  let auth_id := (_request_id c + 1) mod 2147483647 in
  _authenticate c w
  = match _authenticate_exchange
            (mkPacket auth_id SERVERDATA_AUTH (password c))
            (set_request_id c auth_id) w with
    | (Ok response, c2, w2) =>
        if request_id response =? -1
        then (Raise RCONAuthenticationError,
              mark_down (set_connected c2 false), w2)
        else if negb (request_id response =? auth_id)
        then (Raise RCONAuthenticationError,
              mark_down (set_connected c2 false), w2)
        else (Ok tt, set_authenticated c2 true, w2)
    | (Raise e, c2, w2) =>
        if is_RCONError e then (Raise e, mark_down c2, w2)
        else (Raise e, c2, w2)
    end.
Proof.
  intros auth_id. unfold _authenticate, bind at 1.
  rewrite next_request_id_value. fold auth_id.
  unfold try_except, bind at 1.
  cbn [password set_request_id].
  destruct (_authenticate_exchange _ _ w) as [[[response | e] c2] w2].
  - destruct (request_id response =? -1); [reflexivity |].
    destruct (negb (request_id response =? auth_id)); reflexivity.
  - destruct (is_RCONError e); reflexivity.
Qed.

Lemma authenticate_spec (c c' : RCONClient) (w w' : World) (r : result unit) :
  _authenticate c w = (r, c', w') ->
  keeps_config c c'
  /\ pending w' = pending w
  /\ (_writer c <> None -> _writer c' <> None)
  /\ grows is_handshake_io w w'
  /\ match r with
     | Ok _ => _authenticated c' = true /\ _connected c' = _connected c
     | Raise e =>
         is_RCONError e = true ->
         _connected c' = false /\ _authenticated c' = false
     end.
Proof.
  rewrite authenticate_unfold. cbv zeta.
  set (auth_id := (_request_id c + 1) mod 2147483647).
  destruct (_authenticate_exchange _ _ w) as [[[response | e] c2] w2] eqn:Hx;
    intros H;
    pose proof (fun Ht => exchange_spec _ _ _ _ _ _ Ht Hx) as X;
    specialize (X eq_refl); destruct X as (Xc & Xid & Xp & Xw & Xf & Xg).
  - specialize (Xf ltac:(discriminate)). destruct Xf as [Xf1 Xf2].
    destruct (request_id response =? -1);
      [| destruct (negb (request_id response =? auth_id))];
      inv_run H; splits; try assumption; try (intros _; split; reflexivity).
    reflexivity.
  - destruct (is_RCONError e) eqn:He; inv_run H; splits; try assumption;
      try (intros _; split; reflexivity); try discriminate.
  intros Hn. congruence.
Qed.

Lemma connect_connected (c : RCONClient) (w : World) :
  _connected c = true -> _connect_internal c w = (Ok tt, c, w).
Proof. intros H. unfold _connect_internal. now rewrite H. Qed.

(** A run of [_connect_internal] on a client that is not connected: one
    call of [open_connection], then the handshake. *)
Lemma connect_spec (c c' : RCONClient) (w w' : World) (r : result unit) :
  _connected c = false ->
  _connect_internal c w = (r, c', w') ->
  keeps_config c c'
  /\ (exists delta,
        trace w' = trace w ++ EvOpen :: delta /\ Forall is_handshake_io delta)
  /\ match r with
     | Ok _ => is_connected c' = true /\ _writer c' <> None
     | Raise e => is_RCONError e = true -> _connected c' = false
     end.
Proof.
  intros Hc. unfold _connect_internal. rewrite Hc. cbn [emit pending trace].
  destruct (pending w) as [| [rx tx | |] rest]; intros H;
    try (inv_run H; splits;
         [apply keeps_config_refl
         | exists []; split; [reflexivity | constructor]
         | intros _; assumption]).
  pose proof (authenticate_spec _ _ _ _ _ H) as (Ac & Ap & Aw & Ag & Ar).
  splits.
  - exact Ac.
  - destruct Ag as (delta & Ht & Hd). exists delta. split; [| assumption].
    rewrite Ht. cbn [trace]. now rewrite <- app_assoc.
  - destruct r as [[] | e].
    + destruct Ar as [Ar1 Ar2]. split.
      * unfold is_connected. rewrite Ar1, Ar2. reflexivity.
      * apply Aw. cbn. discriminate.
    + intros He. now apply Ar.
Qed.

Lemma connect_grows (c c' : RCONClient) (w w' : World) (r : result unit) :
  _connect_internal c w = (r, c', w') ->
  keeps_config c c' /\ grows not_exec_write w w'.
Proof.
  intros H. destruct (_connected c) eqn:Hc.
  - rewrite (connect_connected _ _ Hc) in H. inv_run H.
    split; [apply keeps_config_refl | apply grows_refl].
  - destruct (connect_spec _ _ _ _ _ Hc H) as (Kc & (delta & Ht & Hd) & _).
    split; [assumption |]. exists (EvOpen :: delta). split; [assumption |].
    constructor; [reflexivity |].
    eapply Forall_impl; [| eassumption]. apply handshake_io_not_exec.
Qed.

(** One iteration of the loop of [_reconnect]. *)
Lemma reconnect_attempt_spec (c c' : RCONClient) (w w' : World)
    (r : result unit) :
  _reconnect_attempt c w = (r, c', w') ->
  keeps_config c c'
  /\ grows not_exec_write w w'
  /\ (_connected c = false ->
      match r with
      | Ok _ => is_connected c' = true /\ _writer c' <> None
      | Raise e => is_RCONError e = true -> _connected c' = false
      end).
Proof.
  unfold _reconnect_attempt, bind.
  destruct (disconnect_spec c w) as (c1 & w1 & Hd & Dc & Dp & Df & Dg).
  rewrite Hd. unfold log_event. intros H.
  pose proof (connect_grows _ _ _ _ _ H) as (Cc & Cg).
  splits.
  - eapply keeps_config_trans; eassumption.
  - eapply grows_trans; [| eapply grows_trans; [| exact Cg]].
    + eapply grows_weaken; [| exact Dg]. intros ev ->. reflexivity.
    + now apply grows_emit.
  - intros Hc. specialize (Df Hc).
    now destruct (connect_spec _ _ _ _ _ Df H) as (_ & _ & Hr).
Qed.

Lemma reconnect_loop_unfold (n : nat) (c : RCONClient) (w : World) :
  _reconnect_loop (S n) c w
  = match _reconnect_attempt c w with
    | (Ok _, c', w') => (Ok true, c', w')
    | (Raise e, c', w') =>
        if is_RCONError e then _reconnect_loop n c' w'
        else (Raise e, c', w')
    end.
Proof.
  cbn [_reconnect_loop]. unfold try_except, bind at 1.
  destruct (_reconnect_attempt c w) as [[[[] | e] c'] w']; [reflexivity |].
  destruct (is_RCONError e); reflexivity.
Qed.

(** The loop of [_reconnect]: it returns a boolean or lets through an
    exception that is no [RCONError]; it writes no command frame; from a
    client that is not connected it returns [True] only with the
    connection up and [False] only with the connection down. *)
Lemma reconnect_loop_spec (n : nat) :
  forall (c c' : RCONClient) (w w' : World) (r : result bool),
    _reconnect_loop n c w = (r, c', w') ->
    keeps_config c c'
    /\ grows not_exec_write w w'
    /\ match r with
       | Ok true =>
           _connected c = false ->
           is_connected c' = true /\ _writer c' <> None
       | Ok false => _connected c = false -> _connected c' = false
       | Raise e => is_RCONError e = false
       end.
Proof.
  induction n as [| n IH]; intros c c' w w' r H.
  - cbn [_reconnect_loop] in H. unfold ret in H. inv_run H.
    splits; [apply keeps_config_refl | apply grows_refl | auto].
  - rewrite reconnect_loop_unfold in H.
    destruct (_reconnect_attempt c w) as [[[[] | e] c1] w1] eqn:Ha;
      pose proof (reconnect_attempt_spec _ _ _ _ _ Ha) as (Ac & Ag & Ar).
    + inv_run H. splits; assumption.
    + destruct (is_RCONError e) eqn:He.
      * destruct (IH _ _ _ _ _ H) as (Ic & Ig & Ir).
        splits.
        -- eapply keeps_config_trans; eassumption.
        -- eapply grows_trans; eassumption.
        -- destruct r as [[|] | e']; [| | assumption];
             intros Hc; apply Ir; now apply Ar.
      * inv_run H. splits; assumption.
Qed.

Lemma reconnect_spec (c c' : RCONClient) (w w' : World) (r : result bool) :
  _reconnect c w = (r, c', w') ->
  keeps_config c c'
  /\ grows not_exec_write w w'
  /\ match r with
     | Ok true =>
         _connected c = false ->
         is_connected c' = true /\ _writer c' <> None
     | Ok false => _connected c = false -> _connected c' = false
     | Raise e => is_RCONError e = false
     end.
Proof. apply reconnect_loop_spec. Qed.

(** ** The command executor *)

Lemma body_unfold (self_call : str -> M str) (command : str) (retry : bool)
    (c : RCONClient) (w : World) :
  _execute_internal_body self_call command retry c w
  = match _execute_precheck retry c w with
    | (Raise e, c0, w0) => (Raise e, c0, w0)
    | (Ok _, c0, w0) =>
        match _execute_attempt command c0 w0 with
        | (Ok s, c1, w1) => (Ok s, c1, w1)
        | (Raise e, c1, w1) =>
            _execute_except self_call command retry e c1 w1
        end
    end.
Proof.
  unfold _execute_internal_body, bind at 1.
  destruct (_execute_precheck retry c w) as [[[[] | e] c0] w0]; [| reflexivity].
  unfold _execute_attempt, bind, try_except.
  rewrite next_request_id_value.
  destruct (_execute_try command _ _ w0) as [[[s | e] c1] w1]; reflexivity.
Qed.

(** With [retry=False] the handlers only re-raise. *)
Lemma except_no_retry (self_call : str -> M str) (command : str) (e : exn)
    (c : RCONClient) (w : World) :
  _execute_except self_call command false e c w
  = (Raise e,
     match e with RCONConnectionError => mark_down c | _ => c end, w).
Proof.
  unfold _execute_except. rewrite !andb_false_r. now destruct e.
Qed.

Lemma body_no_retry (k1 k2 : str -> M str) (command : str) (c : RCONClient)
    (w : World) :
  _execute_internal_body k1 command false c w
  = _execute_internal_body k2 command false c w.
Proof.
  rewrite !body_unfold.
  destruct (_execute_precheck false c w) as [[[[] | e] c0] w0]; [| reflexivity].
  destruct (_execute_attempt command c0 w0) as [[[s | e] c1] w1];
    [reflexivity |].
  now rewrite !except_no_retry.
Qed.

Lemma except_ext (k1 k2 : str -> M str) (command : str) (retry : bool)
    (e : exn) (c : RCONClient) (w : World) :
  (forall c w, k1 command c w = k2 command c w) ->
  _execute_except k1 command retry e c w
  = _execute_except k2 command retry e c w.
Proof.
  intros Hk. unfold _execute_except, bind.
  destruct e; try reflexivity.
  - destruct (auto_reconnect (mark_down c) && retry); [| reflexivity].
    destruct (_reconnect (mark_down c) w) as [[[[|] | e] c2] w2];
      try reflexivity. apply Hk.
  - destruct (auto_reconnect c && retry); [| reflexivity].
    destruct (_reconnect (mark_down c) w) as [[[[|] | e] c2] w2];
      try reflexivity. apply Hk.
Qed.

(** [_execute_internal] is the function that the code defines: its body,
    with the recursive call made with [retry=False]. *)
Lemma _execute_internal_unfold (command : str) (retry : bool)
    (c : RCONClient) (w : World) :
  _execute_internal command retry c w
  = _execute_internal_body (fun cmd => _execute_internal cmd false)
                           command retry c w.
Proof.
  unfold _execute_internal. rewrite !body_unfold.
  destruct (_execute_precheck retry c w) as [[[[] | e] c0] w0]; [| reflexivity].
  destruct (_execute_attempt command c0 w0) as [[[s | e] c1] w1];
    [reflexivity |].
  apply except_ext. intros c' w'. apply body_no_retry.
Qed.

Lemma precheck_spec (retry : bool) (c c' : RCONClient) (w w' : World)
    (r : result unit) :
  _execute_precheck retry c w = (r, c', w') ->
  keeps_config c c'
  /\ grows not_exec_write w w'
  /\ raised r <> Some RCONAuthenticationError
  /\ raised r <> Some RCONTimeoutError.
Proof.
  unfold _execute_precheck, bind. intros H.
  destruct (negb (is_connected c)).
  2:{ inv_run H. splits; try discriminate; auto with rcon. }
  destruct (auto_reconnect c && retry).
  2:{ inv_run H. splits; try discriminate; auto with rcon. }
  destruct (_reconnect c w) as [[[b | e] c1] w1] eqn:Hr;
    pose proof (reconnect_spec _ _ _ _ _ Hr) as (Rc & Rg & Rr).
  - destruct b; cbn [negb] in H; inv_run H; splits;
      try assumption; discriminate.
  - inv_run H. splits; try assumption; cbn [raised]; intros E;
      apply Some_inj in E; subst e; discriminate.
Qed.

Lemma exec_bounded_grows (w w' : World) :
  grows not_exec_write w w' -> exec_bounded 0 w w'.
Proof.
  intros (d & E & F). exists d. split; [assumption |].
  rewrite (count_none is_exec_write d F). lia.
Qed.

Lemma exec_bounded_trans (a b : nat) (w1 w2 w3 : World) :
  exec_bounded a w1 w2 -> exec_bounded b w2 w3 ->
  exec_bounded (a + b) w1 w3.
Proof.
  intros (d1 & E1 & B1) (d2 & E2 & B2). exists (d1 ++ d2). split.
  - now rewrite E2, E1, app_assoc.
  - rewrite count_app. lia.
Qed.

Lemma exec_bounded_weaken (a b : nat) (w w' : World) :
  (a <= b)%nat -> exec_bounded a w w' -> exec_bounded b w w'.
Proof. intros Hle (d & E & B). exists d. split; [assumption | lia]. Qed.

Lemma count_recvs (l : list RCONPacket) :
  count is_exec_write (map EvRecv l) = 0%nat.
Proof. apply count_none. apply Forall_map. now apply Forall_forall. Qed.

Lemma attempt_bounded (command : str) (rid : Z) (r : result str)
    (w w' : World) :
  attempt_trace command rid r w w' -> exec_bounded 1 w w'.
Proof.
  intros [[-> _] | (data & sk & He & Hsk & Hr)].
  - exists []. split; [now rewrite app_nil_r | cbn; lia].
  - destruct r as [s | e].
    + destruct Hr as (p & _ & _ & Ht). eexists. split; [exact Ht |].
      change (EvWrite data :: map EvRecv sk ++ [EvRecv p])
        with ([EvWrite data] ++ map EvRecv sk ++ map EvRecv [p]).
      rewrite !count_app, !count_recvs. unfold count. cbn [filter].
      destruct (is_exec_write (EvWrite data)); cbn; lia.
    + eexists. split; [exact Hr |].
      change (EvWrite data :: map EvRecv sk)
        with ([EvWrite data] ++ map EvRecv sk).
      rewrite !count_app, !count_recvs. unfold count. cbn [filter].
      destruct (is_exec_write (EvWrite data)); cbn; lia.
Qed.

(** What the handlers and the body of [_execute_internal] add to a run,
    given what the recursive call adds. *)
Section RecursiveCallBound.

Variable self_call : str -> M str.
Variable k : nat.
Variable command : str.

Hypothesis self_call_bounded :
  forall c w r c' w',
    self_call command c w = (r, c', w') ->
    exec_bounded k w w' /\ raised r <> Some RCONAuthenticationError.

Lemma except_bounded (retry : bool) (e : exn) (c c' : RCONClient)
    (w w' : World) (r : result str) :
  e <> RCONAuthenticationError ->
  _execute_except self_call command retry e c w = (r, c', w') ->
  exec_bounded k w w' /\ raised r <> Some RCONAuthenticationError.
Proof.
  intros He. unfold _execute_except, bind.
  assert (Hre : forall c0 : RCONClient,
             (Raise e, c0, w) = (r, c', w') ->
             exec_bounded k w w' /\ raised r <> Some RCONAuthenticationError).
  { intros c0 H. inv_run H. split.
    - apply (exec_bounded_weaken 0); [lia |].
      apply exec_bounded_grows. auto with rcon.
    - cbn [raised]. congruence. }
  assert (Hrec :
             (let (p, w2) := _reconnect (mark_down c) w in
              let (r0, c2) := p in
              match r0 with
              | Ok ok =>
                  (if ok then self_call command else raise e) c2 w2
              | Raise e0 => (Raise e0, c2, w2)
              end) = (r, c', w') ->
             exec_bounded k w w' /\ raised r <> Some RCONAuthenticationError).
  { intros H.
    destruct (_reconnect (mark_down c) w) as [[[ok | e0] c2] w2] eqn:Hr.
    - pose proof (reconnect_spec _ _ _ _ _ Hr) as (_ & Rg & _).
      apply exec_bounded_grows in Rg. destruct ok.
      + destruct (self_call_bounded _ _ _ _ _ H) as [Hb Ha].
        split; [| assumption].
        apply (exec_bounded_trans 0 k w w2 w'); assumption.
      + unfold raise in H. inv_run H. split.
        * apply (exec_bounded_weaken 0); [lia | assumption].
        * cbn [raised]. congruence.
    - pose proof (reconnect_spec _ _ _ _ _ Hr) as (_ & Rg & Rr).
      inv_run H. split.
      + apply (exec_bounded_weaken 0); [lia |].
        now apply exec_bounded_grows.
      + cbn [raised]. intros E. apply Some_inj in E. subst e0. discriminate. }
  destruct e; try (now apply Hre).
  - destruct (auto_reconnect (mark_down c) && retry);
      [exact Hrec | now apply Hre].
  - destruct (auto_reconnect c && retry); [exact Hrec | now apply Hre].
Qed.

Lemma body_bounded (retry : bool) (c c' : RCONClient) (w w' : World)
    (r : result str) :
  _execute_internal_body self_call command retry c w = (r, c', w') ->
  exec_bounded (1 + k) w w' /\ raised r <> Some RCONAuthenticationError.
Proof.
  rewrite body_unfold.
  destruct (_execute_precheck retry c w) as [[[[] | e] c0] w0] eqn:Hp;
    pose proof (precheck_spec _ _ _ _ _ _ Hp) as (Pc & Pg & Pa & _).
  2:{ intros H. inv_run H. split; [| assumption].
      apply (exec_bounded_weaken 0); [lia |]. now apply exec_bounded_grows. }
  apply exec_bounded_grows in Pg.
  destruct (_execute_attempt command c0 w0) as [[[s | e] c1] w1] eqn:Ha;
    pose proof (attempt_spec _ _ _ _ _ _ Ha) as (Ac & Ap & Aa & Af & At);
    apply attempt_bounded in At; intros H.
  - inv_run H. split; [| discriminate].
    apply (exec_bounded_weaken (0 + 1)); [lia |].
    apply (exec_bounded_trans 0 1 w w0 w'); assumption.
  - assert (He : e <> RCONAuthenticationError) by (cbn in Aa; congruence).
    destruct (except_bounded _ _ _ _ _ _ _ He H) as [Hb Hr].
    split; [| assumption].
    apply (exec_bounded_trans 0 (1 + k) w w0 w'); [assumption |].
    apply (exec_bounded_trans 1 k w0 w1 w'); assumption.
Qed.

End RecursiveCallBound.

Lemma once_bounded (command : str) (c c' : RCONClient) (w w' : World)
    (r : result str) :
  _execute_internal_once command c w = (r, c', w') ->
  exec_bounded 1 w w' /\ raised r <> Some RCONAuthenticationError.
Proof.
  intros H. apply (body_bounded _ 0) in H; [assumption |].
  intros c0 w0 r0 c1 w1 E. unfold raise in E. inv_run E. split.
  - apply exec_bounded_grows. auto with rcon.
  - discriminate.
Qed.

Lemma execute_bounded (command : str) (retry : bool) (c c' : RCONClient)
    (w w' : World) (r : result str) :
  _execute_internal command retry c w = (r, c', w') ->
  exec_bounded 2 w w' /\ raised r <> Some RCONAuthenticationError.
Proof.
  intros H. apply (body_bounded _ 1) in H; [assumption |].
  intros c0 w0 r0 c1 w1. apply once_bounded.
Qed.

(** The frame of a command is what [is_exec_write] counts. *)
Lemma command_frame_is_exec_write (rid : Z) (command : str) (data : bytes) :
  encode (mkPacket rid SERVERDATA_EXECCOMMAND command) = Ok data ->
  is_exec_write (EvWrite data) = true.
Proof.
  intros H. cbn [is_exec_write]. now rewrite (frame_type_encode _ _ H).
Qed.

Lemma exec_bounded_prefix (k : nat) (w w' : World) :
  exec_bounded k w w' -> exists d, trace w' = trace w ++ d.
Proof. intros (d & E & _). now exists d. Qed.

Lemma answered_after (command s : str) (w w0 w' : World) :
  (exists d, trace w0 = trace w ++ d) ->
  answered command s w0 w' -> answered command s w w'.
Proof.
  intros (d & E) (before & rid & data & sk & p & Ht & He & Hsk & Hp & Hs).
  exists (d ++ before), rid, data, sk, p. splits; try assumption.
  rewrite Ht, E, <- !app_assoc. reflexivity.
Qed.

Lemma attempt_answered (command s : str) (rid : Z) (w w' : World) :
  attempt_trace command rid (Ok s) w w' -> answered command s w w'.
Proof.
  intros [[_ Hn] | (data & sk & He & Hsk & p & Hp & Hs & Ht)].
  - now contradiction Hn.
  - exists [], rid, data, sk, p. splits; assumption.
Qed.

(** A run that returns a string ends with an answered request, given
    that the recursive call does. *)
Section RecursiveCallAnswered.

Variable self_call : str -> M str.
Variable command : str.

Hypothesis self_call_answered :
  forall c w s c' w',
    self_call command c w = (Ok s, c', w') -> answered command s w w'.

Lemma except_answered (retry : bool) (e : exn) (c c' : RCONClient)
    (w w' : World) (s : str) :
  _execute_except self_call command retry e c w = (Ok s, c', w') ->
  answered command s w w'.
Proof.
  unfold _execute_except, bind.
  assert (Hrec :
            (let (p, w2) := _reconnect (mark_down c) w in
             let (r0, c2) := p in
             match r0 with
             | Ok ok => (if ok then self_call command else raise e) c2 w2
             | Raise e0 => (Raise e0, c2, w2)
             end) = (Ok s, c', w') ->
            answered command s w w').
  { destruct (_reconnect (mark_down c) w) as [[[ok | e0] c2] w2] eqn:Hr;
      [| discriminate].
    pose proof (reconnect_spec _ _ _ _ _ Hr) as (_ & Rg & _).
    apply exec_bounded_grows, exec_bounded_prefix in Rg.
    destruct ok; [| discriminate]. intros H.
    apply (answered_after _ _ _ w2); [assumption |].
    now apply (self_call_answered c2 w2 s c' w'). }
  destruct e; try discriminate.
  - destruct (auto_reconnect (mark_down c) && retry);
      [exact Hrec | discriminate].
  - destruct (auto_reconnect c && retry); [exact Hrec | discriminate].
Qed.

Lemma body_answered (retry : bool) (c c' : RCONClient) (w w' : World)
    (s : str) :
  _execute_internal_body self_call command retry c w = (Ok s, c', w') ->
  answered command s w w'.
Proof.
  rewrite body_unfold.
  destruct (_execute_precheck retry c w) as [[[[] | e] c0] w0] eqn:Hp;
    [| discriminate].
  pose proof (precheck_spec _ _ _ _ _ _ Hp) as (_ & Pg & _).
  apply exec_bounded_grows, exec_bounded_prefix in Pg.
  destruct (_execute_attempt command c0 w0) as [[[s1 | e] c1] w1] eqn:Ha;
    pose proof (attempt_spec _ _ _ _ _ _ Ha) as (_ & _ & _ & _ & At);
    intros H.
  - inv_run H. apply (answered_after _ _ _ w0); [assumption |].
    eapply attempt_answered; eassumption.
  - apply (answered_after _ _ _ w0); [assumption |].
    apply attempt_bounded, exec_bounded_prefix in At.
    apply (answered_after _ _ _ w1); [assumption |].
    eapply except_answered; eassumption.
Qed.

End RecursiveCallAnswered.

(** C10.  A call of [_execute_internal] ([execute] is the call with
    [retry=True]) that returns a string returns the payload of one packet:
    the trace of the call ends with the write of the command frame under
    some request ID, then received packets that all carry another ID (they
    are skipped), then the first received packet that carries that ID, and
    the result is the payload of that packet; nothing is received after
    it. *)
Theorem execute_returns_first_matching_payload (command : str)
    (retry : bool) (c c' : RCONClient) (w w' : World) (s : str) :
  _execute_internal command retry c w = (Ok s, c', w') ->
  answered command s w w'.
Proof.
  intros H. unfold _execute_internal in H.
  apply body_answered in H; [assumption |].
  clear. intros c w s c' w' H. unfold _execute_internal_once in H.
  apply body_answered in H; [assumption |].
  intros ? ? ? ? ? E. discriminate E.
Qed.

Lemma encode_other_id (a b t : Z) (s : str) (data : bytes) :
  encode (mkPacket a t s) = Ok data ->
  in_int32 b = true ->
  exists data', encode (mkPacket b t s) = Ok data'.
Proof.
  intros He Hb.
  destruct (encode_shape _ _ He) as (utf8 & Hu & _ & Ht & Hs & _).
  eexists. now apply (encode_ok (mkPacket b t s) utf8).
Qed.

Lemma next_id_in_int32 (c : RCONClient) :
  in_int32 ((_request_id c + 1) mod 2147483647) = true.
Proof.
  apply in_int32_bounds. pose proof (next_request_id_range c). lia.
Qed.

(** An attempt on a client that has its writer, for a command that can be
    framed: the frame is written, once, and only packets are received
    after it. *)
Lemma attempt_writes (command : str) (c c' : RCONClient) (w w' : World)
    (r : result str) (data : bytes) :
  _writer c <> None ->
  encode (mkPacket ((_request_id c + 1) mod 2147483647)
                   SERVERDATA_EXECCOMMAND command) = Ok data ->
  _execute_attempt command c w = (r, c', w') ->
  exists recvs, trace w' = trace w ++ EvWrite data :: map EvRecv recvs.
Proof.
  intros Hw He Ha.
  pose proof (attempt_spec _ _ _ _ _ _ Ha) as (_ & _ & _ & _ & At).
  destruct At as [[-> Hn] | (data' & sk & He' & _ & Hr)].
  - exfalso. revert Ha. unfold _execute_attempt, _execute_try, bind.
    rewrite next_request_id_value.
    destruct (send_writes _ (set_request_id c ((_request_id c + 1) mod 2147483647))
                w data Hw He) as (r0 & c1 & Hs).
    rewrite Hs. destruct r0 as [[] | e].
    + destruct (_collect _ [] c1 (emit (EvWrite data) w))
        as [[[l | e] c2] w2] eqn:Hc;
        pose proof (collect_spec _ _ _ _ _ _ _ Hc)
          as (_ & _ & _ & _ & _ & _ & sk & _ & Hr);
        intros H; unfold ret in H; inv_run H.
      * destruct Hr as (p & _ & _ & Ht). cbn [emit trace] in Ht.
        rewrite <- app_assoc in Ht.
        rewrite <- (app_nil_r (trace w)) in Ht at 1.
        apply app_inv_head in Ht. discriminate.
      * cbn [emit trace] in Hr. rewrite <- app_assoc in Hr.
        rewrite <- (app_nil_r (trace w)) in Hr at 1.
        apply app_inv_head in Hr. discriminate.
    + intros H. inv_run H.
      assert (Ht : trace w = trace (emit (EvWrite data) w)) by congruence.
      cbn [emit trace] in Ht.
      rewrite <- (app_nil_r (trace w)) in Ht at 1.
      apply app_inv_head in Ht. discriminate.
  - rewrite He in He'. apply Ok_inj in He'. subst data'.
    destruct r as [s | e].
    + destruct Hr as (p & _ & _ & Ht). exists (sk ++ [p]).
      now rewrite map_app.
    + now exists sk.
Qed.

(** C1.  One call of [execute] writes at most two command frames, whatever
    the client and the environment.  When auto-reconnect is enabled, the
    first attempt has written the command frame and raises a connection
    error, and the reconnection then succeeds, [execute] continues as the
    call with [retry=False] on the new connection, and from there on the
    trace holds exactly one write, that of the frame of the same command
    under the next request ID, followed only by received packets. *)
Theorem execute_sends_command_at_most_twice (command : str)
    (c : RCONClient) (w : World) :
  (count is_exec_write (trace (run_world (execute command c w)))
   <= count is_exec_write (trace w) + 2)%nat
  /\ forall c0 w0 c1 w1 c2 w2 data0 rest0,
      auto_reconnect c = true ->
      _execute_precheck true c w = (Ok tt, c0, w0) ->
      _execute_attempt command c0 w0 = (Raise RCONConnectionError, c1, w1) ->
      trace w1 = trace w0 ++ EvWrite data0 :: rest0 ->
      _reconnect (mark_down c1) w1 = (Ok true, c2, w2) ->
      execute command c w = _execute_internal command false c2 w2
      /\ exists data recvs,
          encode (mkPacket ((_request_id c2 + 1) mod 2147483647)
                           SERVERDATA_EXECCOMMAND command) = Ok data
          /\ trace (run_world (execute command c w))
             = trace w2 ++ EvWrite data :: map EvRecv recvs.
Proof.
  split.
  - destruct (execute command c w) as [[r c'] w'] eqn:H.
    apply execute_bounded in H. destruct H as [(d & Ht & Hb) _].
    unfold run_world. cbn [snd]. rewrite Ht, count_app. lia.
  - intros c0 w0 c1 w1 c2 w2 data0 rest0 Hauto Hp Ha Hsent Hr.
    pose proof (precheck_spec _ _ _ _ _ _ Hp) as ((_ & Pa & _) & _).
    pose proof (attempt_spec _ _ _ _ _ _ Ha) as ((_ & Aa & _) & _ & _ & _ & At).
    assert (Hauto1 : auto_reconnect (mark_down c1) = true)
      by (cbn; congruence).
    assert (Hrun : execute command c w = _execute_internal command false c2 w2).
    { unfold execute, _execute_internal at 1. rewrite body_unfold, Hp, Ha.
      unfold _execute_except, bind. rewrite Hauto1. cbn [andb].
      rewrite Hr. unfold _execute_internal. apply body_no_retry. }
    split; [exact Hrun |].
    destruct At as [[-> _] | (data1 & _ & He1 & _)].
    { rewrite <- (app_nil_r (trace w0)) in Hsent at 1.
      apply app_inv_head in Hsent. discriminate. }
    destruct (encode_other_id _ ((_request_id c2 + 1) mod 2147483647) _ _ _
                He1 (next_id_in_int32 c2)) as (data & He).
    pose proof (reconnect_spec _ _ _ _ _ Hr) as (_ & _ & Hup).
    destruct (Hup eq_refl) as [Hconn Hwr].
    exists data. rewrite Hrun.
    unfold _execute_internal. rewrite body_unfold.
    unfold _execute_precheck. rewrite Hconn. cbn [negb].
    destruct (_execute_attempt command c2 w2) as [[[s | e] c3] w3] eqn:Ha2;
      destruct (attempt_writes _ _ _ _ _ _ _ Hwr He Ha2) as (recvs & Ht);
      exists recvs; (split; [exact He |]).
    + exact Ht.
    + rewrite except_no_retry. exact Ht.
Qed.

Lemma execute_sends_command_at_most_twice_witness :
  let up := connect client_fresh world_dropping in
  let c := run_client up in
  let w := run_world up in
  let a := _execute_attempt (py "list") c w in
  let re := _reconnect (mark_down (run_client a)) (run_world a) in
  execute (py "list") c w
  = _execute_internal (py "list") false (run_client re) (run_world re)
  /\ exists data recvs,
      encode (mkPacket ((_request_id (run_client re) + 1) mod 2147483647)
                       SERVERDATA_EXECCOMMAND (py "list")) = Ok data
      /\ trace (run_world (execute (py "list") c w))
         = trace (run_world re) ++ EvWrite data :: map EvRecv recvs.
Proof.
  intros up c w a re.
  apply (proj2 (execute_sends_command_at_most_twice (py "list") c w)
           c w (run_client a) (run_world a) (run_client re) (run_world re)
           [14; 0; 0; 0; 2; 0; 0; 0; 2; 0; 0; 0; 108; 105; 115; 116; 0; 0] []).
  - vm_compute. reflexivity.
  - vm_compute. reflexivity.
  - vm_compute. reflexivity.
  - vm_compute. reflexivity.
  - vm_compute. reflexivity.
Defined.

Lemma execute_returns_first_matching_payload_witness :
  answered (py "list") players_line world_accepting
           (run_world (execute (py "list") client_fresh world_accepting)).
Proof.
  apply (execute_returns_first_matching_payload (py "list") true client_fresh
           (run_client (execute (py "list") client_fresh world_accepting))).
  vm_compute. reflexivity.
Defined.

(** ** The handshake and reconnection *)

Lemma grows_handshake_counts (w w' : World) :
  grows is_handshake_io w w' ->
  count is_open (trace w') = count is_open (trace w)
  /\ count is_reconnect_sleep (trace w') = count is_reconnect_sleep (trace w)
  /\ count is_exec_write (trace w') = count is_exec_write (trace w).
Proof.
  intros H. splits; apply grows_count; eapply grows_weaken; try exact H.
  - apply handshake_io_not_open.
  - apply handshake_io_not_sleep.
  - apply handshake_io_not_exec.
Qed.

(** C5.  In a run of [connect] where the response that [_authenticate]
    examines carries request ID -1, [connect] raises
    [RCONAuthenticationError]; afterwards [_connected] is false, so
    [is_connected] is false; the run has called [open_connection] once and
    has made no reconnection attempt. *)
Theorem connect_rejected_credential (c : RCONClient) (w : World)
    (response : RCONPacket) :
  authoritative_response c w = Some response ->
  request_id response = -1 ->
  run_result (connect c w) = Raise RCONAuthenticationError
  /\ _connected (run_client (connect c w)) = false
  /\ is_connected (run_client (connect c w)) = false
  /\ count is_open (trace (run_world (connect c w)))
     = S (count is_open (trace w))
  /\ count is_reconnect_sleep (trace (run_world (connect c w)))
     = count is_reconnect_sleep (trace w).
Proof.
  unfold authoritative_response, connect, _connect_internal.
  destruct (_connected c); [discriminate |].
  cbn [emit pending trace].
  destruct (pending w) as [| [rx tx | |] rest]; try discriminate.
  rewrite authenticate_unfold. cbv zeta.
  unfold bind at 1. rewrite next_request_id_value.
  cbn [password set_request_id set_connected set_writer set_reader _request_id].
  match goal with
  | |- context [_authenticate_exchange ?p ?c1 ?w1] =>
      destruct (_authenticate_exchange p c1 w1) as [[[resp | e] c2] w2] eqn:Hx
  end; [| discriminate].
  intros Hs Hid. apply Some_inj in Hs. subst resp.
  apply Z.eqb_eq in Hid. rewrite Hid.
  pose proof (fun Ht => exchange_spec _ _ _ _ _ _ Ht Hx) as X.
  specialize (X eq_refl). destruct X as (_ & _ & _ & _ & _ & Xg).
  destruct (grows_handshake_counts _ _ Xg) as (Ho & Hsl & _).
  cbn [trace] in Ho, Hsl. rewrite count_app in Ho, Hsl.
  unfold run_result, run_client, run_world. cbn [fst snd].
  splits; try reflexivity.
  - rewrite Ho. cbn. lia.
  - rewrite Hsl. cbn. lia.
Qed.

Lemma connect_rejected_credential_witness :
  run_result (connect client_fresh world_rejecting)
  = Raise RCONAuthenticationError
  /\ _connected (run_client (connect client_fresh world_rejecting)) = false
  /\ is_connected (run_client (connect client_fresh world_rejecting)) = false
  /\ count is_open (trace (run_world (connect client_fresh world_rejecting)))
     = S (count is_open (trace world_rejecting))
  /\ count is_reconnect_sleep
       (trace (run_world (connect client_fresh world_rejecting)))
     = count is_reconnect_sleep (trace world_rejecting).
Proof.
  apply (connect_rejected_credential client_fresh world_rejecting
           (mkPacket (-1) SERVERDATA_AUTH_RESPONSE [])).
  - vm_compute. reflexivity.
  - reflexivity.
Defined.

(** C8, counterexample.  The first packet of the handshake is a
    [ResponseValue] packet with the payload "hello" and the ID of the
    [Auth] packet; it is discarded all the same, the second packet is the
    one examined, and [connect] raises [RCONAuthenticationError] where the
    first packet would have passed both checks. *)
Lemma handshake_discards_nonempty_response_value :
  authoritative_response client_fresh world_chatty
  = Some (mkPacket (-1) SERVERDATA_AUTH_RESPONSE [])
  /\ run_result (connect client_fresh world_chatty)
     = Raise RCONAuthenticationError
  /\ filter is_recv (trace (run_world (connect client_fresh world_chatty)))
     = [EvRecv (mkPacket 1 SERVERDATA_RESPONSE_VALUE (py "hello"));
        EvRecv (mkPacket (-1) SERVERDATA_AUTH_RESPONSE [])].
Proof. splits; vm_compute; reflexivity. Qed.

(** C8, as amended.  In every handshake — a run of [connect] that opens
    a transport, hence a run of [_authenticate] on it — in which the
    [Auth] packet is sent and a first packet is received, the first packet
    is discarded exactly when its type is [SERVERDATA_RESPONSE_VALUE],
    whatever its payload and its request ID: the two checks on the request
    ID are then made on the packet that the next [_receive_packet] gives,
    whatever the type of that one, and an exception of that read ends the
    handshake; a first packet of any other type is itself the response on
    which the two checks are made.  The handshake receives at most two
    packets, so at most one is discarded. *)
Theorem handshake_discards_by_type (c c1 c2 : RCONClient)
    (w w1 w2 : World) (rx : list rx_item) (tx : list drain_outcome)
    (rest : list conn_script) (first : RCONPacket) :
  _connected c = false ->
  pending w = ConnOk rx tx :: rest ->
  let auth_id := (_request_id c + 1) mod 2147483647 in
  let opened :=
    set_connected (set_writer (set_reader c (Some rx)) (Some tx)) true in
  let w0 := mkWorld rest (trace w ++ [EvOpen]) in
  _send_packet (mkPacket auth_id SERVERDATA_AUTH (password c))
               (set_request_id opened auth_id) w0 = (Ok tt, c1, w1) ->
  _receive_packet c1 w1 = (Ok first, c2, w2) ->
  let checks :=
    fun (response : RCONPacket) (c3 : RCONClient) (w3 : World) =>
      if request_id response =? auth_id
      then (Ok tt, set_authenticated c3 true, w3)
      else (Raise RCONAuthenticationError,
            mark_down (set_connected c3 false), w3) in
  let outcome :=
    if packet_type first =? SERVERDATA_RESPONSE_VALUE
    then match _receive_packet c2 w2 with
         | (Ok second, c3, w3) => checks second c3 w3
         | (Raise e, c3, w3) =>
             (Raise e, if is_RCONError e then mark_down c3 else c3, w3)
         end
    else checks first c2 w2 in
  _authenticate opened w0 = outcome
  /\ connect c w = outcome
  /\ (count is_recv (trace (run_world (connect c w)))
      <= count is_recv (trace w) + 2)%nat.
Proof.
  intros Hc Hp auth_id opened w0 Hs Hr checks outcome.
  pose proof (next_request_id_range c) as Hrange. fold auth_id in Hrange.
  assert (Hchecks : forall (response : RCONPacket) (c3 : RCONClient)
                           (w3 : World),
             (if request_id response =? -1
              then (Raise RCONAuthenticationError,
                    mark_down (set_connected c3 false), w3)
              else if negb (request_id response =? auth_id)
                   then (Raise RCONAuthenticationError,
                         mark_down (set_connected c3 false), w3)
                   else (Ok tt, set_authenticated c3 true, w3))
             = checks response c3 w3).
  { intros response c3 w3. unfold checks.
    destruct (Z.eqb_spec (request_id response) (-1)) as [E1 | E1];
      destruct (Z.eqb_spec (request_id response) auth_id) as [E2 | E2];
      try reflexivity.
    exfalso. lia. }
  assert (Ea : _authenticate opened w0 = outcome).
  { rewrite authenticate_unfold. cbv zeta.
    change (_request_id opened) with (_request_id c).
    change (password opened) with (password c). fold auth_id.
    unfold _authenticate_exchange, bind, ret. rewrite Hs, Hr.
    unfold outcome.
    destruct (packet_type first =? SERVERDATA_RESPONSE_VALUE).
    - destruct (_receive_packet c2 w2) as [[[second | e] c3] w3].
      + apply Hchecks.
      + destruct (is_RCONError e); reflexivity.
    - apply Hchecks. }
  assert (Ec : connect c w = outcome).
  { unfold connect, _connect_internal. rewrite Hc.
    cbn [emit pending trace]. rewrite Hp. exact Ea. }
  splits; [exact Ea | exact Ec |]. rewrite Ec.
  destruct (send_trace _ _ _ _ _ _ Hs) as [[_ Hn] | (data & _ & E1)];
    [now contradiction Hn |].
  pose proof (recv_trace _ _ _ _ _ Hr) as E2. cbn in E2.
  assert (Hw2 : count is_recv (trace w2) = S (count is_recv (trace w))).
  { rewrite E2, E1. unfold w0. cbn [emit trace]. rewrite !count_app.
    unfold count. cbn. lia. }
  assert (Hout : forall (response : RCONPacket) (c3 : RCONClient)
                        (w3 : World),
             trace (run_world (checks response c3 w3)) = trace w3).
  { intros response c3 w3. unfold checks.
    destruct (request_id response =? auth_id); reflexivity. }
  unfold outcome.
  destruct (packet_type first =? SERVERDATA_RESPONSE_VALUE).
  - destruct (_receive_packet c2 w2) as [[[second | e] c3] w3] eqn:Hr2;
      pose proof (recv_trace _ _ _ _ _ Hr2) as E3; cbn in E3.
    + rewrite Hout, E3. cbn [emit trace]. rewrite count_app, Hw2.
      unfold count. cbn. lia.
    + unfold run_world. cbn [snd]. rewrite E3, Hw2. lia.
  - rewrite Hout, Hw2. lia.
Qed.

Lemma handshake_discards_by_type_witness :
  let first := mkPacket 1 SERVERDATA_RESPONSE_VALUE (py "hello") in
  let rx := frame_of (mkPacket 1 SERVERDATA_RESPONSE_VALUE (py "hello"))
            ++ frame_of (mkPacket (-1) SERVERDATA_AUTH_RESPONSE []) in
  let auth_id := (_request_id client_fresh + 1) mod 2147483647 in
  let opened :=
    set_connected
      (set_writer (set_reader client_fresh (Some rx)) (Some [])) true in
  let w0 := mkWorld [] (trace world_chatty ++ [EvOpen]) in
  let sent :=
    _send_packet (mkPacket auth_id SERVERDATA_AUTH (password client_fresh))
                 (set_request_id opened auth_id) w0 in
  let got := _receive_packet (run_client sent) (run_world sent) in
  let checks :=
    fun (response : RCONPacket) (c3 : RCONClient) (w3 : World) =>
      if request_id response =? auth_id
      then (Ok tt, set_authenticated c3 true, w3)
      else (Raise RCONAuthenticationError,
            mark_down (set_connected c3 false), w3) in
  let outcome :=
    if packet_type first =? SERVERDATA_RESPONSE_VALUE
    then match _receive_packet (run_client got) (run_world got) with
         | (Ok second, c3, w3) => checks second c3 w3
         | (Raise e, c3, w3) =>
             (Raise e, if is_RCONError e then mark_down c3 else c3, w3)
         end
    else checks first (run_client got) (run_world got) in
  _authenticate opened w0 = outcome
  /\ connect client_fresh world_chatty = outcome
  /\ (count is_recv (trace (run_world (connect client_fresh world_chatty)))
      <= count is_recv (trace world_chatty) + 2)%nat.
Proof.
  intros first rx auth_id opened w0 sent got.
  apply (handshake_discards_by_type
           client_fresh (run_client sent) (run_client got)
           world_chatty (run_world sent) (run_world got) rx [] [] first).
  - reflexivity.
  - reflexivity.
  - vm_compute. reflexivity.
  - vm_compute. reflexivity.
Defined.




(** ** Timeouts and the propagation of errors *)

Lemma is_connected_down (c : RCONClient) :
  _connected c = false -> is_connected c = false.
Proof. intros H. unfold is_connected. now rewrite H. Qed.

(** C6, counterexample.  With auto-reconnect disabled, [execute] on a
    connection whose server stays silent raises [RCONTimeoutError] and
    leaves [is_connected] true; a second [execute] then writes its command
    frame with no call of [open_connection] in between. *)
Lemma timeout_keeps_connection_up :
  let up := connect client_no_reconnect world_stalling in
  let out := execute (py "list") (run_client up) (run_world up) in
  let again := execute (py "list") (run_client out) (run_world out) in
  run_result out = Raise RCONTimeoutError
  /\ is_connected (run_client out) = true
  /\ count is_open (trace (run_world again))
     = count is_open (trace (run_world out))
  /\ count is_exec_write (trace (run_world again))
     = S (count is_exec_write (trace (run_world out))).
Proof. cbv zeta. splits; vm_compute; reflexivity. Qed.

(** C6, as amended.  A timeout error raised by [connect] leaves
    [is_connected] false.  A timeout error raised by [_execute_internal]
    with auto-reconnect disabled, or in the call with [retry=False],
    leaves both connection flags as they were, and [is_connected] true.
    With auto-reconnect enabled, a first attempt of [execute] that times
    out marks the connection down and starts the reconnection; when the
    reconnection fails, the timeout error is raised with [is_connected]
    false. *)
Theorem timeout_and_connection_state (command : str) (c : RCONClient)
    (w : World) :
  (run_result (connect c w) = Raise RCONTimeoutError ->
   is_connected (run_client (connect c w)) = false)
  /\ (forall retry,
        auto_reconnect c && retry = false ->
        run_result (_execute_internal command retry c w)
        = Raise RCONTimeoutError ->
        keeps_flags c (run_client (_execute_internal command retry c w))
        /\ is_connected (run_client (_execute_internal command retry c w))
           = true)
  /\ (forall c1 w1 c2 w2,
        auto_reconnect c = true ->
        is_connected c = true ->
        _execute_attempt command c w = (Raise RCONTimeoutError, c1, w1) ->
        _reconnect (mark_down c1) w1 = (Ok false, c2, w2) ->
        execute command c w = (Raise RCONTimeoutError, c2, w2)
        /\ is_connected c2 = false).
Proof.
  splits.
  - unfold connect. destruct (_connected c) eqn:Hc.
    + rewrite (connect_connected _ _ Hc). discriminate.
    + destruct (_connect_internal c w) as [[r c'] w'] eqn:H.
      destruct (connect_spec _ _ _ _ _ Hc H) as (_ & _ & Hr).
      unfold run_result, run_client. cbn [fst snd]. intros ->.
      apply is_connected_down. now apply Hr.
  - intros retry Hoff. unfold _execute_internal.
    rewrite body_unfold. unfold _execute_precheck. rewrite Hoff.
    destruct (is_connected c) eqn:Hup; cbn [negb]; [| discriminate].
    destruct (_execute_attempt command c w) as [[[s | e] c1] w1] eqn:Ha;
      [discriminate |].
    pose proof (attempt_spec _ _ _ _ _ _ Ha) as ((_ & Aa & _) & _ & _ & Af & _).
    unfold _execute_except. cbn [mark_down set_authenticated set_connected
                                   auto_reconnect].
    rewrite Aa, Hoff.
    destruct e; unfold run_result, run_client; cbn [fst snd];
      try discriminate.
    intros _. specialize (Af ltac:(discriminate)). split; [exact Af |].
    destruct Af as [F1 F2]. unfold is_connected in *.
    now rewrite F1, F2.
  - intros c1 w1 c2 w2 Hauto Hup Ha Hr.
    pose proof (attempt_spec _ _ _ _ _ _ Ha) as ((_ & Aa & _) & _).
    pose proof (reconnect_spec _ _ _ _ _ Hr) as (_ & _ & Hdown).
    split.
    + unfold execute, _execute_internal. rewrite body_unfold.
      unfold _execute_precheck. rewrite Hup. cbn [negb]. rewrite Ha.
      unfold _execute_except, bind. rewrite Aa, Hauto. cbn [andb].
      now rewrite Hr.
    + apply is_connected_down. now apply Hdown.
Qed.

Lemma timeout_and_connection_state_witness :
  let up := connect client_fresh world_vanishing in
  let c := run_client up in
  let w := run_world up in
  let a := _execute_attempt (py "list") c w in
  let re := _reconnect (mark_down (run_client a)) (run_world a) in
  let up' := connect client_no_reconnect world_stalling in
  is_connected (run_client (connect client_fresh world_silent)) = false
  /\ (keeps_flags (run_client up')
        (run_client (_execute_internal (py "list") true
                       (run_client up') (run_world up')))
      /\ is_connected
           (run_client (_execute_internal (py "list") true
                          (run_client up') (run_world up')))
         = true)
  /\ (execute (py "list") c w
      = (Raise RCONTimeoutError, run_client re, run_world re)
      /\ is_connected (run_client re) = false).
Proof.
  intros up c w a re up'. split; [| split].
  - apply (proj1 (timeout_and_connection_state (py "list") client_fresh
                    world_silent)).
    vm_compute. reflexivity.
  - apply (proj1 (proj2 (timeout_and_connection_state (py "list")
                           (run_client up') (run_world up'))) true).
    + vm_compute. reflexivity.
    + vm_compute. reflexivity.
  - apply (proj2 (proj2 (timeout_and_connection_state (py "list") c w))
             (run_client a) (run_world a) (run_client re) (run_world re)).
    + vm_compute. reflexivity.
    + vm_compute. reflexivity.
    + vm_compute. reflexivity.
    + vm_compute. reflexivity.
Defined.

(** C7, counterexample.  With auto-reconnect enabled, the first attempt of
    the command raises [RCONTimeoutError]; [execute] then reconnects,
    sends the command a second time and returns the response. *)
Lemma timeout_is_retried_after_reconnection :
  let up := connect client_fresh world_stalling in
  let c := run_client up in
  let w := run_world up in
  run_result (_execute_attempt (py "list") c w) = Raise RCONTimeoutError
  /\ run_result (execute (py "list") c w) = Ok players_line
  /\ count is_reconnect_sleep (trace (run_world (execute (py "list") c w)))
     = 1%nat
  /\ count is_exec_write (trace (run_world (execute (py "list") c w)))
     = 2%nat.
Proof. cbv zeta. splits; vm_compute; reflexivity. Qed.

(** C7, as amended.  When the attempt of a command raises an exception
    that is neither a connection error nor a timeout error,
    [_execute_internal] raises it at once, with the client and the trace
    as the attempt left them: no retry, no reconnection.  The same holds
    for a timeout error when auto-reconnect is disabled or the call is the
    retry.  A timeout error on the first attempt with auto-reconnect
    enabled marks the connection down and starts the reconnection, and the
    command is run again if it succeeds. *)
Theorem execute_error_propagation (command : str) (retry : bool)
    (c c0 c1 : RCONClient) (w w0 w1 : World) (e : exn) :
  _execute_precheck retry c w = (Ok tt, c0, w0) ->
  _execute_attempt command c0 w0 = (Raise e, c1, w1) ->
  (e <> RCONConnectionError -> e <> RCONTimeoutError ->
   _execute_internal command retry c w = (Raise e, c1, w1))
  /\ (e = RCONTimeoutError -> auto_reconnect c1 && retry = false ->
      _execute_internal command retry c w = (Raise e, c1, w1))
  /\ (e = RCONTimeoutError -> auto_reconnect c1 && retry = true ->
      _execute_internal command retry c w
      = (ok <- _reconnect ;;
         if ok then _execute_internal command false else raise e)
          (mark_down c1) w1).
Proof.
  intros Hp Ha. splits.
  - intros Hc Ht. unfold _execute_internal.
    rewrite body_unfold, Hp, Ha. unfold _execute_except.
    destruct e; try reflexivity; contradiction.
  - intros -> Hoff. unfold _execute_internal.
    rewrite body_unfold, Hp, Ha. unfold _execute_except. now rewrite Hoff.
  - intros -> Hon. unfold _execute_internal at 1.
    rewrite body_unfold, Hp, Ha. unfold _execute_except. rewrite Hon.
    unfold bind.
    destruct (_reconnect (mark_down c1) w1) as [[[[|] | e] c2] w2];
      try reflexivity.
    unfold _execute_internal. apply body_no_retry.
Qed.

Lemma execute_error_propagation_witness :
  let up := connect client_fresh world_oversized in
  let a := _execute_attempt (py "list") (run_client up) (run_world up) in
  let up' := connect client_no_reconnect world_stalling in
  let a' := _execute_attempt (py "list") (run_client up') (run_world up') in
  let up'' := connect client_fresh world_stalling in
  let a'' := _execute_attempt (py "list") (run_client up'') (run_world up'') in
  _execute_internal (py "list") true (run_client up) (run_world up)
  = (Raise RCONError, run_client a, run_world a)
  /\ _execute_internal (py "list") true (run_client up') (run_world up')
     = (Raise RCONTimeoutError, run_client a', run_world a')
  /\ _execute_internal (py "list") true (run_client up'') (run_world up'')
     = (ok <- _reconnect ;;
        if ok then _execute_internal (py "list") false
        else raise RCONTimeoutError)
         (mark_down (run_client a'')) (run_world a'').
Proof.
  intros up a up' a' up'' a''. split; [| split].
  - apply (proj1 (execute_error_propagation (py "list") true
                    (run_client up) (run_client up) (run_client a)
                    (run_world up) (run_world up) (run_world a) RCONError
                    ltac:(vm_compute; reflexivity)
                    ltac:(vm_compute; reflexivity))).
    + discriminate.
    + discriminate.
  - apply (proj1 (proj2 (execute_error_propagation (py "list") true
                    (run_client up') (run_client up') (run_client a')
                    (run_world up') (run_world up') (run_world a')
                    RCONTimeoutError
                    ltac:(vm_compute; reflexivity)
                    ltac:(vm_compute; reflexivity)))).
    + reflexivity.
    + vm_compute. reflexivity.
  - apply (proj2 (proj2 (execute_error_propagation (py "list") true
                    (run_client up'') (run_client up'') (run_client a'')
                    (run_world up'') (run_world up'') (run_world a'')
                    RCONTimeoutError
                    ltac:(vm_compute; reflexivity)
                    ltac:(vm_compute; reflexivity)))).
    + reflexivity.
    + vm_compute. reflexivity.
Defined.

(** * Further properties *)

(** ** The validators *)

Lemma re_repeat_spec (class : Z -> bool) (rest : str -> bool) (hi : nat) :
  forall (lo : nat) (s : str),
    re_repeat class rest lo hi s = true
    <-> exists k,
        (lo <= k <= hi)%nat /\ (k <= length s)%nat
        /\ forallb class (firstn k s) = true
        /\ rest (skipn k s) = true.
Proof.
  induction hi as [| hi IH]; intros lo s; cbn [re_repeat].
  - rewrite orb_false_r. split.
    + destruct lo; [| discriminate]. intros H. exists 0%nat.
      splits; try lia. reflexivity. exact H.
    + intros (k & Hk & _ & _ & Hr). assert (k = 0%nat) by lia. subst k.
      destruct lo; [exact Hr | lia].
  - split.
    + intros H. apply orb_true_iff in H. destruct H as [H | H].
      * destruct lo; [| discriminate]. exists 0%nat.
        splits; try lia. reflexivity. exact H.
      * destruct s as [| c s]; [discriminate |].
        apply andb_true_iff in H. destruct H as [Hc H].
        apply IH in H. destruct H as (k & Hk & Hlen & Hall & Hr).
        exists (S k). cbn [length firstn skipn forallb].
        splits; try lia. now rewrite Hc. exact Hr.
    + intros (k & Hk & Hlen & Hall & Hr). apply orb_true_iff.
      destruct k as [| k].
      * left. destruct lo; [exact Hr | lia].
      * right. destruct s as [| c s]; [cbn in Hlen; lia |].
        cbn [firstn forallb skipn length] in *.
        apply andb_true_iff in Hall. destruct Hall as [Hc Hall].
        rewrite Hc. cbn [andb]. apply IH. exists k. splits; try lia; assumption.
Qed.

Lemma re_at_end_spec (s : str) :
  re_at_end s = true <-> s = [] \/ s = [10].
Proof.
  destruct s as [| c [| d s]]; cbn [re_at_end].
  - split; auto.
  - split.
    + intros H. apply Z.eqb_eq in H. subst c. now right.
    + intros [H | H]; [discriminate |]. inv_run H. reflexivity.
  - split; [discriminate |]. intros [H | H]; discriminate.
Qed.

(** X1.  [validate_minecraft_username] accepts exactly the strings made of 3 to
    16 characters of [[a-zA-Z0-9_]], and those strings followed by one
    newline ([$] also matches just before a final newline). *)
Theorem validate_minecraft_username_accepts (username : str) :
  validate_minecraft_username username = true
  <-> exists name,
      (username = name \/ username = name ++ [10])
      /\ (3 <= length name <= 16)%nat
      /\ forallb username_char name = true.
Proof.
  unfold validate_minecraft_username, MINECRAFT_USERNAME_PATTERN.
  cbn [re_match]. rewrite re_repeat_spec. split.
  - intros (k & Hk & Hlen & Hall & Hend).
    rewrite andb_true_r in Hend. apply re_at_end_spec in Hend.
    exists (firstn k username).
    rewrite length_firstn, Nat.min_l by assumption.
    splits; try lia; [| assumption].
    rewrite <- (firstn_skipn k username) at 1 3.
    destruct Hend as [-> | ->]; [left; now rewrite app_nil_r | now right].
  - intros (name & Hu & Hlen & Hall). exists (length name).
    assert (E : firstn (length name) username = name
                /\ (skipn (length name) username = []
                    \/ skipn (length name) username = [10])).
    { destruct Hu as [-> | ->].
      - rewrite firstn_all, skipn_all. auto.
      - rewrite firstn_app, firstn_all, Nat.sub_diag, skipn_app, skipn_all,
          Nat.sub_diag. cbn [firstn skipn app]. rewrite app_nil_r. auto. }
    destruct E as [Ef Es]. rewrite Ef. splits; try lia.
    + destruct Hu as [-> | ->]; [lia | rewrite length_app; lia].
    + assumption.
    + rewrite andb_true_r. now apply re_at_end_spec.
Qed.

(** *** Stripping *)

Lemma lstrip_suffix (s : str) :
  exists pre, s = pre ++ lstrip s /\ forallb py_isspace pre = true.
Proof.
  induction s as [| c s (pre & E & Hp)]; cbn [lstrip].
  - now exists [].
  - destruct (py_isspace c) eqn:Hc.
    + exists (c :: pre). cbn [app forallb]. rewrite Hc, Hp.
      split; [now rewrite <- E | reflexivity].
    + now exists [].
Qed.

Lemma lstrip_head (s : str) : head_nonspace (lstrip s).
Proof.
  induction s as [| c s IH]; cbn [lstrip]; [exact I |].
  destruct (py_isspace c) eqn:Hc; [exact IH | exact Hc].
Qed.

Lemma lstrip_fixed (s : str) : head_nonspace s -> lstrip s = s.
Proof.
  destruct s as [| c s]; cbn [head_nonspace lstrip]; [reflexivity |].
  now intros ->.
Qed.

Lemma lstrip_snoc (l : str) (c : Z) :
  py_isspace c = false -> lstrip (l ++ [c]) = lstrip l ++ [c].
Proof.
  intros Hc. induction l as [| d l IH]; cbn [app lstrip].
  - now rewrite Hc.
  - destruct (py_isspace d); [exact IH | reflexivity].
Qed.

Lemma rstrip_cons_nonspace (c : Z) (t : str) :
  py_isspace c = false -> rstrip (c :: t) = c :: rstrip t.
Proof.
  intros Hc. unfold rstrip. cbn [rev].
  now rewrite lstrip_snoc, rev_app_distr.
Qed.

Lemma rstrip_head (s : str) : head_nonspace s -> head_nonspace (rstrip s).
Proof.
  destruct s as [| c s]; cbn [head_nonspace]; [intros _; exact I |].
  intros Hc. now rewrite rstrip_cons_nonspace.
Qed.

Lemma rstrip_idem (s : str) : rstrip (rstrip s) = rstrip s.
Proof.
  unfold rstrip. rewrite rev_involutive.
  now rewrite (lstrip_fixed _ (lstrip_head _)).
Qed.

Lemma strip_head (s : str) : head_nonspace (strip s).
Proof. apply rstrip_head, lstrip_head. Qed.

(** [strip] leaves a stripped string alone. *)
Lemma strip_idem (s : str) : strip (strip s) = strip s.
Proof.
  unfold strip at 1. rewrite (lstrip_fixed _ (strip_head s)).
  unfold strip. apply rstrip_idem.
Qed.

Lemma lstrip_In (x : Z) (s : str) : In x (lstrip s) -> In x s.
Proof.
  destruct (lstrip_suffix s) as (pre & E & _). intros H.
  rewrite E. apply in_or_app. now right.
Qed.

Lemma lstrip_length (s : str) : (length (lstrip s) <= length s)%nat.
Proof.
  destruct (lstrip_suffix s) as (pre & E & _).
  rewrite E at 2. rewrite length_app. lia.
Qed.

Lemma strip_In (x : Z) (s : str) : In x (strip s) -> In x s.
Proof.
  unfold strip, rstrip. intros H.
  apply in_rev, lstrip_In, in_rev in H. now apply lstrip_In.
Qed.

Lemma strip_length (s : str) : (length (strip s) <= length s)%nat.
Proof.
  unfold strip, rstrip. rewrite length_rev.
  etransitivity; [apply lstrip_length |]. rewrite length_rev.
  apply lstrip_length.
Qed.

(** *** [sanitize_rcon_input] *)

Lemma replace_char_empty (ch : Z) (v : str) :
  str_replace_char ch [] v = filter (fun c => negb (c =? ch)) v.
Proof.
  unfold str_replace_char. induction v as [| c v IH]; cbn [flat_map filter].
  - reflexivity.
  - destruct (c =? ch); cbn [negb app]; now rewrite IH.
Qed.

Lemma filter_filter (f g : Z -> bool) (l : str) :
  filter f (filter g l) = filter (fun c => g c && f c) l.
Proof.
  induction l as [| c l IH]; cbn [filter]; [reflexivity |].
  destruct (g c); cbn [andb filter]; [| exact IH].
  destruct (f c); now rewrite IH.
Qed.

Lemma remove_chars_filter (chars : list Z) :
  forall v,
    fold_left (fun v char => str_replace_char char [] v) chars v
    = filter (fun c => negb (existsb (Z.eqb c) chars)) v.
Proof.
  induction chars as [| ch chars IH]; intros v; cbn [fold_left existsb].
  - cbn [negb]. induction v as [| c v IHv]; cbn [filter];
      [reflexivity | now rewrite <- IHv].
  - rewrite IH, replace_char_empty, filter_filter.
    apply filter_ext. intros c. now rewrite negb_orb.
Qed.

Lemma sanitize_rcon_input_unfold (value : str) (max_length : Z) :
  sanitize_rcon_input value max_length
  = strip (str_slice_to max_length
             (filter (fun c => negb (forbidden_char c) && negb (control_char c))
                     value)).
Proof.
  unfold sanitize_rcon_input, re_sub_class_empty.
  now rewrite remove_chars_filter, filter_filter.
Qed.

Lemma str_slice_to_In (x : Z) (n : Z) (s : str) :
  In x (str_slice_to n s) -> In x s.
Proof.
  unfold str_slice_to.
  assert (F : forall k, In x (firstn k s) -> In x s).
  { intros k H. rewrite <- (firstn_skipn k s). apply in_or_app. now left. }
  destruct (0 <=? n); apply F.
Qed.

Lemma str_slice_to_length (n : Z) (s : str) :
  (length (str_slice_to n s) <= length s)%nat
  /\ (0 <= n -> Z.of_nat (length (str_slice_to n s)) <= n).
Proof.
  unfold str_slice_to. destruct (Z.leb_spec 0 n); rewrite length_firstn; lia.
Qed.

Lemma filter_fixed (f : Z -> bool) (l : str) :
  (forall c, In c l -> f c = true) -> filter f l = l.
Proof.
  induction l as [| c l IH]; intros H; cbn [filter]; [reflexivity |].
  rewrite (H c (or_introl eq_refl)). f_equal. apply IH.
  intros d Hd. apply H. now right.
Qed.

Lemma sanitize_rcon_input_spec (value : str) (max_length : Z) :
  (forall c,
      In c (sanitize_rcon_input value max_length) ->
      In c value /\ forbidden_char c = false /\ control_char c = false)
  /\ strip (sanitize_rcon_input value max_length)
     = sanitize_rcon_input value max_length
  /\ (length (sanitize_rcon_input value max_length) <= length value)%nat
  /\ (0 <= max_length ->
      Z.of_nat (length (sanitize_rcon_input value max_length)) <= max_length).
Proof.
  rewrite sanitize_rcon_input_unfold.
  set (kept := filter _ value).
  pose proof (str_slice_to_length max_length kept) as [L1 L2].
  pose proof (strip_length (str_slice_to max_length kept)) as L3.
  assert (Lk : (length kept <= length value)%nat) by apply filter_length_le.
  splits.
  - intros c Hc. apply strip_In, str_slice_to_In in Hc.
    apply filter_In in Hc. destruct Hc as [Hin Hc].
    apply andb_true_iff in Hc. destruct Hc as [H1 H2].
    apply negb_true_iff in H1, H2. auto.
  - apply strip_idem.
  - lia.
  - intros Hn. specialize (L2 Hn). lia.
Qed.

(** X2.  What [sanitize_rcon_input] returns holds only characters of its
    argument, none of the eight forbidden characters and no control
    character ([\x00-\x1f], [\x7f]); it has no white space at either end;
    it is no longer than the argument, and for a [max_length] that is not
    negative it has at most [max_length] characters. *)
Theorem sanitize_rcon_input_safe (value : str) (max_length : Z) :
  (forall c,
      In c (sanitize_rcon_input value max_length) ->
      In c value /\ forbidden_char c = false /\ control_char c = false)
  /\ strip (sanitize_rcon_input value max_length)
     = sanitize_rcon_input value max_length
  /\ (length (sanitize_rcon_input value max_length) <= length value)%nat
  /\ (0 <= max_length ->
      Z.of_nat (length (sanitize_rcon_input value max_length)) <= max_length).
Proof.
  exact (sanitize_rcon_input_spec value max_length).
Qed.

(** X3.  For a [max_length] that is not negative, [sanitize_rcon_input] is
    idempotent: sanitizing its own result changes nothing. *)
Theorem sanitize_rcon_input_idempotent (value : str) (max_length : Z) :
  0 <= max_length ->
  sanitize_rcon_input (sanitize_rcon_input value max_length) max_length
  = sanitize_rcon_input value max_length.
Proof.
  intros Hn.
  destruct (sanitize_rcon_input_spec value max_length) as (Hc & Hs & _ & Hl).
  specialize (Hl Hn).
  set (out := sanitize_rcon_input value max_length) in *.
  rewrite sanitize_rcon_input_unfold.
  rewrite filter_fixed.
  - unfold str_slice_to. destruct (Z.leb_spec 0 max_length); [| lia].
    rewrite firstn_all2 by lia. exact Hs.
  - intros c Hin. destruct (Hc c Hin) as (_ & H1 & H2).
    now rewrite H1, H2.
Qed.

Lemma sanitize_rcon_input_idempotent_witness :
  sanitize_rcon_input
    (sanitize_rcon_input (py "  op Steve; stop  ") 12) 12
  = sanitize_rcon_input (py "  op Steve; stop  ") 12.
Proof.
  apply sanitize_rcon_input_idempotent. vm_compute. discriminate.
Defined.

(** *** [validate_rcon_command] *)

Lemma find_forbidden_none (s : str) :
  find (fun char => str_has_char char s) FORBIDDEN_CHARS = None
  <-> forall c, In c s -> forbidden_char c = false.
Proof.
  split.
  - intros H c Hin. destruct (forbidden_char c) eqn:Hf; [| reflexivity].
    unfold forbidden_char in Hf. apply existsb_exists in Hf.
    destruct Hf as (ch & Hch & E). apply Z.eqb_eq in E. subst ch.
    pose proof (find_none _ _ H c Hch) as Hn. cbn beta in Hn.
    unfold str_has_char in Hn.
    assert (Ht : existsb (Z.eqb c) s = true).
    { apply existsb_exists. exists c. split; [assumption | apply Z.eqb_refl]. }
    congruence.
  - intros H. destruct (find _ FORBIDDEN_CHARS) as [ch |] eqn:Hf;
      [| reflexivity].
    apply find_some in Hf. destruct Hf as [Hin Hhas].
    unfold str_has_char in Hhas. apply existsb_exists in Hhas.
    destruct Hhas as (c & Hc & E). apply Z.eqb_eq in E. subst c.
    specialize (H ch Hc). unfold forbidden_char in H.
    assert (Ht : existsb (Z.eqb ch) FORBIDDEN_CHARS = true).
    { apply existsb_exists. exists ch. split; [assumption | apply Z.eqb_refl]. }
    congruence.
Qed.

Lemma validate_rcon_command_spec (command : str) :
  (fst (validate_rcon_command command) = true
   <-> strip command <> []
       /\ (forall c, In c (strip command) -> forbidden_char c = false)
       /\ (length (strip command) <= 1000)%nat)
  /\ (snd (validate_rcon_command command) = None
      <-> fst (validate_rcon_command command) = true).
Proof.
  unfold validate_rcon_command.
  assert (Hempty : command = [] -> strip command = []) by (now intros ->).
  destruct (str_is_empty command || str_is_empty (strip command)) eqn:He.
  - cbn [fst snd]. split; split; try discriminate.
    intros (Hne & _). exfalso. apply orb_true_iff in He.
    destruct He as [He | He].
    + destruct command; [now apply Hne, Hempty | discriminate].
    + destruct (strip command); [now apply Hne | discriminate].
  - apply orb_false_iff in He. destruct He as [_ He].
    assert (Hne : strip command <> []).
    { destruct (strip command); [discriminate | discriminate]. }
    destruct (find _ FORBIDDEN_CHARS) as [ch |] eqn:Hf.
    + cbn [fst snd]. split; split; try discriminate.
      intros (_ & Hall & _). exfalso.
      pose proof (proj2 (find_forbidden_none _) Hall). congruence.
    + pose proof (proj1 (find_forbidden_none _) Hf) as Hall.
      destruct (Z.ltb_spec 1000 (Z.of_nat (length (strip command))));
        cbn [fst snd]; split; split; try discriminate; try reflexivity.
      * intros (_ & _ & Hl). exfalso. lia.
      * intros _. splits; [assumption | assumption | lia].
Qed.

(** X4.  [validate_rcon_command] accepts exactly the commands whose
    stripped text is not empty, holds none of the eight forbidden
    characters and has at most 1000 characters; it returns no message
    exactly when it accepts. *)
Theorem validate_rcon_command_accepts (command : str) :
  (fst (validate_rcon_command command) = true
   <-> strip command <> []
       /\ (forall c, In c (strip command) -> forbidden_char c = false)
       /\ (length (strip command) <= 1000)%nat)
  /\ (snd (validate_rcon_command command) = None
      <-> fst (validate_rcon_command command) = true).
Proof.
  exact (validate_rcon_command_spec command).
Qed.

(** X5.  [sanitize_rcon_input] leaves alone a command that
    [validate_rcon_command] accepts, that has no white space at either
    end, that holds no control character and that is not longer than
    [max_length]. *)
Theorem sanitize_keeps_clean_command (command : str) (max_length : Z) :
  fst (validate_rcon_command command) = true ->
  strip command = command ->
  (forall c, In c command -> control_char c = false) ->
  Z.of_nat (length command) <= max_length ->
  sanitize_rcon_input command max_length = command.
Proof.
  intros Hv Hs Hc Hm.
  apply (proj1 (validate_rcon_command_spec command)) in Hv.
  rewrite Hs in Hv. destruct Hv as (_ & Hf & Hl).
  rewrite sanitize_rcon_input_unfold, filter_fixed.
  - unfold str_slice_to. destruct (Z.leb_spec 0 max_length); [| lia].
    rewrite firstn_all2 by lia. exact Hs.
  - intros c Hin. now rewrite (Hf c Hin), (Hc c Hin).
Qed.

Lemma sanitize_keeps_clean_command_witness :
  sanitize_rcon_input (py "gamemode creative Steve") 256
  = py "gamemode creative Steve".
Proof.
  apply sanitize_keeps_clean_command.
  - vm_compute. reflexivity.
  - vm_compute. reflexivity.
  - intros c Hc. vm_compute in Hc.
    repeat (destruct Hc as [<- | Hc]; [reflexivity |]). contradiction.
  - vm_compute. discriminate.
Defined.

(** ** The convenience methods: quoting and the whitelist *)

Lemma escape_quotes_cons (c : Z) (text : str) :
  escape_quotes (c :: text)
  = (if c =? 34 then [92; 34] else [c]) ++ escape_quotes text.
Proof. reflexivity. Qed.

Lemma escape_quotes_follow (text : str) :
  forall prev, quotes_follow_backslash prev (escape_quotes text) = true.
Proof.
  induction text as [| c text IH]; intros prev; [reflexivity |].
  rewrite escape_quotes_cons. destruct (Z.eqb_spec c 34) as [-> | Hc].
  - cbn [app quotes_follow_backslash]. rewrite IH. reflexivity.
  - cbn [app quotes_follow_backslash]. rewrite IH.
    apply Z.eqb_neq in Hc. now rewrite Hc.
Qed.

Lemma escape_quotes_head (text : str) :
  match escape_quotes text with
  | c :: _ => c <> 34
  | [] => text = []
  end.
Proof.
  destruct text as [| c text]; [reflexivity |].
  rewrite escape_quotes_cons. destruct (Z.eqb_spec c 34); cbn [app].
  - discriminate.
  - assumption.
Qed.

Lemma unescape_escape_quotes (text : str) :
  unescape_quotes (escape_quotes text) = text.
Proof.
  induction text as [| c text IH]; [reflexivity |].
  rewrite escape_quotes_cons. destruct (Z.eqb_spec c 34) as [-> | Hc].
  - cbn [app]. cbn [unescape_quotes]. cbn [Z.eqb Pos.eqb andb].
    fold unescape_quotes. now rewrite IH.
  - cbn [app]. pose proof (escape_quotes_head text) as Hh.
    destruct (escape_quotes text) as [| d rest] eqn:E.
    + subst text. reflexivity.
    + cbn [unescape_quotes]. fold unescape_quotes.
      apply Z.eqb_neq in Hh. rewrite Hh, andb_false_r.
      cbn [unescape_quotes] in IH. now rewrite IH.
Qed.

(** X6.  The text that [say], [tell], [kick], [ban] and [ban_ip] put
    into their command is the argument with a backslash before each
    double quote: no double quote of the text sent stands without a
    backslash before it, and the argument is recovered from the text sent
    by removing these backslashes.  The player argument is passed as it
    is. *)
Theorem quoted_text_is_escaped (player text : str) (c : RCONClient)
    (w : World) :
  exists safe,
    quotes_follow_backslash 0 safe = true
    /\ unescape_quotes safe = text
    /\ say text c w = execute (py "say " ++ safe) c w
    /\ tell player text c w
       = execute (py "tell " ++ player ++ py " " ++ safe) c w
    /\ kick player (Some text) c w
       = execute (py "kick " ++ player ++ py " " ++ safe) c w
    /\ ban player (Some text) c w
       = execute (py "ban " ++ player ++ py " " ++ safe) c w
    /\ ban_ip player (Some text) c w
       = execute (py "ban-ip " ++ player ++ py " " ++ safe) c w.
Proof.
  exists (escape_quotes text). splits; try reflexivity.
  - apply escape_quotes_follow.
  - apply unescape_escape_quotes.
Qed.

(** *** Splitting *)

Lemma has_char_false (ch : Z) (s : str) :
  str_has_char ch s = false <-> ~ In ch s.
Proof.
  unfold str_has_char. induction s as [| c s IH]; cbn [existsb In].
  - tauto.
  - rewrite orb_false_iff, IH, Z.eqb_neq. intuition congruence.
Qed.

Lemma split_nonempty (sep : Z) (s : str) : str_split_char sep s <> [].
Proof.
  destruct s as [| c s]; cbn [str_split_char]; [discriminate |].
  destruct (c =? sep); [discriminate |].
  destruct (str_split_char sep s); discriminate.
Qed.

Lemma split_no_sep (sep : Z) (s : str) :
  ~ In sep s -> str_split_char sep s = [s].
Proof.
  induction s as [| c s IH]; intros H; cbn [str_split_char]; [reflexivity |].
  destruct (Z.eqb_spec c sep) as [-> | Hc].
  - exfalso. apply H. now left.
  - rewrite IH; [reflexivity |]. intros Hin. apply H. now right.
Qed.

Lemma split_app (sep : Z) (a b : str) :
  ~ In sep a ->
  str_split_char sep (a ++ sep :: b) = a :: str_split_char sep b.
Proof.
  induction a as [| c a IH]; intros H; cbn [app str_split_char].
  - now rewrite Z.eqb_refl.
  - destruct (Z.eqb_spec c sep) as [-> | Hc].
    + exfalso. apply H. now left.
    + rewrite IH; [reflexivity |]. intros Hin. apply H. now right.
Qed.

Lemma split_pieces (sep : Z) (s : str) :
  forall p, In p (str_split_char sep s) ->
            ~ In sep p /\ (forall x, In x p -> In x s).
Proof.
  induction s as [| c s IH]; intros p Hp; cbn [str_split_char] in Hp.
  - destruct Hp as [<- | []]. split; [intros [] | intros x []].
  - destruct (Z.eqb_spec c sep) as [-> | Hc].
    + destruct Hp as [<- | Hp]; [split; [intros [] | intros x []] |].
      destruct (IH p Hp) as [H1 H2]. split; [assumption |].
      intros x Hx. right. now apply H2.
    + destruct (str_split_char sep s) as [| piece pieces] eqn:E.
      * destruct Hp as [<- | []]. split.
        -- intros [H | []]. congruence.
        -- intros x [<- | []]. now left.
      * destruct Hp as [<- | Hp].
        -- destruct (IH piece (or_introl eq_refl)) as [H1 H2]. split.
           ++ intros [H | H]; [congruence | now apply H1].
           ++ intros x [<- | Hx]; [now left | right; now apply H2].
        -- destruct (IH p (or_intror Hp)) as [H1 H2]. split; [assumption |].
           intros x Hx. right. now apply H2.
Qed.

Lemma split_app_any (sep : Z) (a b : str) :
  exists p pre,
    str_split_char sep (a ++ sep :: b) = (p :: pre) ++ str_split_char sep b.
Proof.
  induction a as [| c a (p & pre & IH)]; cbn [app str_split_char].
  - rewrite Z.eqb_refl. now exists [], [].
  - destruct (c =? sep).
    + exists [], (p :: pre). now rewrite IH.
    + rewrite IH. cbn [app]. now exists (c :: p), pre.
Qed.

Lemma last_app_nonempty (l1 l2 : list str) :
  l2 <> [] -> list_last (l1 ++ l2) = list_last l2.
Proof.
  unfold list_last. intros H. induction l1 as [| x l1 IH]; [reflexivity |].
  cbn [app]. destruct (l1 ++ l2) eqn:E.
  - destruct l1; [cbn in E; congruence | discriminate].
  - cbn [last]. exact IH.
Qed.

Lemma last_split_app (sep : Z) (a b : str) :
  list_last (str_split_char sep (a ++ sep :: b))
  = list_last (str_split_char sep b).
Proof.
  destruct (split_app_any sep a b) as (p & pre & ->).
  apply last_app_nonempty, split_nonempty.
Qed.

Lemma whitelist_names_pieces (lower : str -> str) (response n : str) :
  In n (whitelist_names lower response) ->
  exists p,
    In p (str_split_char 44
            (strip (list_last (str_split_char 58 response))))
    /\ n = strip p /\ n <> [].
Proof.
  unfold whitelist_names.
  destruct (str_contains _ _); [intros [] |].
  destruct (str_has_char 58 response); [| intros []].
  intros H. apply in_flat_map in H. destruct H as (p & Hp & Hn).
  exists p. destruct (strip p) eqn:E; cbn [str_is_empty] in Hn.
  - destruct Hn.
  - destruct Hn as [<- | []]. splits; [assumption | reflexivity | discriminate].
Qed.

Lemma list_last_In (l : list str) : l <> [] -> In (list_last l) l.
Proof.
  unfold list_last. induction l as [| x l IH]; intros H; [congruence |].
  destruct l as [| y l]; [now left |]. right. apply IH. discriminate.
Qed.

Lemma whitelist_names_clean (lower : str -> str) (response n : str) :
  In n (whitelist_names lower response) ->
  clean_name n /\ (forall x, In x n -> In x response).
Proof.
  intros H. apply whitelist_names_pieces in H.
  destruct H as (p & Hp & -> & Hne).
  apply split_pieces in Hp. destruct Hp as [Hcomma Hsub].
  pose proof (list_last_In _ (split_nonempty 58 response)) as Hlast.
  apply split_pieces in Hlast. destruct Hlast as [Hcolon Hsub'].
  assert (Hin : forall x, In x (strip p) -> In x response).
  { intros x Hx. apply Hsub', strip_In, Hsub, strip_In, Hx. }
  split; [| exact Hin]. unfold clean_name. splits.
  - exact Hne.
  - apply strip_idem.
  - apply has_char_false. intros Hx. apply Hcomma, strip_In, Hx.
  - apply has_char_false. intros Hx.
    apply Hcolon, strip_In, Hsub, strip_In, Hx.
Qed.

(** *** Reading back a listing *)

Lemma strip_cons_space (c : Z) (s : str) :
  py_isspace c = true -> strip (c :: s) = strip s.
Proof. intros H. unfold strip. cbn [lstrip]. now rewrite H. Qed.

Lemma strip_last (s : str) : head_nonspace (rev (strip s)).
Proof.
  unfold strip, rstrip. rewrite rev_involutive. apply lstrip_head.
Qed.

Lemma strip_fixed (s : str) :
  head_nonspace s -> head_nonspace (rev s) -> strip s = s.
Proof.
  intros H1 H2. unfold strip, rstrip.
  rewrite (lstrip_fixed s H1), (lstrip_fixed (rev s) H2).
  apply rev_involutive.
Qed.

Lemma head_nonspace_app (s t : str) :
  s <> [] -> head_nonspace s -> head_nonspace (s ++ t).
Proof. destruct s; [congruence | intros _ H; exact H]. Qed.

Lemma clean_name_ends (n : str) :
  clean_name n -> head_nonspace n /\ head_nonspace (rev n).
Proof.
  intros (_ & Hs & _). rewrite <- Hs. split; [apply strip_head | apply strip_last].
Qed.

Lemma join_comma_cons (n m : str) (rest : list str) :
  join_comma (n :: m :: rest) = n ++ 44 :: 32 :: join_comma (m :: rest).
Proof. reflexivity. Qed.

Lemma join_comma_nonempty (n : str) (rest : list str) :
  n <> [] -> join_comma (n :: rest) <> [].
Proof.
  intros H. destruct rest as [| m rest]; [exact H |].
  rewrite join_comma_cons. destruct n; [congruence | discriminate].
Qed.

Lemma join_comma_ends (names : list str) :
  Forall clean_name names ->
  head_nonspace (join_comma names) /\ head_nonspace (rev (join_comma names)).
Proof.
  induction 1 as [| n rest Hn Hrest [IH1 IH2]]; [now split |].
  destruct (clean_name_ends n Hn) as [E1 E2].
  destruct rest as [| m rest]; [now split |].
  rewrite join_comma_cons. split.
  - apply head_nonspace_app; [apply Hn | exact E1].
  - change (n ++ 44 :: 32 :: join_comma (m :: rest))
      with (n ++ [44; 32] ++ join_comma (m :: rest)).
    rewrite !rev_app_distr, <- app_assoc.
    apply head_nonspace_app; [| exact IH2].
    intros E. apply (f_equal (@rev Z)) in E. rewrite rev_involutive in E.
    inversion Hrest as [| ? ? Hm _]; subst.
    now apply (join_comma_nonempty m rest (proj1 Hm)).
Qed.

Lemma join_comma_In (x : Z) (names : list str) :
  In x (join_comma names) ->
  x = 44 \/ x = 32 \/ exists n, In n names /\ In x n.
Proof.
  induction names as [| n rest IH]; [intros [] |].
  destruct rest as [| m rest].
  - intros H. right. right. exists n. split; [now left | exact H].
  - rewrite join_comma_cons. intros H. apply in_app_or in H.
    destruct H as [H | [<- | [<- | H]]]; auto.
    + right. right. exists n. split; [now left | exact H].
    + destruct (IH H) as [E | [E | (k & Hk & Hx)]]; auto.
      right. right. exists k. split; [now right | exact Hx].
Qed.

Lemma split_join_comma (names : list str) :
  Forall clean_name names ->
  str_split_char 44 (join_comma names)
  = match names with
    | [] => [[]]
    | n :: rest => n :: map (cons 32) rest
    end.
Proof.
  induction 1 as [| n rest Hn Hrest IH]; [reflexivity |].
  assert (Hc : ~ In 44 n).
  { apply has_char_false. apply Hn. }
  destruct rest as [| m rest].
  - cbn [join_comma map]. now apply split_no_sep.
  - rewrite join_comma_cons, split_app by exact Hc.
    cbn [str_split_char]. change (32 =? 44) with false. cbv iota.
    rewrite IH. reflexivity.
Qed.

Lemma read_names (rest : list str) :
  Forall clean_name rest ->
  flat_map (fun p => if str_is_empty (strip p) then [] else [strip p])
           (map (cons 32) rest)
  = rest.
Proof.
  induction 1 as [| m rest Hm Hrest IH]; [reflexivity |].
  cbn [map flat_map]. rewrite IH, strip_cons_space by reflexivity.
  destruct Hm as (Hne & -> & _). destruct m; [congruence | reflexivity].
Qed.

(** X8.  [whitelist_list] reads back a listing: from a response made of
    a header, a colon, a space and names separated by a comma and a space
    — names that are not empty, have no white space at either end and hold
    no comma and no colon — it returns exactly these names, in order,
    unless the response in lower case holds the text "no whitelisted". *)
Theorem whitelist_names_of_listing (lower : str -> str) (header : str)
    (names : list str) :
  Forall clean_name names ->
  str_contains (py "no whitelisted")
               (lower (header ++ py ": " ++ join_comma names)) = false ->
  whitelist_names lower (header ++ py ": " ++ join_comma names) = names.
Proof.
  intros Hnames Hno. unfold whitelist_names. rewrite Hno.
  change (py ": " ++ join_comma names) with (58 :: 32 :: join_comma names).
  assert (Hcolon : str_has_char 58 (header ++ 58 :: 32 :: join_comma names)
                   = true).
  { destruct (str_has_char 58 _) eqn:E; [reflexivity |].
    apply has_char_false in E. exfalso. apply E, in_elt. }
  rewrite Hcolon, last_split_app.
  assert (Hnc : ~ In 58 (32 :: join_comma names)).
  { intros [E | Hin]; [discriminate |].
    apply join_comma_In in Hin.
    destruct Hin as [E | [E | (n & Hn & Hx)]]; try discriminate.
    rewrite Forall_forall in Hnames. destruct (Hnames n Hn) as (_ & _ & _ & H58).
    apply has_char_false in H58. now apply H58. }
  rewrite (split_no_sep 58 _ Hnc). unfold list_last. cbn [last].
  rewrite strip_cons_space by reflexivity.
  destruct (join_comma_ends names Hnames) as [E1 E2].
  rewrite (strip_fixed _ E1 E2), (split_join_comma names Hnames).
  destruct Hnames as [| n rest Hn Hrest]; [reflexivity |].
  cbn [flat_map]. rewrite (read_names rest Hrest).
  destruct Hn as (Hne & -> & _). destruct n; [congruence | reflexivity].
Qed.

Lemma whitelist_names_of_listing_witness :
  whitelist_names (fun s => s)
    (py "There are 2 whitelisted players" ++ py ": "
     ++ join_comma [py "Steve"; py "Alex"])
  = [py "Steve"; py "Alex"].
Proof.
  apply whitelist_names_of_listing.
  - repeat constructor; try discriminate; vm_compute; reflexivity.
  - vm_compute. reflexivity.
Defined.

(** ** The frames on the wire *)

Lemma le_bytes4_length (v : Z) : length (le_bytes4 v) = 4%nat.
Proof. reflexivity. Qed.

Lemma encode_length (p : RCONPacket) (data : bytes) :
  encode p = Ok data ->
  exists size body,
    data = le_bytes4 size ++ body
    /\ size = Z.of_nat (length body)
    /\ 10 <= size <= int32_max
    /\ length data = (length body + 4)%nat.
Proof.
  intros He. destruct (encode_shape _ _ He) as (utf8 & _ & _ & _ & Hs & ->).
  exists (Z.of_nat (length utf8) + 10),
         (le_bytes4 (request_id p) ++ le_bytes4 (packet_type p)
          ++ utf8 ++ [0; 0]).
  assert (L : length (le_bytes4 (request_id p) ++ le_bytes4 (packet_type p)
                      ++ utf8 ++ [0; 0]) = (length utf8 + 10)%nat).
  { rewrite !length_app, !le_bytes4_length. cbn [length]. lia. }
  splits; try reflexivity; try lia.
  rewrite length_app, le_bytes4_length. lia.
Qed.

(** X9.  The frame that [RCONPacket.encode] returns starts with a size
    field that declares exactly the number of bytes that follow it, ten at
    least; the frame ends with two NUL bytes and is made of bytes. *)
Theorem encode_frame_layout (p : RCONPacket) (data : bytes) :
  encode p = Ok data ->
  struct_unpack_i (firstn 4 data) = Ok (Z.of_nat (length (skipn 4 data)))
  /\ (14 <= length data)%nat
  /\ skipn (length data - 2) data = [0; 0]
  /\ Forall is_byte data.
Proof.
  intros He. pose proof (encode_bytes _ _ He) as Hb.
  destruct (encode_length _ _ He) as (size & body & E & Hs & Hr & Hl).
  splits.
  - rewrite E.
    rewrite firstn_app, le_bytes4_length, firstn_all2
      by (rewrite le_bytes4_length; lia).
    rewrite skipn_app, le_bytes4_length, skipn_all2
      by (rewrite le_bytes4_length; lia).
    cbn [Nat.sub firstn skipn app]. rewrite app_nil_r, <- Hs.
    apply struct_unpack_pack_i, in_int32_bounds. unfold int32_max in Hr. lia.
  - lia.
  - destruct (encode_shape _ _ He) as (utf8 & _ & _ & _ & _ & E').
    assert (E2 : data = (le_bytes4 (Z.of_nat (length utf8) + 10)
                         ++ le_bytes4 (request_id p)
                         ++ le_bytes4 (packet_type p) ++ utf8) ++ [0; 0]).
    { rewrite E'. now rewrite <- !app_assoc. }
    rewrite E2 at 2. rewrite E2 at 1.
    rewrite length_app. cbn [length].
    rewrite skipn_app.
    replace (length _ + 2 - 2)%nat
      with (length (le_bytes4 (Z.of_nat (length utf8) + 10)
                    ++ le_bytes4 (request_id p)
                    ++ le_bytes4 (packet_type p) ++ utf8)) by lia.
    rewrite skipn_all, Nat.sub_diag. reflexivity.
  - exact Hb.
Qed.

Lemma encode_frame_layout_witness :
  let data := [13; 0; 0; 0; 5; 0; 0; 0; 2; 0; 0; 0; 97; 195; 169; 0; 0] in
  struct_unpack_i (firstn 4 data) = Ok (Z.of_nat (length (skipn 4 data)))
  /\ (14 <= length data)%nat
  /\ skipn (length data - 2) data = [0; 0]
  /\ Forall is_byte data.
Proof.
  apply (encode_frame_layout (mkPacket 5 SERVERDATA_EXECCOMMAND [97; 233])).
  vm_compute. reflexivity.
Defined.

(** *** Decoding any bytes *)

Lemma In_firstn_list (x : Z) (k : nat) :
  forall l, In x (firstn k l) -> In x l.
Proof.
  induction k as [| k IH]; intros [| y l]; cbn [firstn In]; try tauto.
  intros [H | H]; [now left | right; now apply IH].
Qed.

Lemma is_scalar_intro (c : Z) :
  0 <= c < 1114112 -> c < 55296 \/ 57343 < c -> is_scalar c = true.
Proof.
  intros H1 H2. unfold is_scalar.
  destruct (Z.leb_spec 0 c); [| lia].
  destruct (Z.ltb_spec c 1114112); [| lia].
  destruct (Z.leb_spec 55296 c); destruct (Z.leb_spec c 57343);
    try reflexivity; lia.
Qed.

Ltac bool_facts :=
  repeat match goal with
         | H : (_ || _) = false |- _ =>
             apply orb_false_iff in H; destruct H
         | H : (_ && _) = true |- _ =>
             apply andb_true_iff in H; destruct H
         | H : negb _ = false |- _ => apply negb_false_iff in H
         | H : negb _ = true |- _ => apply negb_true_iff in H
         | H : is_continuation _ = _ |- _ => unfold is_continuation in H
         | H : (if ?b then _ else _) = _ |- _ => destruct b eqn:?
         | H : (_ <? _) = true |- _ => apply Z.ltb_lt in H
         | H : (_ <? _) = false |- _ => apply Z.ltb_ge in H
         | H : (_ <=? _) = true |- _ => apply Z.leb_le in H
         | H : (_ <=? _) = false |- _ => apply Z.leb_gt in H
         | H : (_ =? _) = true |- _ => apply Z.eqb_eq in H
         | H : (_ =? _) = false |- _ => apply Z.eqb_neq in H
         end.

Ltac decode_case :=
  match goal with
  | |- context [if ?b then _ else _] => destruct b eqn:?
  | |- context [match ?l with [] => _ | _ :: _ => _ end] =>
      is_var l; destruct l
  end.

Lemma decode_utf8_replace_post (n : nat) :
  forall data,
    (length data <= n)%nat ->
    Forall is_byte data ->
    (length (bytes_decode_utf8_replace data) <= length data)%nat
    /\ Forall (fun c => is_scalar c = true) (bytes_decode_utf8_replace data).
Proof.
  induction n as [| n IH]; intros data Hn Hb.
  - destruct data; [split; [reflexivity | constructor] | cbn in Hn; lia].
  - destruct data as [| b0 r0]; [split; [reflexivity | constructor] |].
    assert (Step : forall (x : Z) (r : list Z),
               is_scalar x = true ->
               (length r <= n)%nat -> Forall is_byte r ->
               (length r < length (b0 :: r0))%nat ->
               (length (x :: bytes_decode_utf8_replace r)
                <= length (b0 :: r0))%nat
               /\ Forall (fun c => is_scalar c = true)
                         (x :: bytes_decode_utf8_replace r)).
    { intros x r Hx Hr Hbr Hlt. destruct (IH r Hr Hbr) as [L F].
      split; [cbn [length] in *; lia | now constructor]. }
    assert (Last : (length [replacement_char] <= length (b0 :: r0))%nat
                   /\ Forall (fun c => is_scalar c = true)
                             [replacement_char]).
    { split; [cbn [length]; lia | now repeat constructor]. }
    cbn [length] in Hn.
    cbn [bytes_decode_utf8_replace].
    repeat decode_case; try exact Last;
      repeat match goal with
             | H : Forall is_byte (_ :: _) |- _ =>
                 inversion H; subst; clear H
             end;
      unfold is_byte in *; bool_facts;
      apply Step;
      try reflexivity; try assumption;
      try (cbn [length] in *; lia);
      try solve [repeat (constructor; try assumption); lia];
      try (apply is_scalar_intro; lia).
Qed.

(** X10.  [RCONPacket.decode] accepts any ten bytes or more, whatever
    they hold: the two header fields are read as they are, an ill-formed
    payload is not an error, the payload has at most as many characters
    as there are bytes between the header and the last two bytes, and
    every character of it is a Unicode scalar value. *)
Theorem decode_accepts_any_bytes (data : bytes) :
  (10 <= length data)%nat ->
  Forall is_byte data ->
  exists p,
    decode data = Ok p
    /\ struct_unpack_ii (firstn 8 data) = Ok (request_id p, packet_type p)
    /\ (length (payload p) <= length data - 10)%nat
    /\ Forall (fun c => is_scalar c = true) (payload p).
Proof.
  intros Hl Hb. unfold decode, bytes, byte in *.
  destruct (Z.ltb_spec (Z.of_nat (length data)) 10); [lia |].
  do 8 (destruct data as [| ? data]; [cbn [length] in Hl; lia |]).
  cbn [firstn struct_unpack_ii skipn].
  eexists. split; [reflexivity |]. cbn [request_id packet_type payload].
  split; [reflexivity |].
  set (body := firstn _ data).
  assert (Hbody : Forall is_byte body).
  { apply Forall_forall. intros x Hx.
    rewrite Forall_forall in Hb. apply Hb.
    do 8 right. unfold body in Hx. now apply In_firstn_list in Hx. }
  destruct (decode_utf8_replace_post (length body) body (le_n _) Hbody)
    as [L F].
  split; [| exact F].
  assert (length body <= length data - 2)%nat.
  { unfold body. rewrite length_firstn. cbn [length]. lia. }
  cbn [length]. lia.
Qed.

Lemma decode_accepts_any_bytes_witness :
  exists p,
    decode [255; 255; 255; 255; 0; 0; 0; 0; 237; 160; 128; 0; 0] = Ok p
    /\ struct_unpack_ii
         (firstn 8 [255; 255; 255; 255; 0; 0; 0; 0; 237; 160; 128; 0; 0])
       = Ok (request_id p, packet_type p)
    /\ (length (payload p)
        <= length [255; 255; 255; 255; 0; 0; 0; 0; 237; 160; 128; 0; 0] - 10)%nat
    /\ Forall (fun c => is_scalar c = true) (payload p).
Proof.
  apply decode_accepts_any_bytes.
  - cbn [length]. lia.
  - repeat constructor; unfold is_byte; lia.
Defined.

(** *** From a writer to a reader *)

(** X11.  What [_send_packet] has written, [_receive_packet] reads back
    as the packet that was sent when the frame has at most 4100 bytes (a
    body of 4096); the sender sets no bound, and a longer frame that it
    has written is refused by the receiver with [RCONError] once its size
    field is read, the body left in the stream. *)
Theorem sent_frame_is_received (p : RCONPacket) (c c' : RCONClient)
    (w w' : World) (peer : RCONClient) (wp : World) (rest : list rx_item) :
  _send_packet p c w = (Ok tt, c', w') ->
  exists data,
    trace w' = trace w ++ [EvWrite data]
    /\ (_reader peer = Some (map RxByte data ++ rest) ->
        _receive_packet peer wp
        = if Z.of_nat (length data) <=? 4100
          then (Ok p, set_reader peer (Some rest), emit (EvRecv p) wp)
          else (Raise RCONError,
                set_reader peer (Some (map RxByte (skipn 4 data) ++ rest)),
                wp)).
Proof.
  intros Hs. destruct (send_trace _ _ _ _ _ _ Hs) as [[_ Hn] | (data & He & ->)];
    [congruence |].
  exists data. split; [reflexivity |]. intros Hrd.
  destruct (Z.leb_spec (Z.of_nat (length data)) 4100) as [Hl | Hl].
  - exact (receive_encoded peer wp p data rest He Hl Hrd).
  - destruct (encode_length _ _ He) as (size & body & E & Hsz & Hr & Hlen).
    subst data.
    rewrite skipn_app, le_bytes4_length, skipn_all2
      by (rewrite le_bytes4_length; lia).
    cbn [Nat.sub skipn app].
    apply (receive_rejects_declared_size peer wp size (map RxByte body ++ rest)).
    + apply in_int32_bounds. unfold int32_max in Hr. lia.
    + right. lia.
    + rewrite Hrd, map_app, <- app_assoc. reflexivity.
Qed.

Lemma sent_frame_is_received_witness :
  let up := connect client_fresh world_accepting in
  let p := mkPacket 2 SERVERDATA_EXECCOMMAND (py "list") in
  let data := [14; 0; 0; 0; 2; 0; 0; 0; 2; 0; 0; 0; 108; 105; 115; 116; 0; 0] in
  let peer := set_reader (init [] false 0) (Some (map RxByte data ++ [])) in
  exists data,
    trace (run_world (_send_packet p (run_client up) (run_world up)))
    = trace (run_world up) ++ [EvWrite data]
    /\ (_reader peer = Some (map RxByte data ++ []) ->
        _receive_packet peer (mkWorld [] [])
        = if Z.of_nat (length data) <=? 4100
          then (Ok p, set_reader peer (Some []), emit (EvRecv p) (mkWorld [] []))
          else (Raise RCONError,
                set_reader peer (Some (map RxByte (skipn 4 data) ++ [])),
                mkWorld [] [])).
Proof.
  cbv zeta.
  apply (sent_frame_is_received
           (mkPacket 2 SERVERDATA_EXECCOMMAND (py "list"))
           (run_client (connect client_fresh world_accepting))
           (run_client (_send_packet
                          (mkPacket 2 SERVERDATA_EXECCOMMAND (py "list"))
                          (run_client (connect client_fresh world_accepting))
                          (run_world (connect client_fresh world_accepting))))
           (run_world (connect client_fresh world_accepting))).
  vm_compute. reflexivity.
Defined.

(** *** A frame that stops short *)

Lemma readexactly_stall (bs : bytes) (rest : list rx_item) :
  forall n,
    (length bs < n)%nat ->
    readexactly n (map RxByte bs ++ RxStall :: rest)
    = (RdTimeout, map RxByte bs ++ rest).
Proof.
  induction bs as [| b bs IH]; intros [| n] H; cbn [length] in H; try lia.
  - reflexivity.
  - cbn [map app readexactly]. rewrite IH by lia. reflexivity.
Qed.

Lemma readexactly_eof (bs : bytes) (rest : list rx_item) :
  forall n,
    (length bs < n)%nat ->
    readexactly n (map RxByte bs ++ RxEof :: rest)
    = (RdIncomplete, RxEof :: rest).
Proof.
  induction bs as [| b bs IH]; intros [| n] H; cbn [length] in H; try lia.
  - reflexivity.
  - cbn [map app readexactly]. rewrite IH by lia. reflexivity.
Qed.

(** X12.  A frame whose body stops short of the declared size.  When the
    peer goes silent in the middle of the body, [_receive_packet] raises
    [RCONTimeoutError], the connection flags are left as they are, and of
    the frame the size field alone has been consumed: the part of the
    body that had arrived is still in the stream, where the next read
    takes it for the start of a frame.  When the stream ends in the
    middle of the body, [_receive_packet] raises [RCONConnectionError]
    and marks the connection down. *)
Theorem receive_cut_frame (c : RCONClient) (w : World) (size : Z)
    (part : bytes) (rest : list rx_item) :
  10 <= size <= 4096 ->
  (length part < Z.to_nat size)%nat ->
  let stalled :=
    set_reader c (Some (map RxByte (le_bytes4 size ++ part)
                        ++ RxStall :: rest)) in
  let ended :=
    set_reader c (Some (map RxByte (le_bytes4 size ++ part)
                        ++ RxEof :: rest)) in
  _receive_packet stalled w
  = (Raise RCONTimeoutError, set_reader c (Some (map RxByte part ++ rest)), w)
  /\ is_connected (run_client (_receive_packet stalled w)) = is_connected c
  /\ _receive_packet ended w
     = (Raise RCONConnectionError,
        mark_down (set_reader c (Some (RxEof :: rest))), w)
  /\ is_connected (run_client (_receive_packet ended w)) = false.
Proof.
  intros Hs Hl stalled ended.
  assert (Hin : in_int32 size = true) by (apply in_int32_bounds; lia).
  assert (Hok : (size <? 10) || (4096 <? size) = false).
  { apply orb_false_iff. split; apply Z.ltb_ge; lia. }
  assert (E1 : _receive_packet stalled w
               = (Raise RCONTimeoutError,
                  set_reader c (Some (map RxByte part ++ rest)), w)).
  { unfold _receive_packet, stalled. cbn [_reader set_reader].
    rewrite map_app, <- app_assoc.
    change 4%nat with (length (le_bytes4 size)).
    rewrite readexactly_bytes, struct_unpack_pack_i, Hok by assumption.
    now rewrite readexactly_stall. }
  assert (E2 : _receive_packet ended w
               = (Raise RCONConnectionError,
                  mark_down (set_reader c (Some (RxEof :: rest))), w)).
  { unfold _receive_packet, ended. cbn [_reader set_reader].
    rewrite map_app, <- app_assoc.
    change 4%nat with (length (le_bytes4 size)).
    rewrite readexactly_bytes, struct_unpack_pack_i, Hok by assumption.
    now rewrite readexactly_eof. }
  splits; [exact E1 | now rewrite E1 | exact E2 | now rewrite E2].
Qed.

Lemma receive_cut_frame_witness :
  let c := set_authenticated (set_connected (init [] false 0) true) true in
  let stalled :=
    set_reader c (Some (map RxByte (le_bytes4 12 ++ [7; 0; 0; 0; 0; 0])
                        ++ RxStall :: [])) in
  let ended :=
    set_reader c (Some (map RxByte (le_bytes4 12 ++ [7; 0; 0; 0; 0; 0])
                        ++ RxEof :: [])) in
  _receive_packet stalled (mkWorld [] [])
  = (Raise RCONTimeoutError,
     set_reader c (Some (map RxByte [7; 0; 0; 0; 0; 0] ++ [])), mkWorld [] [])
  /\ is_connected (run_client (_receive_packet stalled (mkWorld [] [])))
     = is_connected c
  /\ _receive_packet ended (mkWorld [] [])
     = (Raise RCONConnectionError,
        mark_down (set_reader c (Some (RxEof :: []))), mkWorld [] [])
  /\ is_connected (run_client (_receive_packet ended (mkWorld [] []))) = false.
Proof.
  intros c.
  apply (receive_cut_frame c (mkWorld [] []) 12 [7; 0; 0; 0; 0; 0] []);
    [lia | cbn; lia].
Defined.

(** ** The invariant of the client object *)

Ltac fields :=
  cbn [password auto_reconnect max_reconnect_attempts _reader _writer
       _request_id _connected _authenticated
       set_reader set_writer set_request_id set_connected set_authenticated
       mark_down raised] in *.

Ltac solve_inv :=
  unfold client_inv, is_connected in *; fields;
  repeat match goal with
         | H : _ /\ _ |- _ => destruct H
         end;
  splits;
  try solve [intuition (try congruence; try discriminate; try lia)].

Lemma inv_down (c : RCONClient) :
  client_inv c -> _writer c = None -> is_connected c = false.
Proof.
  unfold client_inv, is_connected. intros (H1 & _) Hw.
  destruct (_connected c); [| reflexivity]. now contradiction (H1 eq_refl).
Qed.

Lemma mark_down_inv (c : RCONClient) :
  client_inv c -> client_inv (mark_down c).
Proof. intros H. solve_inv. Qed.

Lemma send_inv (p : RCONPacket) (c c' : RCONClient) (w w' : World)
    (r : result unit) :
  client_inv c ->
  _send_packet p c w = (r, c', w') ->
  client_inv c'
  /\ (raised r = Some RCONConnectionError -> is_connected c' = false).
Proof.
  intros Hi. unfold _send_packet. intros H.
  destruct (_writer c) as [tx |] eqn:Hw.
  2:{ inv_run H. split; [assumption | intros _; now apply inv_down]. }
  destruct (encode p) as [data | e] eqn:He.
  2:{ inv_run H. split; [assumption |]. cbn [raised]. intros E.
      apply Some_inj in E. subst e. apply encode_raises in He. discriminate. }
  destruct tx as [| [| |] tx']; inv_run H; split;
    try discriminate; try reflexivity; solve_inv.
Qed.

Lemma recv_inv (c c' : RCONClient) (w w' : World) (r : result RCONPacket) :
  client_inv c ->
  _receive_packet c w = (r, c', w') ->
  client_inv c'
  /\ (raised r = Some RCONConnectionError -> is_connected c' = false).
Proof.
  intros Hi. unfold _receive_packet. intros H.
  destruct (_reader c) as [rx |] eqn:Hrd.
  2:{ inv_run H. split; [assumption |]. intros _. apply inv_down; [assumption |].
      now apply Hi. }
  assert (Hw : _writer c <> None).
  { intros E. apply Hi in E. congruence. }
  assert (Hset : forall rx', client_inv (set_reader c (Some rx'))).
  { intros rx'. solve_inv. }
  assert (Hdown : forall rx', client_inv (mark_down (set_reader c (Some rx')))).
  { intros rx'. apply mark_down_inv, Hset. }
  destruct (readexactly 4 rx) as [[size_data | | |] rx1];
    try solve [inv_run H; split; [auto | try discriminate; reflexivity]].
  destruct (struct_unpack_i size_data) as [packet_size | e] eqn:Hsz.
  2:{ apply struct_unpack_i_raises in Hsz. subst e.
      inv_run H. split; [auto | discriminate]. }
  destruct ((packet_size <? 10) || (4096 <? packet_size));
    [inv_run H; split; [auto | discriminate] |].
  destruct (readexactly (Z.to_nat packet_size) rx1) as [[packet_data | | |] rx2];
    try solve [inv_run H; split; [auto | try discriminate; reflexivity]].
  destruct (decode packet_data) as [packet | e] eqn:Hd.
  - inv_run H. split; [auto | discriminate].
  - destruct (decode_raises _ _ Hd); subst e;
      inv_run H; (split; [auto | discriminate]).
Qed.

Lemma next_request_id_inv (c : RCONClient) :
  client_inv c ->
  client_inv (set_request_id c ((_request_id c + 1) mod 2147483647)).
Proof.
  intros Hi. pose proof (next_request_id_range c). solve_inv.
Qed.

Lemma exchange_inv (packet : RCONPacket) (c c' : RCONClient) (w w' : World)
    (r : result RCONPacket) :
  client_inv c ->
  _authenticate_exchange packet c w = (r, c', w') ->
  client_inv c'.
Proof.
  intros Hi. unfold _authenticate_exchange, bind, ret. intros H.
  destruct (_send_packet packet c w) as [[[[] | e] c1] w1] eqn:Hs;
    pose proof (send_inv _ _ _ _ _ _ Hi Hs) as [I1 _].
  2:{ now inv_run H. }
  destruct (_receive_packet c1 w1) as [[[response | e] c2] w2] eqn:Hr;
    pose proof (recv_inv _ _ _ _ _ I1 Hr) as [I2 _].
  2:{ now inv_run H. }
  destruct (packet_type response =? SERVERDATA_RESPONSE_VALUE).
  - now apply (recv_inv _ _ _ _ _ I2 H).
  - now inv_run H.
Qed.

Lemma authenticate_inv (c c' : RCONClient) (w w' : World) (r : result unit) :
  client_inv c ->
  _connected c = true ->
  _authenticate c w = (r, c', w') ->
  client_inv c'.
Proof.
  intros Hi Hc. rewrite authenticate_unfold. cbv zeta.
  set (auth_id := (_request_id c + 1) mod 2147483647).
  pose proof (next_request_id_inv c Hi) as Hi'. fold auth_id in Hi'.
  destruct (_authenticate_exchange _ _ w) as [[[response | e] c2] w2] eqn:Hx;
    intros H;
    pose proof (exchange_inv _ _ _ _ _ _ Hi' Hx) as I2;
    pose proof (fun Ht => exchange_spec _ _ _ _ _ _ Ht Hx) as X;
    specialize (X eq_refl); destruct X as (_ & _ & _ & _ & Xf & _).
  - specialize (Xf ltac:(discriminate)). destruct Xf as [Xf1 Xf2].
    fields.
    destruct (request_id response =? -1);
      [| destruct (negb (request_id response =? auth_id))];
      inv_run H; solve_inv.
  - destruct (is_RCONError e); inv_run H; [now apply mark_down_inv | assumption].
Qed.

Lemma connect_inv (c c' : RCONClient) (w w' : World) (r : result unit) :
  client_inv c ->
  _connect_internal c w = (r, c', w') ->
  client_inv c'.
Proof.
  intros Hi. unfold _connect_internal.
  destruct (_connected c) eqn:Hc; [intros H; now inv_run H |].
  cbn [emit pending trace].
  destruct (pending w) as [| [rx tx | |] rest]; intros H;
    try solve [now inv_run H].
  apply authenticate_inv in H; [assumption | | reflexivity].
  solve_inv.
Qed.

Lemma disconnect_inv (c : RCONClient) (w : World) :
  client_inv c ->
  exists c' w',
    _disconnect_internal c w = (Ok tt, c', w')
    /\ client_inv c'
    /\ _writer c' = None /\ _reader c' = None
    /\ _connected c' = false /\ _authenticated c' = false.
Proof.
  intros Hi. unfold _disconnect_internal. destruct (_writer c) eqn:Hw.
  - eexists; eexists. split; [reflexivity |]. solve_inv.
  - exists c, w. split; [reflexivity |].
    assert (Hc : _connected c = false).
    { destruct (_connected c) eqn:E; [| reflexivity].
      now contradiction (proj1 Hi E). }
    assert (Ha : _authenticated c = false).
    { destruct (_authenticated c) eqn:E; [| reflexivity].
      destruct Hi as (_ & H2 & _). specialize (H2 E). congruence. }
    splits; try assumption. now apply Hi.
Qed.

Lemma reconnect_attempt_inv (c c' : RCONClient) (w w' : World)
    (r : result unit) :
  client_inv c ->
  _reconnect_attempt c w = (r, c', w') ->
  client_inv c'
  /\ match r with
     | Ok _ => is_connected c' = true
     | Raise e => is_RCONError e = true -> _connected c' = false
     end.
Proof.
  intros Hi. unfold _reconnect_attempt, bind.
  destruct (disconnect_inv c w Hi) as (c1 & w1 & Hd & I1 & _ & _ & Hc & _).
  rewrite Hd. unfold log_event. intros H. split.
  - exact (connect_inv _ _ _ _ _ I1 H).
  - destruct (connect_spec _ _ _ _ _ Hc H) as (_ & _ & Hr).
    destruct r; [apply Hr | exact Hr].
Qed.

Lemma connected_down (c : RCONClient) :
  _connected c = false -> is_connected c = false.
Proof. unfold is_connected. now intros ->. Qed.

Lemma reconnect_loop_inv (n : nat) :
  forall (c c' : RCONClient) (w w' : World) (r : result bool),
    client_inv c ->
    _reconnect_loop n c w = (r, c', w') ->
    client_inv c'
    /\ match r with
       | Ok true => is_connected c' = true
       | Ok false => is_connected c = false -> is_connected c' = false
       | Raise e => is_RCONError e = false
       end.
Proof.
  induction n as [| n IH]; intros c c' w w' r Hi H.
  - cbn [_reconnect_loop] in H. unfold ret in H. inv_run H. auto.
  - rewrite reconnect_loop_unfold in H.
    destruct (_reconnect_attempt c w) as [[[[] | e] c1] w1] eqn:Ha;
      pose proof (reconnect_attempt_inv _ _ _ _ _ Hi Ha) as (I1 & Ar).
    + inv_run H. auto.
    + destruct (is_RCONError e) eqn:He.
      * destruct (IH _ _ _ _ _ I1 H) as (I2 & Ir). split; [assumption |].
        destruct r as [[|] | e']; try assumption.
        intros _. apply Ir, connected_down, Ar. reflexivity.
      * inv_run H. auto.
Qed.

Lemma reconnect_inv (c c' : RCONClient) (w w' : World) (r : result bool) :
  client_inv c ->
  _reconnect c w = (r, c', w') ->
  client_inv c'
  /\ match r with
     | Ok true => is_connected c' = true
     | Ok false => is_connected c = false -> is_connected c' = false
     | Raise e => is_RCONError e = false
     end.
Proof. unfold _reconnect. apply reconnect_loop_inv. Qed.

Lemma collect_fuel_inv (rid : Z) (fuel : nat) :
  forall (rs : list str) (c c' : RCONClient) (w w' : World) r,
    client_inv c ->
    _collect_fuel fuel rid rs c w = Some (r, c', w') ->
    client_inv c'
    /\ (raised r = Some RCONConnectionError -> is_connected c' = false).
Proof.
  induction fuel as [| fuel IH]; intros rs c c' w w' r Hi H;
    cbn [_collect_fuel] in H; [discriminate |].
  destruct (_receive_packet c w) as [[[response | e] c1] w1] eqn:Hrecv;
    pose proof (recv_inv _ _ _ _ _ Hi Hrecv) as [I1 D1].
  - destruct (negb (request_id response =? rid)).
    + exact (IH _ _ _ _ _ _ I1 H).
    + assert (Hout : (r, c', w') = (Ok (rs ++ [payload response]), c1, w1)).
      { destruct (has_reader c1 && reader_at_eof c1);
          [now apply Some_inj in H |].
        destruct (negb (has_reader c1) || reader_at_eof c1);
          now apply Some_inj in H. }
      inv_run Hout. split; [assumption | discriminate].
  - apply Some_inj in H. inv_run H. auto.
Qed.

Lemma attempt_inv (command : str) (c c' : RCONClient) (w w' : World)
    (r : result str) :
  client_inv c ->
  _execute_attempt command c w = (r, c', w') ->
  client_inv c'
  /\ (raised r = Some RCONConnectionError -> is_connected c' = false).
Proof.
  intros Hi. unfold _execute_attempt, bind. rewrite next_request_id_value.
  pose proof (next_request_id_inv c Hi) as Hi'.
  unfold _execute_try, bind, ret.
  destruct (_send_packet _ _ w) as [[[[] | e] c1] w1] eqn:Hs;
    pose proof (send_inv _ _ _ _ _ _ Hi' Hs) as [I1 D1].
  2:{ intros H. inv_run H. auto. }
  unfold _collect.
  destruct (_collect_fuel _ _ _ c1 w1) as [[[rr c2] w2] |] eqn:Hc.
  - destruct (collect_fuel_inv _ _ _ _ _ _ _ _ I1 Hc) as [I2 D2].
    destruct rr; intros H; inv_run H; split; try assumption; discriminate.
  - intros H. inv_run H. split; [assumption | discriminate].
Qed.

Lemma precheck_state (retry : bool) (c c' : RCONClient) (w w' : World)
    (r : result unit) :
  client_inv c ->
  _execute_precheck retry c w = (r, c', w') ->
  outcome_state r c'.
Proof.
  intros Hi. unfold _execute_precheck, bind, outcome_state. intros H.
  destruct (is_connected c) eqn:Hc; cbn [negb] in H.
  { inv_run H. splits; [assumption | auto | discriminate]. }
  destruct (auto_reconnect c && retry).
  2:{ inv_run H. splits; [assumption | discriminate | auto]. }
  destruct (_reconnect c w) as [[[b | e] c1] w1] eqn:Hr;
    pose proof (reconnect_inv _ _ _ _ _ Hi Hr) as (I1 & Rr).
  - destruct b; cbn [negb] in H; inv_run H;
      splits; try assumption; try discriminate; auto.
  - inv_run H. splits; [assumption | discriminate |].
    cbn [raised]. intros E. apply Some_inj in E. subst e. discriminate.
Qed.

Section RecursiveCallState.

Variable self_call : str -> M str.
Variable command : str.

Hypothesis self_call_state :
  forall c w r c' w',
    client_inv c ->
    self_call command c w = (r, c', w') ->
    outcome_state r c'.

Lemma except_state (retry : bool) (e : exn) (c c' : RCONClient)
    (w w' : World) (r : result str) :
  client_inv c ->
  (e = RCONConnectionError -> is_connected c = false) ->
  _execute_except self_call command retry e c w = (r, c', w') ->
  client_inv c'
  /\ (raised r = None -> is_connected c' = true)
  /\ (raised r = Some RCONConnectionError -> is_connected c' = false).
Proof.
  intros Hi Hd. unfold _execute_except, bind.
  assert (Hre : (Raise e, c, w) = (r, c', w') ->
                client_inv c'
                /\ (raised r = None -> is_connected c' = true)
                /\ (raised r = Some RCONConnectionError ->
                    is_connected c' = false)).
  { intros H. inv_run H. splits; [assumption | discriminate |].
    cbn [raised]. intros E. apply Some_inj in E. auto. }
  assert (Hre' : (Raise e, mark_down c, w) = (r, c', w') ->
                 client_inv c'
                 /\ (raised r = None -> is_connected c' = true)
                 /\ (raised r = Some RCONConnectionError ->
                     is_connected c' = false)).
  { intros H. inv_run H.
    splits; [now apply mark_down_inv | discriminate | reflexivity]. }
  assert (Hrec :
             (let (p, w2) := _reconnect (mark_down c) w in
              let (r0, c2) := p in
              match r0 with
              | Ok ok =>
                  (if ok then self_call command else raise e) c2 w2
              | Raise e0 => (Raise e0, c2, w2)
              end) = (r, c', w') ->
             client_inv c'
             /\ (raised r = None -> is_connected c' = true)
             /\ (raised r = Some RCONConnectionError ->
                 is_connected c' = false)).
  { intros H.
    destruct (_reconnect (mark_down c) w) as [[[ok | e0] c2] w2] eqn:Hr;
      pose proof (reconnect_inv _ _ _ _ _ (mark_down_inv c Hi) Hr)
        as (I2 & Rr).
    - destruct ok.
      + exact (self_call_state _ _ _ _ _ I2 H).
      + unfold raise in H. inv_run H.
        splits; [assumption | discriminate |].
        intros _. now apply Rr.
    - inv_run H. splits; [assumption | discriminate |].
      cbn [raised]. intros E. apply Some_inj in E. subst e0. discriminate. }
  destruct e; try exact Hre.
  - destruct (auto_reconnect (mark_down c) && retry);
      [exact Hrec | exact Hre'].
  - destruct (auto_reconnect c && retry); [exact Hrec | exact Hre].
Qed.

Lemma body_state (retry : bool) (c c' : RCONClient) (w w' : World)
    (r : result str) :
  client_inv c ->
  _execute_internal_body self_call command retry c w = (r, c', w') ->
  outcome_state r c'.
Proof.
  intros Hi. rewrite body_unfold. unfold outcome_state.
  destruct (_execute_precheck retry c w) as [[[[] | e] c0] w0] eqn:Hp;
    pose proof (precheck_state _ _ _ _ _ _ Hi Hp) as (I0 & P1 & P2).
  2:{ intros H. inv_run H. splits; [assumption | discriminate | exact P2]. }
  specialize (P1 eq_refl).
  destruct (_execute_attempt command c0 w0) as [[[s | e] c1] w1] eqn:Ha;
    pose proof (attempt_inv _ _ _ _ _ _ I0 Ha) as (I1 & A1);
    pose proof (attempt_spec _ _ _ _ _ _ Ha) as (_ & _ & _ & Af & _);
    intros H.
  - inv_run H. splits; [assumption | | discriminate].
    intros _. destruct (Af ltac:(discriminate)) as [F1 F2].
    unfold is_connected in *. now rewrite F1, F2.
  - apply (except_state retry e c1 c' w1 w' r I1); [| exact H].
    intros ->. now apply A1.
Qed.

End RecursiveCallState.

Lemma execute_state (command : str) (retry : bool) (c c' : RCONClient)
    (w w' : World) (r : result str) :
  client_inv c ->
  _execute_internal command retry c w = (r, c', w') ->
  outcome_state r c'.
Proof.
  intros Hi H. rewrite _execute_internal_unfold in H.
  apply (body_state _ command) in H; [assumption | | assumption].
  clear. intros c w r c' w' Hi H.
  unfold _execute_internal, _execute_internal_once in H.
  rewrite (body_no_retry _ (fun _ => raise RCONTimeoutError)) in H.
  apply (body_state _ command) in H; [assumption | | assumption].
  clear. intros c w r c' w' Hi H. unfold raise in H. inv_run H.
  unfold outcome_state. splits; [assumption | discriminate | discriminate].
Qed.

Lemma client_inv_init (pw : str) (ar : bool) (m : Z) :
  client_inv (init pw ar m).
Proof.
  unfold client_inv, init. cbn. splits; try discriminate; try tauto; lia.
Qed.

(** X13.  The invariant of the client object — a connected client has
    its transport, an authenticated client is connected, reader and writer
    come and go together, the counter of request IDs is in
    [[0, 2147483646]] — holds of a new client and is kept by [connect],
    by [disconnect] and by [execute], whatever the server and the
    transport do. *)
Theorem client_inv_kept (pw : str) (ar : bool) (m : Z) (c : RCONClient)
    (w : World) (command : str) :
  client_inv c ->
  client_inv (init pw ar m)
  /\ client_inv (run_client (connect c w))
  /\ client_inv (run_client (disconnect c w))
  /\ client_inv (run_client (execute command c w)).
Proof.
  intros Hi. splits.
  - apply client_inv_init.
  - destruct (connect c w) as [[r c'] w'] eqn:H.
    exact (connect_inv _ _ _ _ _ Hi H).
  - destruct (disconnect_inv c w Hi) as (c' & w' & H & I & _).
    unfold disconnect. now rewrite H.
  - destruct (execute command c w) as [[r c'] w'] eqn:H.
    exact (proj1 (execute_state _ _ _ _ _ _ _ Hi H)).
Qed.

Lemma client_inv_kept_witness :
  client_inv (init (py "secret123") false 0)
  /\ client_inv (run_client (connect client_fresh world_dropping))
  /\ client_inv (run_client (disconnect client_fresh world_dropping))
  /\ client_inv (run_client (execute (py "list") client_fresh world_dropping)).
Proof.
  apply client_inv_kept.
  unfold client_inv. cbn. splits; try discriminate; try tauto; lia.
Defined.

(** X14.  The outcome of [execute] tells the state of the connection: on
    a client that satisfies the invariant, when [execute] returns a
    response the client is connected and authenticated, and when it raises
    [RCONConnectionError] the client is not. *)
Theorem execute_outcome_tells_state (command : str) (c : RCONClient)
    (w : World) :
  client_inv c ->
  match run_result (execute command c w) with
  | Ok _ => is_connected (run_client (execute command c w)) = true
  | Raise RCONConnectionError =>
      is_connected (run_client (execute command c w)) = false
  | Raise _ => True
  end.
Proof.
  intros Hi. destruct (execute command c w) as [[r c'] w'] eqn:H.
  destruct (execute_state _ _ _ _ _ _ _ Hi H) as (_ & H1 & H2).
  cbn [run_result run_client fst snd].
  destruct r as [s | []]; auto.
Qed.

Lemma execute_outcome_tells_state_witness :
  match run_result (execute (py "list") client_fresh world_accepting) with
  | Ok _ =>
      is_connected (run_client (execute (py "list") client_fresh
                                        world_accepting)) = true
  | Raise RCONConnectionError =>
      is_connected (run_client (execute (py "list") client_fresh
                                        world_accepting)) = false
  | Raise _ => True
  end.
Proof.
  apply execute_outcome_tells_state.
  unfold client_inv. cbn. splits; try discriminate; try tauto; lia.
Defined.

(** ** Reconnection: how much of it *)

Lemma conn_bounded_io (w w' : World) : grows is_io w w' -> conn_bounded 0 w w'.
Proof.
  intros (delta & Ht & Hd). exists delta. split; [assumption |].
  assert (forall f, (forall ev, is_io ev -> f ev = false) ->
                    (count f delta <= 0)%nat) as Hz.
  { intros f Hf. rewrite count_none; [lia |].
    eapply Forall_impl; [| exact Hd]. exact Hf. }
  splits; apply Hz; intros ev (H1 & H2 & H3); assumption.
Qed.

Lemma conn_bounded_trans (a b : nat) (w1 w2 w3 : World) :
  conn_bounded a w1 w2 -> conn_bounded b w2 w3 ->
  conn_bounded (a + b) w1 w3.
Proof.
  intros (d1 & H1 & A1 & A2 & A3) (d2 & H2 & B1 & B2 & B3).
  exists (d1 ++ d2). rewrite H2, H1, <- app_assoc, !count_app.
  splits; [reflexivity | lia | lia | lia].
Qed.

Lemma conn_bounded_weaken (a b : nat) (w w' : World) :
  (a <= b)%nat -> conn_bounded a w w' -> conn_bounded b w w'.
Proof.
  intros Hab (d & H & A1 & A2 & A3). exists d. splits; [assumption | | |]; lia.
Qed.

Lemma conn_bounded_refl (w : World) : conn_bounded 0 w w.
Proof. apply conn_bounded_io, grows_refl. Qed.

Lemma handshake_io_is_io (ev : event) : is_handshake_io ev -> is_io ev.
Proof.
  destruct ev; intros [H | [H1 H2]]; try discriminate; repeat split.
Qed.

Lemma connect_conn (c c' : RCONClient) (w w' : World) (r : result unit) :
  _connect_internal c w = (r, c', w') ->
  exists delta,
    trace w' = trace w ++ delta
    /\ (count is_open delta <= 1)%nat
    /\ count is_reconnect_sleep delta = 0%nat
    /\ count is_close delta = 0%nat.
Proof.
  intros H. destruct (_connected c) eqn:Hc.
  - rewrite connect_connected in H by assumption. inv_run H.
    exists []. rewrite app_nil_r. splits; try reflexivity. cbn. lia.
  - destruct (connect_spec _ _ _ _ _ Hc H) as (_ & (delta & Ht & Hd) & _).
    exists (EvOpen :: delta). split; [assumption |].
    change (EvOpen :: delta) with ([EvOpen] ++ delta). rewrite !count_app.
    assert (forall f, (forall ev, is_io ev -> f ev = false) ->
                      count f delta = 0%nat) as Hz.
    { intros f Hf. apply count_none.
      eapply Forall_impl; [| exact Hd].
      intros ev Hev. now apply Hf, handshake_io_is_io. }
    rewrite !Hz by (intros ev (H1 & H2 & H3); assumption).
    unfold count. cbn. splits; lia.
Qed.

Lemma reconnect_attempt_conn (c c' : RCONClient) (w w' : World)
    (r : result unit) :
  _reconnect_attempt c w = (r, c', w') -> conn_bounded 1 w w'.
Proof.
  unfold _reconnect_attempt, bind, _disconnect_internal, log_event.
  intros H.
  assert (Hd : exists d,
             (d = [] \/ d = [EvClose])
             /\ exists c1,
                 _connect_internal c1
                   (mkWorld (pending w) ((trace w ++ d) ++ [EvReconnectSleep]))
                 = (r, c', w')).
  { destruct (_writer c).
    - exists [EvClose]. split; [now right |].
      eexists. exact H.
    - exists []. split; [now left |]. exists c.
      rewrite app_nil_r. destruct w. exact H. }
  destruct Hd as (d & Hd & c1 & Hc). apply connect_conn in Hc.
  destruct Hc as (delta & Ht & C1 & C2 & C3). cbn [trace] in Ht.
  exists (d ++ [EvReconnectSleep] ++ delta).
  rewrite Ht, <- !app_assoc, !count_app.
  split; [reflexivity |].
  destruct Hd as [-> | ->]; unfold count in *; cbn in *; splits; lia.
Qed.

Lemma reconnect_loop_conn (n : nat) :
  forall (c c' : RCONClient) (w w' : World) (r : result bool),
    _reconnect_loop n c w = (r, c', w') -> conn_bounded n w w'.
Proof.
  induction n as [| n IH]; intros c c' w w' r H.
  - cbn [_reconnect_loop] in H. unfold ret in H. inv_run H.
    apply conn_bounded_refl.
  - rewrite reconnect_loop_unfold in H.
    destruct (_reconnect_attempt c w) as [[[[] | e] c1] w1] eqn:Ha;
      pose proof (reconnect_attempt_conn _ _ _ _ _ Ha) as A.
    + inv_run H. apply (conn_bounded_weaken 1); [lia | assumption].
    + destruct (is_RCONError e).
      * apply IH in H. apply (conn_bounded_trans 1 n w w1 w'); assumption.
      * inv_run H. apply (conn_bounded_weaken 1); [lia | assumption].
Qed.

(** X15.  [_reconnect] makes at most [max_reconnect_attempts] connection
    attempts, with one pause before each and at most one transport closed
    for each; when [max_reconnect_attempts] is not positive it does
    nothing and returns [False]. *)
Theorem reconnect_attempts_bounded (c : RCONClient) (w : World) :
  conn_bounded (Z.to_nat (max_reconnect_attempts c)) w
               (run_world (_reconnect c w))
  /\ (max_reconnect_attempts c <= 0 -> _reconnect c w = (Ok false, c, w)).
Proof.
  split.
  - destruct (_reconnect c w) as [[r c'] w'] eqn:H. unfold _reconnect in H.
    exact (reconnect_loop_conn _ _ _ _ _ _ H).
  - intros Hm. unfold _reconnect.
    replace (Z.to_nat (max_reconnect_attempts c)) with 0%nat by lia.
    reflexivity.
Qed.

(** *** The whole of [execute] *)

Lemma attempt_conn (command : str) (rid : Z) (r : result str) (w w' : World) :
  attempt_trace command rid r w w' -> conn_bounded 0 w w'.
Proof.
  assert (Hrecv : forall l, Forall is_io (map EvRecv l)).
  { intros l. apply Forall_forall. intros ev Hev. apply in_map_iff in Hev.
    destruct Hev as (p & <- & _). repeat split. }
  intros [[-> _] | (data & sk & _ & _ & Hr)]; [apply conn_bounded_refl |].
  apply conn_bounded_io. destruct r as [s | e].
  - destruct Hr as (p & _ & _ & Ht).
    exists (EvWrite data :: map EvRecv sk ++ [EvRecv p]).
    split; [assumption |]. constructor; [repeat split |].
    apply Forall_app. split; [apply Hrecv | repeat constructor].
  - exists (EvWrite data :: map EvRecv sk). split; [assumption |].
    constructor; [repeat split | apply Hrecv].
Qed.

Lemma precheck_conn (retry : bool) (c c' : RCONClient) (w w' : World)
    (r : result unit) :
  _execute_precheck retry c w = (r, c', w') ->
  conn_bounded (if auto_reconnect c && retry
                then Z.to_nat (max_reconnect_attempts c) else 0) w w'.
Proof.
  unfold _execute_precheck, bind. intros H.
  destruct (negb (is_connected c)).
  2:{ inv_run H. apply (conn_bounded_weaken 0); [lia | apply conn_bounded_refl]. }
  destruct (auto_reconnect c && retry).
  2:{ inv_run H. apply conn_bounded_refl. }
  destruct (_reconnect c w) as [[[b | e] c1] w1] eqn:Hr;
    unfold _reconnect in Hr; apply reconnect_loop_conn in Hr.
  - destruct b; cbn [negb] in H; inv_run H; assumption.
  - inv_run H. assumption.
Qed.

Section RecursiveCallConn.

Variable self_call : str -> M str.
Variable k : nat.
Variable command : str.

Hypothesis self_call_conn :
  forall c w r c' w',
    self_call command c w = (r, c', w') -> conn_bounded k w w'.

Lemma except_conn (retry : bool) (e : exn) (c c' : RCONClient)
    (w w' : World) (r : result str) :
  _execute_except self_call command retry e c w = (r, c', w') ->
  conn_bounded (if auto_reconnect c && retry
                then Z.to_nat (max_reconnect_attempts c) + k else 0) w w'.
Proof.
  unfold _execute_except, bind.
  assert (Hre : forall c0 : RCONClient,
             (Raise e, c0, w) = (r, c', w') ->
             forall n, conn_bounded n w w').
  { intros c0 H n. inv_run H.
    apply (conn_bounded_weaken 0); [lia | apply conn_bounded_refl]. }
  assert (Hrec :
             (let (p, w2) := _reconnect (mark_down c) w in
              let (r0, c2) := p in
              match r0 with
              | Ok ok =>
                  (if ok then self_call command else raise e) c2 w2
              | Raise e0 => (Raise e0, c2, w2)
              end) = (r, c', w') ->
             conn_bounded (Z.to_nat (max_reconnect_attempts c) + k) w w').
  { intros H.
    destruct (_reconnect (mark_down c) w) as [[[ok | e0] c2] w2] eqn:Hr;
      unfold _reconnect in Hr; apply reconnect_loop_conn in Hr;
      cbn [mark_down set_authenticated set_connected
           max_reconnect_attempts] in Hr.
    - destruct ok.
      + apply self_call_conn in H.
        eapply conn_bounded_trans; eassumption.
      + unfold raise in H. inv_run H.
        eapply conn_bounded_weaken; [| exact Hr]. lia.
    - inv_run H. eapply conn_bounded_weaken; [| exact Hr]. lia. }
  destruct e; try (intros H; destruct (auto_reconnect c && retry);
                   now apply (Hre _ H)).
  - change (auto_reconnect (mark_down c)) with (auto_reconnect c).
    destruct (auto_reconnect c && retry);
      [exact Hrec | intros H; now apply (Hre _ H)].
  - destruct (auto_reconnect c && retry);
      [exact Hrec | intros H; now apply (Hre _ H)].
Qed.

Lemma body_conn (retry : bool) (c c' : RCONClient) (w w' : World)
    (r : result str) :
  _execute_internal_body self_call command retry c w = (r, c', w') ->
  conn_bounded (if auto_reconnect c && retry
                then 2 * Z.to_nat (max_reconnect_attempts c) + k else 0)
               w w'.
Proof.
  rewrite body_unfold.
  destruct (_execute_precheck retry c w) as [[[[] | e] c0] w0] eqn:Hp;
    pose proof (precheck_spec _ _ _ _ _ _ Hp) as ((_ & Pa & Pm) & _);
    apply precheck_conn in Hp.
  2:{ intros H. inv_run H. eapply conn_bounded_weaken; [| exact Hp].
      destruct (auto_reconnect c && retry); lia. }
  destruct (_execute_attempt command c0 w0) as [[[s | e] c1] w1] eqn:Ha;
    pose proof (attempt_spec _ _ _ _ _ _ Ha) as ((_ & Aa & Am) & _ & _ & _ & At);
    apply attempt_conn in At; intros H.
  - inv_run H. pose proof (conn_bounded_trans _ _ _ _ _ Hp At) as B.
    eapply conn_bounded_weaken; [| exact B].
    destruct (auto_reconnect c && retry); lia.
  - apply except_conn in H. rewrite Aa, Am, Pa, Pm in H.
    pose proof (conn_bounded_trans _ _ _ _ _ Hp
                  (conn_bounded_trans _ _ _ _ _ At H)) as B.
    eapply conn_bounded_weaken; [| exact B].
    destruct (auto_reconnect c && retry); lia.
Qed.

End RecursiveCallConn.

Lemma execute_conn (command : str) (retry : bool) (c c' : RCONClient)
    (w w' : World) (r : result str) :
  _execute_internal command retry c w = (r, c', w') ->
  conn_bounded (if auto_reconnect c && retry
                then 2 * Z.to_nat (max_reconnect_attempts c) else 0) w w'.
Proof.
  intros H. apply (body_conn _ 0) in H.
  - eapply conn_bounded_weaken; [| exact H].
    destruct (auto_reconnect c && retry); lia.
  - clear. intros c w r c' w' H. unfold _execute_internal_once in H.
    apply (body_conn _ 0) in H.
    + rewrite andb_false_r in H. exact H.
    + clear. intros c w r c' w' H. unfold raise in H. inv_run H.
      apply conn_bounded_refl.
Qed.

(** X16.  One call of [execute] makes at most twice
    [max_reconnect_attempts] connection attempts (as many before the
    command as after a failure of it), with as many pauses and closed
    transports at most; with auto-reconnect disabled it makes none. *)
Theorem execute_reconnects_bounded (command : str) (c : RCONClient)
    (w : World) :
  conn_bounded (2 * Z.to_nat (max_reconnect_attempts c)) w
               (run_world (execute command c w))
  /\ (auto_reconnect c = false ->
      conn_bounded 0 w (run_world (execute command c w))).
Proof.
  destruct (execute command c w) as [[r c'] w'] eqn:H.
  apply execute_conn in H. cbn [run_world snd]. split.
  - eapply conn_bounded_weaken; [| exact H].
    destruct (auto_reconnect c && true); lia.
  - intros Ha. now rewrite Ha in H.
Qed.

(** *** Nobody listens *)

Lemma reconnect_loop_refused (n : nat) :
  forall (c : RCONClient) (w : World),
    _connected c = false ->
    _writer c = None ->
    forallb refusing (pending w) = true ->
    _reconnect_loop n c w
    = (Ok false, c,
       mkWorld (skipn n (pending w))
               (trace w ++ concat (repeat [EvReconnectSleep; EvOpen] n))).
Proof.
  induction n as [| n IH]; intros c w Hc Hw Hp.
  - cbn [_reconnect_loop repeat concat skipn]. unfold ret.
    rewrite app_nil_r. now destruct w.
  - rewrite reconnect_loop_unfold.
    unfold _reconnect_attempt, bind, _disconnect_internal, log_event,
      _connect_internal.
    rewrite Hw, Hc. cbn [emit pending trace].
    revert Hp.
    destruct (pending w) as [| [rx tx | |] rest] eqn:Ep; intros Hp;
      cbn [forallb refusing andb] in Hp; try discriminate;
      cbn [is_RCONError];
      rewrite IH
        by (cbn [pending emit]; rewrite ?Ep; solve [assumption | reflexivity]);
      cbn [pending emit trace skipn repeat concat]; rewrite ?Ep;
      rewrite <- !app_assoc; try reflexivity.
    now destruct n.
Qed.

(** X17.  When nobody listens — every connection attempt times out or is
    refused — [execute] on a client that is not connected and has
    auto-reconnect enabled raises [RCONConnectionError] after exactly
    [max_reconnect_attempts] attempts, each after a pause; nothing is
    written, and the client is left as it was. *)
Theorem execute_gives_up_when_refused (command : str) (c : RCONClient)
    (w : World) :
  _connected c = false ->
  _writer c = None ->
  auto_reconnect c = true ->
  forallb refusing (pending w) = true ->
  execute command c w
  = (Raise RCONConnectionError, c,
     mkWorld (skipn (Z.to_nat (max_reconnect_attempts c)) (pending w))
             (trace w
              ++ concat (repeat [EvReconnectSleep; EvOpen]
                                (Z.to_nat (max_reconnect_attempts c))))).
Proof.
  intros Hc Hw Ha Hp. unfold execute.
  rewrite _execute_internal_unfold, body_unfold.
  unfold _execute_precheck, is_connected, bind, _reconnect.
  rewrite Hc, Ha. cbn [andb negb].
  rewrite reconnect_loop_refused by assumption. reflexivity.
Qed.

Lemma execute_gives_up_when_refused_witness :
  execute (py "list") client_fresh (mkWorld [ConnRefused; ConnTimeout] [])
  = (Raise RCONConnectionError, client_fresh,
     mkWorld []
             [EvReconnectSleep; EvOpen; EvReconnectSleep; EvOpen;
              EvReconnectSleep; EvOpen]).
Proof.
  apply (execute_gives_up_when_refused
           (py "list") client_fresh (mkWorld [ConnRefused; ConnTimeout] []));
    reflexivity.
Defined.

(** ** A session: handshake, commands, cleanup *)

(** X18.  The handshake is decided by the request ID of the response that
    [_authenticate] examines, and by nothing else of it: when the ID is
    that of the [Auth] packet, [connect] returns and the client is
    connected and authenticated; with any other ID — -1 or not —
    [connect] raises [RCONAuthenticationError] and the two flags are
    down. *)
Theorem connect_decided_by_response_id (c : RCONClient) (w : World)
    (response : RCONPacket) :
  authoritative_response c w = Some response ->
  if request_id response =? (_request_id c + 1) mod 2147483647
  then run_result (connect c w) = Ok tt
       /\ is_connected (run_client (connect c w)) = true
       /\ _request_id (run_client (connect c w)) = request_id response
  else run_result (connect c w) = Raise RCONAuthenticationError
       /\ _connected (run_client (connect c w)) = false
       /\ _authenticated (run_client (connect c w)) = false.
Proof.
  unfold authoritative_response, connect, _connect_internal.
  destruct (_connected c); [discriminate |].
  cbn [emit pending trace].
  destruct (pending w) as [| [rx tx | |] rest]; try discriminate.
  rewrite authenticate_unfold. cbv zeta.
  unfold bind at 1. rewrite next_request_id_value.
  cbn [password set_request_id set_connected set_writer set_reader _request_id].
  pose proof (next_request_id_range c) as Hrange.
  set (auth_id := (_request_id c + 1) mod 2147483647) in *.
  match goal with
  | |- context [_authenticate_exchange ?p ?c1 ?w1] =>
      destruct (_authenticate_exchange p c1 w1) as [[[resp | e] c2] w2] eqn:Hx
  end; [| discriminate].
  intros Hs. apply Some_inj in Hs. subst resp.
  pose proof (fun Ht => exchange_spec _ _ _ _ _ _ Ht Hx) as X.
  specialize (X eq_refl). destruct X as (_ & Xid & _ & _ & Xf & _).
  destruct (Xf ltac:(discriminate)) as [Xf1 Xf2].
  cbn [_connected _authenticated _request_id] in Xf1, Xf2, Xid.
  unfold run_result, run_client.
  destruct (Z.eqb_spec (request_id response) auth_id) as [E | E].
  - destruct (Z.eqb_spec (request_id response) (-1)) as [E1 | E1]; [lia |].
    cbn [negb fst snd]. fields. splits; [reflexivity | | congruence].
    unfold is_connected. fields. now rewrite Xf1.
  - destruct (request_id response =? -1); cbn [negb fst snd];
      splits; reflexivity.
Qed.

Lemma connect_decided_by_response_id_witness :
  if request_id (mkPacket 1 SERVERDATA_AUTH_RESPONSE [])
     =? (_request_id client_fresh + 1) mod 2147483647
  then run_result (connect client_fresh world_accepting) = Ok tt
       /\ is_connected (run_client (connect client_fresh world_accepting))
          = true
       /\ _request_id (run_client (connect client_fresh world_accepting))
          = request_id (mkPacket 1 SERVERDATA_AUTH_RESPONSE [])
  else run_result (connect client_fresh world_accepting)
       = Raise RCONAuthenticationError
       /\ _connected (run_client (connect client_fresh world_accepting))
          = false
       /\ _authenticated (run_client (connect client_fresh world_accepting))
          = false.
Proof.
  apply (connect_decided_by_response_id client_fresh world_accepting
           (mkPacket 1 SERVERDATA_AUTH_RESPONSE [])).
  vm_compute. reflexivity.
Defined.

(** *** A command that is answered *)

Lemma frame_of_encoded (p : RCONPacket) (data : bytes) :
  encode p = Ok data -> frame_of p = map RxByte data.
Proof. unfold frame_of. now intros ->. Qed.

Lemma trace_recvs (l : list RCONPacket) :
  forall w,
    trace (fold_left (fun w p => emit (EvRecv p) w) l w)
    = trace w ++ map EvRecv l.
Proof.
  induction l as [| p l IH]; intros w; cbn [fold_left map].
  - now rewrite app_nil_r.
  - rewrite IH. cbn [emit trace]. now rewrite <- app_assoc.
Qed.

Lemma collect_answer (rid : Z) (answer : RCONPacket) (rest : list rx_item)
    (stale : list RCONPacket) :
  request_id answer = rid ->
  (exists d, encode answer = Ok d /\ Z.of_nat (length d) <= 4100) ->
  Forall (fun q => request_id q <> rid
                   /\ exists d, encode q = Ok d
                                /\ Z.of_nat (length d) <= 4100) stale ->
  forall (rs : list str) (c : RCONClient) (w : World),
    _reader c = Some (flat_map frame_of stale ++ frame_of answer ++ rest) ->
    _collect rid rs c w
    = (Ok (rs ++ [payload answer]), set_reader c (Some rest),
       fold_left (fun w p => emit (EvRecv p) w) (stale ++ [answer]) w).
Proof.
  intros Hid (d & Hd & Hl) Hstale.
  induction Hstale as [| q stale (Hq & dq & Hdq & Hlq) _ IH];
    intros rs c w Hrd; rewrite _collect_unfold.
  - cbn [flat_map app] in Hrd. rewrite (frame_of_encoded _ _ Hd) in Hrd.
    rewrite (receive_encoded c w answer d rest Hd Hl Hrd).
    apply Z.eqb_eq in Hid. rewrite Hid. reflexivity.
  - cbn [flat_map] in Hrd.
    rewrite (frame_of_encoded _ _ Hdq), <- app_assoc in Hrd.
    rewrite (receive_encoded c w q dq _ Hdq Hlq Hrd).
    apply Z.eqb_neq in Hq. rewrite Hq. cbn [negb].
    rewrite IH by reflexivity. reflexivity.
Qed.

Lemma attempt_answer (command : str) (c : RCONClient)
    (w : World) (tx : list drain_outcome) (data : bytes)
    (stale : list RCONPacket) (answer : RCONPacket) (rest : list rx_item) :
  _writer c = Some tx ->
  drain_ready tx = true ->
  encode (mkPacket ((_request_id c + 1) mod 2147483647)
                   SERVERDATA_EXECCOMMAND command) = Ok data ->
  _reader c = Some (flat_map frame_of stale ++ frame_of answer ++ rest) ->
  Forall (fun q => request_id q <> (_request_id c + 1) mod 2147483647
                   /\ exists d, encode q = Ok d
                                /\ Z.of_nat (length d) <= 4100) stale ->
  request_id answer = (_request_id c + 1) mod 2147483647 ->
  (exists d, encode answer = Ok d /\ Z.of_nat (length d) <= 4100) ->
  exists c' w',
    _execute_attempt command c w = (Ok (payload answer), c', w')
    /\ trace w' = trace w ++ EvWrite data :: map EvRecv stale
                                          ++ [EvRecv answer]
    /\ _reader c' = Some rest
    /\ is_connected c' = is_connected c.
Proof.
  intros Hw Htx He Hrd Hstale Hid Hans.
  unfold _execute_attempt, bind at 1. rewrite next_request_id_value.
  set (rid := (_request_id c + 1) mod 2147483647) in *.
  unfold _execute_try, bind, ret, _send_packet.
  cbn [_writer set_request_id]. rewrite Hw, He.
  assert (Hgo : forall c1 : RCONClient,
             _reader c1 = _reader c ->
             is_connected c1 = is_connected c ->
             exists c' w',
               match _collect rid [] c1 (emit (EvWrite data) w) with
               | (Ok a, c', w') => (Ok (join a), c', w')
               | (Raise e, c', w') => (@Raise str e, c', w')
               end = (Ok (payload answer), c', w')
               /\ trace w' = trace w ++ EvWrite data :: map EvRecv stale
                                                     ++ [EvRecv answer]
               /\ _reader c' = Some rest
               /\ is_connected c' = is_connected c).
  { intros c1 Hr1 Hc1.
    rewrite (collect_answer rid answer rest stale Hid Hans Hstale [] c1)
      by (now rewrite Hr1).
    eexists; eexists. splits.
    - now rewrite join_single.
    - rewrite trace_recvs. cbn [emit trace].
      now rewrite <- app_assoc, map_app.
    - reflexivity.
    - exact Hc1. }
  destruct tx as [| [| |] tx']; try discriminate.
  - apply (Hgo (set_request_id c rid)); reflexivity.
  - apply (Hgo (set_writer (set_request_id c rid) (Some tx'))); reflexivity.
Qed.

(** X19.  A command that is answered.  On a client that is connected and
    authenticated and whose writer accepts the frame, when the stream
    holds packets of other requests and then a packet with the ID of the
    command — frames of at most 4100 bytes each — [execute] returns the
    payload of that packet; it has written the command once, received the
    packets up to that one and no more, and left the rest of the stream
    unread. *)
Theorem execute_returns_response (command : str) (c : RCONClient)
    (w : World) (tx : list drain_outcome) (data : bytes)
    (stale : list RCONPacket) (answer : RCONPacket) (rest : list rx_item) :
  is_connected c = true ->
  _writer c = Some tx ->
  drain_ready tx = true ->
  encode (mkPacket ((_request_id c + 1) mod 2147483647)
                   SERVERDATA_EXECCOMMAND command) = Ok data ->
  _reader c = Some (flat_map frame_of stale ++ frame_of answer ++ rest) ->
  Forall (fun q => request_id q <> (_request_id c + 1) mod 2147483647
                   /\ exists d, encode q = Ok d
                                /\ Z.of_nat (length d) <= 4100) stale ->
  request_id answer = (_request_id c + 1) mod 2147483647 ->
  (exists d, encode answer = Ok d /\ Z.of_nat (length d) <= 4100) ->
  run_result (execute command c w) = Ok (payload answer)
  /\ trace (run_world (execute command c w))
     = trace w ++ EvWrite data :: map EvRecv stale ++ [EvRecv answer]
  /\ _reader (run_client (execute command c w)) = Some rest
  /\ is_connected (run_client (execute command c w)) = true.
Proof.
  intros Hc Hw Htx He Hrd Hstale Hid Hans.
  destruct (attempt_answer command c w tx data stale answer rest
              Hw Htx He Hrd Hstale Hid Hans)
    as (c' & w' & Ha & Ht & Hr & Hf).
  assert (E : execute command c w = (Ok (payload answer), c', w')).
  { unfold execute. rewrite _execute_internal_unfold, body_unfold.
    unfold _execute_precheck. rewrite Hc. cbn [negb]. now rewrite Ha. }
  rewrite E. unfold run_result, run_world, run_client. cbn [fst snd].
  splits; congruence.
Qed.

Lemma execute_returns_response_witness :
  let up := connect client_fresh world_accepting in
  run_result (execute (py "list") (run_client up) (run_world up))
  = Ok (payload (mkPacket 2 SERVERDATA_RESPONSE_VALUE players_line))
  /\ trace (run_world (execute (py "list") (run_client up) (run_world up)))
     = trace (run_world up)
       ++ EvWrite [14; 0; 0; 0; 2; 0; 0; 0; 2; 0; 0; 0; 108; 105; 115; 116;
                   0; 0]
          :: map EvRecv [mkPacket 7 SERVERDATA_RESPONSE_VALUE (py "stale")]
          ++ [EvRecv (mkPacket 2 SERVERDATA_RESPONSE_VALUE players_line)]
  /\ _reader (run_client (execute (py "list") (run_client up) (run_world up)))
     = Some []
  /\ is_connected
       (run_client (execute (py "list") (run_client up) (run_world up)))
     = true.
Proof.
  intros up.
  apply (execute_returns_response (py "list") (run_client up) (run_world up) []).
  - reflexivity.
  - reflexivity.
  - reflexivity.
  - vm_compute. reflexivity.
  - vm_compute. reflexivity.
  - repeat constructor.
    + vm_compute. discriminate.
    + eexists. split; [vm_compute; reflexivity | vm_compute; discriminate].
  - reflexivity.
  - eexists. split; [vm_compute; reflexivity | vm_compute; discriminate].
Defined.

(** ** What [execute] writes *)

Section Writes.

Variables pw command : str.

Lemma allowed_open : write_allowed pw command EvOpen.
Proof. exact I. Qed.

Lemma allowed_recv (p : RCONPacket) :
  write_allowed pw command (EvRecv p).
Proof. exact I. Qed.

Lemma send_allowed (p : RCONPacket) (c c' : RCONClient) (w w' : World)
    (r : result unit) :
  0 <= request_id p < 2147483647 ->
  (packet_type p = SERVERDATA_AUTH /\ payload p = pw)
  \/ (packet_type p = SERVERDATA_EXECCOMMAND /\ payload p = command) ->
  _send_packet p c w = (r, c', w') ->
  grows (write_allowed pw command) w w'.
Proof.
  intros Hid Hp H.
  destruct (send_trace _ _ _ _ _ _ H) as [[-> _] | (data & He & ->)];
    [apply grows_refl |].
  apply grows_emit. destruct p as [rid t s]. cbn in Hid, Hp.
  exists rid. split; [assumption |].
  destruct Hp as [[-> ->] | [-> ->]]; [now left | now right].
Qed.

Lemma recv_allowed (c c' : RCONClient) (w w' : World)
    (r : result RCONPacket) :
  _receive_packet c w = (r, c', w') ->
  grows (write_allowed pw command) w w'.
Proof.
  intros H. pose proof (recv_trace _ _ _ _ _ H) as Ht.
  destruct r; subst w'; [apply grows_emit, allowed_recv | apply grows_refl].
Qed.

Lemma exchange_allowed (rid : Z) (c c' : RCONClient) (w w' : World)
    (r : result RCONPacket) :
  0 <= rid < 2147483647 ->
  _authenticate_exchange (mkPacket rid SERVERDATA_AUTH pw) c w = (r, c', w') ->
  grows (write_allowed pw command) w w'.
Proof.
  intros Hid. unfold _authenticate_exchange, bind, ret. intros H.
  destruct (_send_packet _ c w) as [[[[] | e] c1] w1] eqn:Hs;
    apply send_allowed in Hs; try assumption; try (left; now split).
  2:{ now inv_run H. }
  destruct (_receive_packet c1 w1) as [[[response | e] c2] w2] eqn:Hr;
    apply recv_allowed in Hr.
  2:{ inv_run H. eapply grows_trans; eassumption. }
  destruct (packet_type response =? SERVERDATA_RESPONSE_VALUE).
  - apply recv_allowed in H.
    eapply grows_trans; [| exact H]. eapply grows_trans; eassumption.
  - inv_run H. eapply grows_trans; eassumption.
Qed.

Lemma authenticate_allowed (c c' : RCONClient) (w w' : World)
    (r : result unit) :
  password c = pw ->
  _authenticate c w = (r, c', w') ->
  grows (write_allowed pw command) w w'.
Proof.
  intros Hp. rewrite authenticate_unfold. cbv zeta. rewrite Hp.
  pose proof (next_request_id_range c) as Hid.
  set (auth_id := (_request_id c + 1) mod 2147483647) in *.
  destruct (_authenticate_exchange _ _ w) as [[[response | e] c2] w2] eqn:Hx;
    apply exchange_allowed in Hx; try assumption; intros H.
  - destruct (request_id response =? -1);
      [| destruct (negb (request_id response =? auth_id))];
      now inv_run H.
  - destruct (is_RCONError e); now inv_run H.
Qed.

Lemma connect_allowed (c c' : RCONClient) (w w' : World) (r : result unit) :
  password c = pw ->
  _connect_internal c w = (r, c', w') ->
  grows (write_allowed pw command) w w'.
Proof.
  intros Hp. unfold _connect_internal.
  destruct (_connected c); [intros H; inv_run H; apply grows_refl |].
  cbn [emit pending trace].
  assert (Hopen : forall rest,
             grows (write_allowed pw command) w
                   (mkWorld rest (trace w ++ [EvOpen]))).
  { intros rest. exists [EvOpen]. split; [reflexivity |].
    repeat constructor. }
  destruct (pending w) as [| [rx tx | |] rest]; intros H;
    try solve [inv_run H; apply Hopen].
  apply authenticate_allowed in H; [| exact Hp].
  eapply grows_trans; [apply Hopen | exact H].
Qed.

Lemma reconnect_attempt_allowed (c c' : RCONClient) (w w' : World)
    (r : result unit) :
  password c = pw ->
  _reconnect_attempt c w = (r, c', w') ->
  grows (write_allowed pw command) w w'.
Proof.
  intros Hp. unfold _reconnect_attempt, bind.
  destruct (disconnect_spec c w) as (c1 & w1 & Hd & (Dc & _) & _ & _ & Dg).
  rewrite Hd. unfold log_event. intros H.
  apply connect_allowed in H; [| congruence].
  eapply grows_trans; [| eapply grows_trans; [| exact H]].
  - eapply grows_weaken; [| exact Dg]. now intros ev ->.
  - now apply grows_emit.
Qed.

Lemma reconnect_loop_allowed (n : nat) :
  forall (c c' : RCONClient) (w w' : World) (r : result bool),
    password c = pw ->
    _reconnect_loop n c w = (r, c', w') ->
    grows (write_allowed pw command) w w'.
Proof.
  induction n as [| n IH]; intros c c' w w' r Hp H.
  - cbn [_reconnect_loop] in H. unfold ret in H. inv_run H. apply grows_refl.
  - rewrite reconnect_loop_unfold in H.
    destruct (_reconnect_attempt c w) as [[[[] | e] c1] w1] eqn:Ha;
      pose proof (reconnect_attempt_spec _ _ _ _ _ Ha) as ((Ac & _) & _);
      apply reconnect_attempt_allowed in Ha; try assumption.
    + now inv_run H.
    + destruct (is_RCONError e).
      * apply IH in H; [| congruence]. eapply grows_trans; eassumption.
      * now inv_run H.
Qed.

Lemma precheck_allowed (retry : bool) (c c' : RCONClient) (w w' : World)
    (r : result unit) :
  password c = pw ->
  _execute_precheck retry c w = (r, c', w') ->
  grows (write_allowed pw command) w w'.
Proof.
  intros Hp. unfold _execute_precheck, bind, _reconnect. intros H.
  destruct (negb (is_connected c)); [| inv_run H; apply grows_refl].
  destruct (auto_reconnect c && retry); [| inv_run H; apply grows_refl].
  destruct (_reconnect_loop _ c w) as [[[b | e] c1] w1] eqn:Hr;
    apply reconnect_loop_allowed in Hr; try assumption.
  - destruct b; cbn [negb] in H; now inv_run H.
  - now inv_run H.
Qed.

Lemma attempt_allowed (c c' : RCONClient) (w w' : World) (r : result str) :
  _execute_attempt command c w = (r, c', w') ->
  grows (write_allowed pw command) w w'.
Proof.
  intros H. apply attempt_spec in H. destruct H as (_ & _ & _ & _ & Ht).
  pose proof (next_request_id_range c) as Hid.
  assert (Hrecv : forall l, Forall (write_allowed pw command) (map EvRecv l)).
  { intros l. apply Forall_forall. intros ev Hev. apply in_map_iff in Hev.
    destruct Hev as (p & <- & _). exact I. }
  destruct Ht as [[-> _] | (data & sk & He & _ & Hr)]; [apply grows_refl |].
  assert (Hw : write_allowed pw command (EvWrite data)).
  { eexists. split; [exact Hid | right; exact He]. }
  destruct r as [s | e].
  - destruct Hr as (p & _ & _ & Ht).
    exists (EvWrite data :: map EvRecv sk ++ [EvRecv p]).
    split; [assumption |]. constructor; [exact Hw |].
    apply Forall_app. split; [apply Hrecv | repeat constructor].
  - exists (EvWrite data :: map EvRecv sk). split; [assumption |].
    constructor; [exact Hw | apply Hrecv].
Qed.

Section RecursiveCallWrites.

Variable self_call : str -> M str.

Hypothesis self_call_allowed :
  forall c w r c' w',
    password c = pw ->
    self_call command c w = (r, c', w') ->
    grows (write_allowed pw command) w w'.

Lemma except_allowed (retry : bool) (e : exn) (c c' : RCONClient)
    (w w' : World) (r : result str) :
  password c = pw ->
  _execute_except self_call command retry e c w = (r, c', w') ->
  grows (write_allowed pw command) w w'.
Proof.
  intros Hp. unfold _execute_except, bind.
  assert (Hre : forall c0 : RCONClient,
             (Raise e, c0, w) = (r, c', w') ->
             grows (write_allowed pw command) w w').
  { intros c0 H. inv_run H. apply grows_refl. }
  assert (Hrec :
             (let (p, w2) := _reconnect (mark_down c) w in
              let (r0, c2) := p in
              match r0 with
              | Ok ok =>
                  (if ok then self_call command else raise e) c2 w2
              | Raise e0 => (Raise e0, c2, w2)
              end) = (r, c', w') ->
             grows (write_allowed pw command) w w').
  { intros H.
    destruct (_reconnect (mark_down c) w) as [[[ok | e0] c2] w2] eqn:Hr;
      pose proof (reconnect_spec _ _ _ _ _ Hr) as ((Rc & _) & _);
      unfold _reconnect in Hr;
      apply reconnect_loop_allowed in Hr; try exact Hp.
    - destruct ok.
      + apply self_call_allowed in H; [| cbn in Rc; congruence].
        eapply grows_trans; eassumption.
      + unfold raise in H. now inv_run H.
    - now inv_run H. }
  destruct e; try (now apply Hre).
  - destruct (auto_reconnect (mark_down c) && retry);
      [exact Hrec | now apply Hre].
  - destruct (auto_reconnect c && retry); [exact Hrec | now apply Hre].
Qed.

Lemma body_allowed (retry : bool) (c c' : RCONClient) (w w' : World)
    (r : result str) :
  password c = pw ->
  _execute_internal_body self_call command retry c w = (r, c', w') ->
  grows (write_allowed pw command) w w'.
Proof.
  intros Hpw. rewrite body_unfold.
  destruct (_execute_precheck retry c w) as [[[[] | e] c0] w0] eqn:Hp;
    pose proof (precheck_spec _ _ _ _ _ _ Hp) as ((Pc & _) & _);
    apply precheck_allowed in Hp; try assumption.
  2:{ intros H. now inv_run H. }
  destruct (_execute_attempt command c0 w0) as [[[s | e] c1] w1] eqn:Ha;
    pose proof (attempt_spec _ _ _ _ _ _ Ha) as ((Ac & _) & _);
    apply attempt_allowed in Ha; intros H.
  - inv_run H. eapply grows_trans; eassumption.
  - apply except_allowed in H; [| congruence].
    eapply grows_trans; [eassumption |]. eapply grows_trans; eassumption.
Qed.

End RecursiveCallWrites.

Lemma execute_allowed (retry : bool) (c c' : RCONClient) (w w' : World)
    (r : result str) :
  password c = pw ->
  _execute_internal command retry c w = (r, c', w') ->
  grows (write_allowed pw command) w w'.
Proof.
  intros Hp H. apply (body_allowed _execute_internal_once) in H;
    [assumption | | assumption].
  clear. intros c w r c' w' Hp H.
  apply (body_allowed (fun _ => raise RCONConnectionError)) in H;
    [assumption | | assumption].
  clear. intros c w r c' w' _ H. unfold raise in H. inv_run H.
  apply grows_refl.
Qed.

End Writes.

(** X20.  Whatever the server and the transport do, the frames that one
    call of [execute] writes are of two kinds only: the frame of an
    [Auth] packet that carries the password of the client, and the frame
    of an [ExecCommand] packet that carries the command given, each under
    a request ID of [[0, 2147483646]]. *)
Theorem execute_writes_only_auth_and_command (command : str)
    (c : RCONClient) (w : World) :
  grows (write_allowed (password c) command) w
        (run_world (execute command c w)).
Proof.
  destruct (execute command c w) as [[r c'] w'] eqn:H.
  exact (execute_allowed (password c) command true c c' w w' r eq_refl H).
Qed.

(** ** Methods built on [execute] *)

Lemma internal_answered (command : str) (retry : bool)
    (c c' : RCONClient) (w w' : World) (s : str) :
  _execute_internal command retry c w = (Ok s, c', w') ->
  answered command s w w'.
Proof.
  intros H. unfold _execute_internal in H.
  apply body_answered in H; [assumption |].
  clear. intros c w s c' w' H. unfold _execute_internal_once in H.
  apply body_answered in H; [assumption |].
  intros ? ? ? ? ? E. discriminate E.
Qed.

(** X7.  When [whitelist_list] returns names, they were read from the
    payload of a packet that answered the command "whitelist list", and
    every one of them is not empty, has no white space at either end,
    holds no comma and no colon, and is made of characters of that
    payload. *)
Theorem whitelist_list_returns_clean_names (lower : str -> str)
    (c c' : RCONClient) (w w' : World) (names : list str) :
  whitelist_list lower c w = (Ok names, c', w') ->
  exists response,
    answered (py "whitelist list") response w w'
    /\ names = whitelist_names lower response
    /\ forall n, In n names ->
                 clean_name n /\ (forall x, In x n -> In x response).
Proof.
  unfold whitelist_list, bind, ret, execute. intros H.
  destruct (_execute_internal (py "whitelist list") true c w)
    as [[[response | e] c1] w1] eqn:He; [| discriminate].
  inv_run H. exists response. splits.
  - exact (internal_answered _ _ _ _ _ _ _ He).
  - reflexivity.
  - intros n. apply whitelist_names_clean.
Qed.

Lemma whitelist_list_returns_clean_names_witness :
  let w :=
    mkWorld
      [ConnOk (frame_of (mkPacket 1 SERVERDATA_AUTH_RESPONSE [])
               ++ frame_of
                    (mkPacket 2 SERVERDATA_RESPONSE_VALUE
                       (py "There are 2 whitelisted players: Steve, Alex")))
              []]
      [] in
  let out := whitelist_list (fun s => s) client_fresh w in
  exists response,
    answered (py "whitelist list") response w (run_world out)
    /\ [py "Steve"; py "Alex"] = whitelist_names (fun s => s) response
    /\ forall n, In n [py "Steve"; py "Alex"] ->
                 clean_name n /\ (forall x, In x n -> In x response).
Proof.
  intros w out.
  apply (whitelist_list_returns_clean_names
           (fun s => s) client_fresh (run_client out) w (run_world out)).
  vm_compute. reflexivity.
Defined.

(** ** The context manager and the bot *)

(** X21.  [create_rcon_client] always disconnects: when the block (or
    [connect] before it) has left the client in a state that satisfies
    the invariant, the client that comes out has no transport and is not
    connected, whether the block returned or raised; the outcome is that
    of [connect] followed by the block, and the block is not run when
    [connect] raises. *)
Theorem create_rcon_client_cleans_up {A : Type} (body : M A)
    (c : RCONClient) (w : World) :
  client_inv (run_client ((connect ;;; body) c w)) ->
  run_result (create_rcon_client body c w)
  = run_result ((connect ;;; body) c w)
  /\ _writer (run_client (create_rcon_client body c w)) = None
  /\ _reader (run_client (create_rcon_client body c w)) = None
  /\ is_connected (run_client (create_rcon_client body c w)) = false
  /\ client_inv (run_client (create_rcon_client body c w))
  /\ (forall e, run_result (connect c w) = Raise e ->
                run_result (create_rcon_client body c w) = Raise e).
Proof.
  intros Hi.
  assert (Hraise : forall e, run_result (connect c w) = Raise e ->
                             run_result ((connect ;;; body) c w) = Raise e).
  { intros e. unfold bind.
    destruct (connect c w) as [[[[] | e'] c0] w0]; [discriminate |].
    cbn. congruence. }
  unfold create_rcon_client.
  destruct ((connect ;;; body) c w) as [[r c1] w1].
  cbn [run_client run_result fst snd] in Hi, Hraise.
  destruct (disconnect_inv c1 w1 Hi) as (c2 & w2 & Hd & I2 & Hw & Hr & Hc & _).
  unfold disconnect. rewrite Hd.
  unfold run_result, run_client. cbn [fst snd].
  splits; try assumption; try reflexivity.
  now apply connected_down.
Qed.

Lemma create_rcon_client_cleans_up_witness :
  let body := execute (py "list") in
  run_result (create_rcon_client body client_fresh world_accepting)
  = run_result ((connect ;;; body) client_fresh world_accepting)
  /\ _writer (run_client (create_rcon_client body client_fresh world_accepting))
     = None
  /\ _reader (run_client (create_rcon_client body client_fresh world_accepting))
     = None
  /\ is_connected
       (run_client (create_rcon_client body client_fresh world_accepting))
     = false
  /\ client_inv
       (run_client (create_rcon_client body client_fresh world_accepting))
  /\ (forall e, run_result (connect client_fresh world_accepting) = Raise e ->
                run_result (create_rcon_client body client_fresh
                                               world_accepting) = Raise e).
Proof.
  intros body. apply create_rcon_client_cleans_up.
  remember (run_client ((connect ;;; body) client_fresh world_accepting))
    as cl eqn:E.
  vm_compute in E. subst cl. unfold client_inv. cbn.
  splits; intuition (try discriminate; try lia).
Defined.

(** X22.  [MinecraftBot._setup_rcon] keeps a client only when it is
    connected and authenticated: with an empty [RCON_PASSWORD] it opens
    nothing and keeps no client; otherwise it makes one connection
    attempt, and the client it keeps has the password given,
    auto-reconnect enabled and three reconnection attempts.  It never
    closes a transport, also when it gives the client up. *)
Theorem setup_rcon_outcome (RCON_PASSWORD : str) (w : World) :
  match _setup_rcon RCON_PASSWORD w with
  | (Some c, _) =>
      RCON_PASSWORD <> []
      /\ is_connected c = true
      /\ client_inv c
      /\ password c = RCON_PASSWORD
      /\ auto_reconnect c = true
      /\ max_reconnect_attempts c = 3
  | (None, w') => RCON_PASSWORD = [] -> w' = w
  end
  /\ exists delta,
      trace (snd (_setup_rcon RCON_PASSWORD w)) = trace w ++ delta
      /\ (count is_open delta <= 1)%nat
      /\ count is_reconnect_sleep delta = 0%nat
      /\ count is_close delta = 0%nat.
Proof.
  unfold _setup_rcon.
  destruct RCON_PASSWORD as [| ch pw]; cbn [str_is_empty].
  { split; [reflexivity |]. exists []. rewrite app_nil_r.
    splits; try reflexivity. cbn. lia. }
  set (c0 := init (ch :: pw) true 3).
  destruct (connect c0 w) as [[[[] | e] c] w'] eqn:H; cbn [snd].
  - split; [| exact (connect_conn _ _ _ _ _ H)].
    assert (Hc : _connected c0 = false) by reflexivity.
    destruct (connect_spec _ _ _ _ _ Hc H) as ((K1 & K2 & K3) & _ & Hr & _).
    pose proof (connect_inv _ _ _ _ _ (client_inv_init _ _ _) H) as Hi.
    splits; try assumption; try discriminate.
  - split; [discriminate | exact (connect_conn _ _ _ _ _ H)].
Qed.

(** X23.  [MinecraftBot.execute_rcon] turns every failure into [None]:
    without a client it does nothing; with one, a result that is not
    [None] is the payload of a packet that answered the command, and
    whatever the outcome the command was written twice at most and no
    more than six connection attempts were made for a client set up by
    the bot (three reconnection attempts). *)
Theorem execute_rcon_outcome (rcon : option RCONClient) (command : str)
    (w : World) :
  match execute_rcon rcon command w with
  | (Some s, rcon', w') =>
      rcon <> None /\ rcon' <> None /\ answered command s w w'
  | (None, rcon', w') => rcon = None -> rcon' = None /\ w' = w
  end
  /\ exec_bounded 2 w (snd (execute_rcon rcon command w))
  /\ (forall c, rcon = Some c -> max_reconnect_attempts c = 3 ->
                conn_bounded 6 w (snd (execute_rcon rcon command w))).
Proof.
  unfold execute_rcon. destruct rcon as [c |].
  - destruct (execute command c w) as [[[s | e] c'] w'] eqn:H; cbn [snd];
      pose proof (execute_bounded _ _ _ _ _ _ _ H) as [Hb _];
      pose proof (execute_conn _ _ _ _ _ _ _ H) as Hc;
      (split; [| split; [exact Hb |]]).
    + splits; try discriminate. exact (internal_answered _ _ _ _ _ _ _ H).
    + intros c0 E Hm. apply Some_inj in E. subst c0. rewrite Hm in Hc.
      eapply conn_bounded_weaken; [| exact Hc].
      destruct (auto_reconnect c && true); cbn; lia.
    + discriminate.
    + intros c0 E Hm. apply Some_inj in E. subst c0. rewrite Hm in Hc.
      eapply conn_bounded_weaken; [| exact Hc].
      destruct (auto_reconnect c && true); cbn; lia.
  - cbn [snd]. split; [| split].
    + auto.
    + apply (exec_bounded_weaken 0); [lia |].
      apply exec_bounded_grows, grows_refl.
    + discriminate.
Qed.
